(** * Quintago crossword engine: the state reducer and its geometry

    A shallow embedding of [septago_crossword/geometry.py] and
    [septago_crossword/engine.py], of [septago_crossword/ui_adapters.py],
    of the validation of [septago_crossword/puzzle_io.py] and of the
    event block of [app/app.py], followed by the properties of the
    reducer that the specification states and by further properties of
    the code.

    Conventions of the embedding:
    - a Python [int] is a [Z]; a Python [str] is a [string] whose
      characters are read as code points below 256;
    - a [dict] whose iteration order is observed ([GridSpec.slots],
      [Puzzle.entries]) is an association list in insertion order; a
      [dict] that is only read by key ([grid_letters], [check_marks],
      the truth map, an event payload) is a [gmap]; a [frozenset] is a
      [gset];
    - code that can raise returns a [result]; [replace(state, f=v)] is a
      field setter on the state record;
    - the fresh [uuid4] of [init_state] is an argument of [init_state]. *)

From Stdlib Require Import ZArith String Ascii.
From stdpp Require Import gmap strings list fin_maps pretty.

#[local] Set Warnings "-clear-no-such-hyp".

Local Open Scope string_scope.
Local Open Scope Z_scope.
Local Open Scope list_scope.

(** ** The fragment of Python the engine relies on *)

Module Py.

(** Exceptions the modelled code can raise and does not catch. *)
Inductive exn : Type :=
  | KeyError
  | IndexError
  | ValueError
  | RuntimeError
  | AttributeError
  | TypeError.

Inductive result (A : Type) : Type :=
  | Ok (a : A)
  | Raise (e : exn).
Arguments Ok {A} a.
Arguments Raise {A} e.

Definition bind {A B : Type} (m : result A) (k : A -> result B) : result B :=
  match m with
  | Ok a => k a
  | Raise e => Raise e
  end.

(** [d[k]] on an insertion-ordered dict. *)
Fixpoint dict_get {K V : Type} `{EqDecision K} (d : list (K * V)) (k : K) : result V :=
  match d with
  | [] => Raise KeyError
  | (k', v) :: d' => if decide (k' = k) then Ok v else dict_get d' k
  end.

(** [l[i]] for an index already known to be non-negative. *)
Definition list_get {A : Type} (l : list A) (i : Z) : result A :=
  match l !! Z.to_nat i with
  | Some a => Ok a
  | None => Raise IndexError
  end.

(** [l.index(x)]: [None] stands for the [ValueError] of an absent [x]. *)
Fixpoint list_index {A : Type} `{EqDecision A} (x : A) (l : list A) : option Z :=
  match l with
  | [] => None
  | y :: l' => if decide (y = x) then Some 0 else Z.succ <$> list_index x l'
  end.

(** [range(n)]. *)
Definition range (n : Z) : list Z := Z.of_nat <$> seq 0 (Z.to_nat n).

(** JSON scalars, the values an event payload or a puzzle's meta block
    carries (numbers are integers). *)
Inductive pyval : Type :=
  | VNone
  | VBool (b : bool)
  | VInt (z : Z)
  | VStr (s : string).

Definition code (a : ascii) : Z := Z.of_N (N_of_ascii a).

Definition char_of_code (z : Z) : ascii := ascii_of_N (Z.to_N z).

(** [str.upper] and [str.lower] on strings of characters below 256.
    A small letter has its capital 32 below it, but for the sharp s
    (223), whose upper case is SS, and for the micro sign (181) and y
    with diaeresis (255), whose capitals lie above 255: like the two
    characters themselves, these capitals are neither among A-Z nor white
    space, and the two characters stand for them. *)
Definition upper_char (a : ascii) : ascii :=
  let n := code a in
  if ((97 <=? n) && (n <=? 122)) || ((224 <=? n) && (n <=? 254) && negb (n =? 247))
  then char_of_code (n - 32) else a.

Definition lower_char (a : ascii) : ascii :=
  let n := code a in
  if ((65 <=? n) && (n <=? 90)) || ((192 <=? n) && (n <=? 222) && negb (n =? 215))
  then char_of_code (n + 32) else a.

Fixpoint upper (s : string) : string :=
  match s with
  | EmptyString => EmptyString
  | String a s' =>
      if code a =? 223 then String "S" (String "S" (upper s'))
      else String (upper_char a) (upper s')
  end.

Fixpoint lower (s : string) : string :=
  match s with
  | EmptyString => EmptyString
  | String a s' => String (lower_char a) (lower s')
  end.

Definition len (s : string) : Z := Z.of_nat (String.length s).

(** Comparison of strings, code point by code point. *)
Fixpoint str_leb (s t : string) : bool :=
  match s, t with
  | EmptyString, _ => true
  | String _ _, EmptyString => false
  | String a s', String b t' =>
      if code a <? code b then true
      else if code b <? code a then false
      else str_leb s' t'
  end.

(** The characters [str.strip] and [int] treat as white space. *)
Definition is_space (a : ascii) : bool :=
  let n := code a in
  ((9 <=? n) && (n <=? 13)) || ((28 <=? n) && (n <=? 32)) || (n =? 133) || (n =? 160).

Fixpoint lstrip (s : string) : string :=
  match s with
  | EmptyString => EmptyString
  | String a s' => if is_space a then lstrip s' else s
  end.

Fixpoint rstrip (s : string) : string :=
  match s with
  | EmptyString => EmptyString
  | String a s' =>
      match rstrip s' with
      | EmptyString => if is_space a then EmptyString else String a EmptyString
      | t => String a t
      end
  end.

Definition strip (s : string) : string := rstrip (lstrip s).

(** [s.split(sep)] for a one-character separator. *)
Fixpoint split (sep : ascii) (s : string) : list string :=
  match s with
  | EmptyString => [EmptyString]
  | String a s' =>
      if decide (a = sep) then EmptyString :: split sep s'
      else match split sep s' with
           | [] => [String a EmptyString]
           | t :: ts => String a t :: ts
           end
  end.

Definition is_digit (a : ascii) : bool := (48 <=? code a) && (code a <=? 57).

(** Decimal digits with single underscores between them. *)
Fixpoint digits_value (acc : Z) (after_digit : bool) (s : string) : option Z :=
  match s with
  | EmptyString => if after_digit then Some acc else None
  | String a s' =>
      if is_digit a then digits_value (10 * acc + (code a - 48)) true s'
      else if decide (a = "_"%char)
           then (if after_digit then digits_value acc false s' else None)
           else None
  end.

(** The white space [int] skips around a numeral: that of [str.strip]
    less the separators 28 to 31, which [int] refuses. *)
Definition is_int_space (a : ascii) : bool :=
  is_space a && negb ((28 <=? code a) && (code a <=? 31)).

Fixpoint int_lstrip (s : string) : string :=
  match s with
  | EmptyString => EmptyString
  | String a s' => if is_int_space a then int_lstrip s' else s
  end.

Fixpoint int_rstrip (s : string) : string :=
  match s with
  | EmptyString => EmptyString
  | String a s' =>
      match int_rstrip s' with
      | EmptyString => if is_int_space a then EmptyString else String a EmptyString
      | t => String a t
      end
  end.

(** [int(s)] for a string: [None] stands for [ValueError]. *)
Definition int_of_str (s : string) : option Z :=
  match int_rstrip (int_lstrip s) with
  | String "-" t => Z.opp <$> digits_value 0 false t
  | String "+" t => digits_value 0 false t
  | t => digits_value 0 false t
  end.

(** [int(v)]: [None] stands for [TypeError] or [ValueError]. *)
Definition int_of (v : pyval) : option Z :=
  match v with
  | VNone => None
  | VBool b => Some (if b then 1 else 0)
  | VInt z => Some z
  | VStr s => int_of_str s
  end.

(** [str(v)]. *)
Definition str_of (v : pyval) : string :=
  match v with
  | VNone => "None"
  | VBool b => if b then "True" else "False"
  | VInt z => pretty z
  | VStr s => s
  end.

(** [str(d.get(key, ""))]. *)
Definition get_str (d : gmap string pyval) (key : string) : string :=
  match d !! key with
  | Some v => str_of v
  | None => ""
  end.

End Py.

Import Py.

(** [result] is an error monad; [x ← m; k] propagates a raised exception. *)
#[global] Instance result_ret : MRet result := fun A a => Ok a.
#[global] Instance result_bind : MBind result := fun A B k m => bind m k.


(** ** geometry.py *)

Module Geometry.

Abbreviation Cell := (Z * Z)%type.

Inductive SlotId : Type := h1 | h2 | v1 | v2 | hw.

#[global] Instance SlotId_eq_dec : EqDecision SlotId.
Proof. solve_decision. Defined.

(** The literals ["H"] and ["V"]. *)
Inductive Orientation : Type := OrientH | OrientV.

#[global] Instance Orientation_eq_dec : EqDecision Orientation.
Proof. solve_decision. Defined.

Record GridSpec : Type := mkGridSpec {
  size : Z;
  playable_mask : list (list bool);
  slots : list (SlotId * list Cell);
  cell_to_slots : gmap Cell (list SlotId);
  slot_lengths : list (SlotId * Z)
}.

(** The loop of [build_grid_spec] that inverts [slots]:
    [cell_to_slots.setdefault(cell, []).append(sid)]. *)
Definition index_cell (sid : SlotId) (acc : gmap Cell (list SlotId)) (cell : Cell)
    : gmap Cell (list SlotId) :=
  <[cell := default [] (acc !! cell) ++ [sid]]> acc.

Definition index_slot (acc : gmap Cell (list SlotId)) (item : SlotId * list Cell)
    : gmap Cell (list SlotId) :=
  foldl (index_cell item.1) acc item.2.

Definition build_grid_spec : GridSpec :=
  let size := 5 in
  let playable_rows : list Z := [1; 3] in
  let playable_cols : list Z := [1; 3] in
  let playable_mask :=
    (fun r => (fun c => bool_decide (r ∈ playable_rows) || bool_decide (c ∈ playable_cols))
                <$> range size) <$> range size in
  let slots :=
    [ (h1, (fun c => (1, c)) <$> range size);
      (h2, (fun c => (3, c)) <$> range size);
      (v1, (fun r => (r, 1)) <$> range size);
      (v2, (fun r => (r, 3)) <$> range size);
      (hw, [(1, 1); (1, 3); (3, 3); (3, 1)]) ] in
  let cell_to_slots := foldl index_slot ∅ slots in
  let slot_lengths := (fun item => (item.1, Z.of_nat (length item.2))) <$> slots in
  mkGridSpec size playable_mask slots cell_to_slots slot_lengths.

(** [grid.playable_mask[r][c]] for [0 <= r] and [0 <= c]. *)
Definition mask_at (grid : GridSpec) (r c : Z) : result bool :=
  row ← list_get (playable_mask grid) r; list_get row c.

Definition out_of_bounds (grid : GridSpec) (r c : Z) : bool :=
  (r <? 0) || (c <? 0) || (r >=? size grid) || (c >=? size grid).

Definition is_playable (grid : GridSpec) (cell : Cell) : result bool :=
  let '(r, c) := cell in
  if out_of_bounds grid r c then Ok false
  else mask_at grid r c.

(** The inner and the outer loop of [first_playable_cell]. *)
Fixpoint first_playable_in_row (grid : GridSpec) (r : Z) (cs : list Z) : result (option Cell) :=
  match cs with
  | [] => Ok None
  | c :: cs' =>
      b ← mask_at grid r c;
      if b : bool then Ok (Some (r, c)) else first_playable_in_row grid r cs'
  end.

Fixpoint first_playable_from (grid : GridSpec) (rs : list Z) : result Cell :=
  match rs with
  | [] => Raise RuntimeError
  | r :: rs' =>
      found ← first_playable_in_row grid r (range (size grid));
      match found with
      | Some cell => Ok cell
      | None => first_playable_from grid rs'
      end
  end.

Definition first_playable_cell (grid : GridSpec) : result Cell :=
  first_playable_from grid (range (size grid)).

End Geometry.

Import Geometry.

(** ** puzzle_io.py: the puzzle value the engine receives *)

Module PuzzleIO.

Record Entry : Type := mkEntry {
  clue : string;
  answer : string;
  initial : string
}.

(** An element of the list [meta["givens"]]: a dict, or anything else. *)
Inductive given_item : Type :=
  | GivenDict (d : gmap string pyval)
  | GivenOther.

(** The two keys of [Puzzle.meta] the engine reads. [meta_givens] is
    [None] when the key is absent or its value is not a list. *)
Record Meta : Type := mkMeta {
  meta_id : option pyval;
  meta_givens : option (list given_item)
}.

Record Puzzle : Type := mkPuzzle {
  schema_version : string;
  meta : Meta;
  entries : list (SlotId * Entry);
  filename : string
}.

End PuzzleIO.

Import PuzzleIO.

(** ** engine.py *)

Module Engine.

Inductive CheckState : Type := none | ok | bad.

#[global] Instance CheckState_eq_dec : EqDecision CheckState.
Proof. solve_decision. Defined.

Record TruthMap : Type := mkTruthMap {
  truth : gmap Cell string
}.

Record GameState : Type := mkGameState {
  puzzle_id : string;
  state_id : string;
  grid_letters : gmap Cell string;
  given_cells : gset Cell;
  active_cell : Cell;
  active_slot : SlotId;
  orientation : Orientation;
  check_marks : gmap Cell CheckState;
  last_action : string;
  last_client_seq : Z
}.

(** [dataclasses.replace(state, field=value)], one setter per field the
    reducer replaces. *)
Definition set_grid_letters (v : gmap Cell string) (s : GameState) : GameState :=
  mkGameState (puzzle_id s) (state_id s) v (given_cells s) (active_cell s)
    (active_slot s) (orientation s) (check_marks s) (last_action s) (last_client_seq s).

Definition set_active_cell (v : Cell) (s : GameState) : GameState :=
  mkGameState (puzzle_id s) (state_id s) (grid_letters s) (given_cells s) v
    (active_slot s) (orientation s) (check_marks s) (last_action s) (last_client_seq s).

Definition set_active_slot (v : SlotId) (s : GameState) : GameState :=
  mkGameState (puzzle_id s) (state_id s) (grid_letters s) (given_cells s) (active_cell s)
    v (orientation s) (check_marks s) (last_action s) (last_client_seq s).

Definition set_orientation (v : Orientation) (s : GameState) : GameState :=
  mkGameState (puzzle_id s) (state_id s) (grid_letters s) (given_cells s) (active_cell s)
    (active_slot s) v (check_marks s) (last_action s) (last_client_seq s).

Definition set_check_marks (v : gmap Cell CheckState) (s : GameState) : GameState :=
  mkGameState (puzzle_id s) (state_id s) (grid_letters s) (given_cells s) (active_cell s)
    (active_slot s) (orientation s) v (last_action s) (last_client_seq s).

Definition set_last_action (v : string) (s : GameState) : GameState :=
  mkGameState (puzzle_id s) (state_id s) (grid_letters s) (given_cells s) (active_cell s)
    (active_slot s) (orientation s) (check_marks s) v (last_client_seq s).

Definition set_last_client_seq (v : Z) (s : GameState) : GameState :=
  mkGameState (puzzle_id s) (state_id s) (grid_letters s) (given_cells s) (active_cell s)
    (active_slot s) (orientation s) (check_marks s) (last_action s) v.

(** *** truth/init *)

(** [for i, cell in enumerate(cells): truth[cell] = entry.answer[i]]. *)
Fixpoint project_answer (cells : list Cell) (answer : string) (acc : gmap Cell string)
    : result (gmap Cell string) :=
  match cells with
  | [] => Ok acc
  | cell :: cells' =>
      match answer with
      | EmptyString => Raise IndexError
      | String a answer' => project_answer cells' answer' (<[cell := String a EmptyString]> acc)
      end
  end.

Fixpoint project_entries (grid : GridSpec) (items : list (SlotId * Entry))
    (acc : gmap Cell string) : result (gmap Cell string) :=
  match items with
  | [] => Ok acc
  | (sid, entry) :: items' =>
      cells ← dict_get (slots grid) sid;
      acc' ← project_answer cells (answer entry) acc;
      project_entries grid items' acc'
  end.

Definition build_truth_map (puzzle : Puzzle) (grid : GridSpec) : result TruthMap :=
  t ← project_entries grid (entries puzzle) ∅;
  Ok (mkTruthMap t).

(** The two loops of [init_state] that build the empty letter map. *)
Fixpoint empty_row (grid : GridSpec) (r : Z) (cs : list Z) (acc : gmap Cell string)
    : result (gmap Cell string) :=
  match cs with
  | [] => Ok acc
  | c :: cs' =>
      b ← mask_at grid r c;
      empty_row grid r cs' (if b : bool then <[(r, c) := ""]> acc else acc)
  end.

Fixpoint empty_rows (grid : GridSpec) (rs : list Z) (acc : gmap Cell string)
    : result (gmap Cell string) :=
  match rs with
  | [] => Ok acc
  | r :: rs' =>
      acc' ← empty_row grid r (range (size grid)) acc;
      empty_rows grid rs' acc'
  end.

(** [r, c = cell_id.split(","); cell = (int(r), int(c))]; [None] stands
    for any exception, which both callers catch. *)
Definition parse_cell_id (cell_id : string) : option Cell :=
  match split "," cell_id with
  | [r_s; c_s] =>
      r ← int_of_str r_s;
      c ← int_of_str c_s;
      Some (r, c)
  | _ => None
  end.

(** [len(ch) == 1 and "A" <= ch <= "Z"]. *)
Definition is_letter (ch : string) : bool :=
  (len ch =? 1) && (str_leb "A" ch && str_leb ch "Z").

(** One iteration of the [meta.givens] loop of [init_state]. *)
Definition seed_given (acc : gmap Cell string * gset Cell) (item : given_item)
    : gmap Cell string * gset Cell :=
  match item with
  | GivenOther => acc
  | GivenDict d =>
      let cell_id := get_str d "cell" in
      let letter := strip (upper (get_str d "letter")) in
      match parse_cell_id cell_id with
      | None => acc
      | Some cell =>
          if decide (acc.1 !! cell = None) then acc
          else if negb (is_letter letter) then acc
          else (<[cell := letter]> acc.1, {[cell]} ∪ acc.2)
      end
  end.

(** A list used as a condition: true when it is not empty. *)
Definition truthy {A : Type} (l : list A) : bool :=
  match l with
  | [] => false
  | _ :: _ => true
  end.

(** [opts[0]], read only under [truthy opts]. *)
Definition first_of (opts : list SlotId) : SlotId := hd h1 opts.

Definition _resolve_active_slot (grid : GridSpec) (cell : Cell)
    (orientation : Orientation) (prefer_hw : bool) : SlotId :=
  let slots := default [] (cell_to_slots grid !! cell) in
  let h_opts := filter (fun s => s ∈ [h1; h2]) slots in
  let v_opts := filter (fun s => s ∈ [v1; v2]) slots in
  let hw_opts := filter (fun s => s = hw) slots in
  if bool_decide (orientation = OrientH) && truthy h_opts then first_of h_opts
  else if bool_decide (orientation = OrientV) && truthy v_opts then first_of v_opts
  else if prefer_hw && truthy hw_opts then hw
  else if truthy h_opts then first_of h_opts
  else if truthy v_opts then first_of v_opts
  else if truthy hw_opts then hw
  else h1.

(** [init_state]; [fresh] is the value of [str(uuid.uuid4())]. *)
Definition init_state (puzzle : Puzzle) (grid : GridSpec) (fresh : string)
    : result GameState :=
  empty ← empty_rows grid (range (size grid)) ∅;
  let seeded :=
    match meta_givens (meta puzzle) with
    | Some items => foldl seed_given (empty, ∅) items
    | None => (empty, ∅)
    end in
  start ← first_playable_cell grid;
  let orientation := OrientH in
  let active_slot := _resolve_active_slot grid start orientation false in
  let check_marks := (fun _ => none) <$> seeded.1 in
  let puzzle_id :=
    match meta_id (meta puzzle) with
    | Some v => str_of v
    | None => filename puzzle
    end in
  Ok (mkGameState puzzle_id fresh seeded.1 seeded.2 start active_slot orientation
        check_marks "init" 0).

(** *** event contracts *)

Record GridEvent : Type := mkGridEvent {
  type : string;
  payload : gmap string pyval
}.

(** The nine values of [EventType]. *)
Definition event_types : list string :=
  [ "CLICK_CELL"; "TYPE_CHAR"; "BACKSPACE"; "ARROW"; "TAB"; "SHIFT_TAB";
    "TOGGLE_ORIENTATION"; "REQUEST_CHECK_WORD"; "REQUEST_CHECK_PUZZLE" ].

Definition SLOT_ORDER : list SlotId := [h1; h2; v1; v2; hw].

(** *** reducers *)

(** The mark a check gives a cell holding [val] where [expected] is due. *)
Definition judge (val expected : string) : CheckState :=
  if decide (val = "") then bad
  else if decide (val = expected) then ok else bad.

(** The body of the loop of [check_word]. *)
Definition check_cell (state : GameState) (truth : TruthMap)
    (new_marks : gmap Cell CheckState) (cell : Cell) : gmap Cell CheckState :=
  match Engine.truth truth !! cell with
  | None => new_marks
  | Some expected =>
      <[cell := judge (default "" (grid_letters state !! cell)) expected]> new_marks
  end.

Definition check_word (state : GameState) (grid : GridSpec) (truth : TruthMap)
    : result GameState :=
  cells ← dict_get (slots grid) (active_slot state);
  let new_marks := foldl (check_cell state truth) (check_marks state) cells in
  Ok (set_last_action "check_word" (set_check_marks new_marks state)).

Definition check_puzzle (state : GameState) (grid : GridSpec) (truth : TruthMap)
    : GameState :=
  let new_marks :=
    map_fold (fun cell expected new_marks =>
                <[cell := judge (default "" (grid_letters state !! cell)) expected]> new_marks)
             (check_marks state) (Engine.truth truth) in
  set_last_action "check_puzzle" (set_check_marks new_marks state).

Definition clear_checks (state : GameState) : GameState :=
  set_check_marks ((fun _ => none) <$> check_marks state) state.

(** *** helpers *)

Definition has_h (slots : list SlotId) : bool := existsb (fun s => bool_decide (s ∈ [h1; h2])) slots.
Definition has_v (slots : list SlotId) : bool := existsb (fun s => bool_decide (s ∈ [v1; v2])) slots.

Definition flip (o : Orientation) : Orientation :=
  if decide (o = OrientH) then OrientV else OrientH.

Definition _on_click_cell (state : GameState) (payload : gmap string pyval) (grid : GridSpec)
    : result GameState :=
  let cell_id := get_str payload "cell_id" in
  match parse_cell_id cell_id with
  | None => Ok (set_last_action "click:bad_cell_id" state)
  | Some cell =>
      playable ← is_playable grid cell;
      if negb playable then Ok (set_last_action "click:black_or_oob" state)
      else
        let new_orientation :=
          if decide (cell = active_cell state) then
            let slots := default [] (cell_to_slots grid !! cell) in
            if has_h slots && has_v slots then flip (orientation state)
            else orientation state
          else orientation state in
        let new_slot := _resolve_active_slot grid cell new_orientation false in
        Ok (set_last_action "click"
              (set_active_slot new_slot
                 (set_orientation new_orientation (set_active_cell cell state))))
  end.

Definition _advance_within_slot (grid : GridSpec) (slot : SlotId) (cell : Cell) (step : Z)
    : result Cell :=
  cells ← dict_get (slots grid) slot;
  if negb (bool_decide (cell ∈ cells)) then list_get cells 0
  else
    match list_index cell cells with
    | None => Raise ValueError
    | Some idx =>
        let nxt := idx + step in
        if (nxt <? 0) || (nxt >=? Z.of_nat (length cells)) then Ok cell
        else list_get cells nxt
    end.

Definition _on_type_char (state : GameState) (payload : gmap string pyval) (grid : GridSpec)
    : result GameState :=
  let ch := upper (get_str payload "char") in
  if negb (len ch =? 1) || negb (str_leb "A" ch && str_leb ch "Z")
  then Ok (set_last_action "type:ignored" state)
  else if bool_decide (active_cell state ∈ given_cells state)
  then Ok (set_last_action "type:on_given_ignored" state)
  else
    let new_letters := <[active_cell state := ch]> (grid_letters state) in
    let new_state := set_last_action "type" (set_grid_letters new_letters state) in
    let new_state := clear_checks new_state in
    next_cell ← _advance_within_slot grid (active_slot state) (active_cell state) 1;
    Ok (set_active_cell next_cell new_state).

Definition _on_backspace (state : GameState) (grid : GridSpec) : result GameState :=
  if bool_decide (active_cell state ∈ given_cells state)
  then Ok (set_last_action "backspace:on_given_ignored" state)
  else
    let val := default "" (grid_letters state !! active_cell state) in
    let new_letters := grid_letters state in
    if negb (bool_decide (val = "")) then
      let new_letters := <[active_cell state := ""]> new_letters in
      let new_state := set_last_action "backspace:clear" (set_grid_letters new_letters state) in
      Ok (clear_checks new_state)
    else
      prev_cell ← _advance_within_slot grid (active_slot state) (active_cell state) (-1);
      if bool_decide (prev_cell = active_cell state)
      then Ok (set_last_action "backspace:at_start" state)
      else if bool_decide (prev_cell ∈ given_cells state)
      then Ok (set_last_action "backspace:prev_is_given" (set_active_cell prev_cell state))
      else
        let new_letters := <[prev_cell := ""]> new_letters in
        let new_state :=
          set_last_action "backspace:move_clear"
            (set_active_cell prev_cell (set_grid_letters new_letters state)) in
        Ok (clear_checks new_state).

Definition _step_dir (dir_ : string) : Z * Z * Orientation :=
  if decide (dir_ = "LEFT") then (0, -1, OrientH)
  else if decide (dir_ = "RIGHT") then (0, 1, OrientH)
  else if decide (dir_ = "UP") then (-1, 0, OrientV)
  else if decide (dir_ = "DOWN") then (1, 0, OrientV)
  else (0, 0, OrientH).

(** The [for _ in range(grid.size * grid.size)] loop of [_on_arrow],
    with [n] iterations left and the scan at [(r, c)]. *)
Fixpoint arrow_loop (state : GameState) (grid : GridSpec) (dir_ : string)
    (dr dc : Z) (orientation : Orientation) (n : nat) (r c : Z) : result GameState :=
  match n with
  | O => Ok (set_last_action "arrow:failed" state)
  | S n' =>
      let r := r + dr in
      let c := c + dc in
      let cell := (r, c) in
      if (r <? 0) || (c <? 0) || (r >=? size grid) || (c >=? size grid) then
        Ok (set_last_action "arrow:edge"
              (set_active_slot (_resolve_active_slot grid (active_cell state) orientation false)
                 (set_orientation orientation state)))
      else
        playable ← is_playable grid cell;
        if playable : bool then
          let new_slot := _resolve_active_slot grid cell orientation false in
          Ok (set_last_action ("arrow:" +:+ lower dir_)
                (set_active_slot new_slot
                   (set_orientation orientation (set_active_cell cell state))))
        else arrow_loop state grid dir_ dr dc orientation n' r c
  end.

Definition _on_arrow (state : GameState) (payload : gmap string pyval) (grid : GridSpec)
    : result GameState :=
  let dir_ := upper (get_str payload "dir") in
  let '(dr, dc, implied_orientation) := _step_dir dir_ in
  if (dr =? 0) && (dc =? 0) then Ok (set_last_action "arrow:ignored" state)
  else
    let orientation := implied_orientation in
    let '(r, c) := active_cell state in
    arrow_loop state grid dir_ dr dc orientation (length (range (size grid * size grid))) r c.

Definition _on_tab (state : GameState) (grid : GridSpec) (forward : bool) : result GameState :=
  let cur := active_slot state in
  let idx := default 0 (list_index cur SLOT_ORDER) in
  let nxt := (idx + (if forward then 1 else -1)) `mod` Z.of_nat (length SLOT_ORDER) in
  slot ← list_get SLOT_ORDER nxt;
  cells ← dict_get (slots grid) slot;
  let orientation :=
    if bool_decide (slot ∈ [h1; h2]) then OrientH
    else if bool_decide (slot ∈ [v1; v2]) then OrientV
    else orientation state in
  first ← list_get cells 0;
  Ok (set_last_action "tab"
        (set_orientation orientation (set_active_cell first (set_active_slot slot state)))).

Definition _on_toggle_orientation (state : GameState) (grid : GridSpec) : GameState :=
  let cell := active_cell state in
  let slots := default [] (cell_to_slots grid !! cell) in
  if negb (has_h slots && has_v slots) then set_last_action "toggle:ignored" state
  else
    let new_orientation := flip (orientation state) in
    let new_slot := _resolve_active_slot grid cell new_orientation false in
    set_last_action "toggle" (set_active_slot new_slot (set_orientation new_orientation state)).

(** [int(client_seq) if client_seq is not None else None], with any
    exception of [int] turned into [None]. *)
Definition client_seq_int (payload : gmap string pyval) : option Z :=
  match payload !! "client_seq" with
  | None => None
  | Some VNone => None
  | Some v => int_of v
  end.

Definition reduce (state : GameState) (event : GridEvent) (grid : GridSpec) (truth : TruthMap)
    : result GameState :=
  let payload := payload event in
  let client_seq_int := client_seq_int payload in
  let t := type event in
  out ← (if decide (t = "CLICK_CELL") then _on_click_cell state payload grid
         else if decide (t = "TYPE_CHAR") then _on_type_char state payload grid
         else if decide (t = "BACKSPACE") then _on_backspace state grid
         else if decide (t = "ARROW") then _on_arrow state payload grid
         else if decide (t = "TAB") then _on_tab state grid true
         else if decide (t = "SHIFT_TAB") then _on_tab state grid false
         else if decide (t = "TOGGLE_ORIENTATION") then Ok (_on_toggle_orientation state grid)
         else if decide (t = "REQUEST_CHECK_WORD") then check_word state grid truth
         else if decide (t = "REQUEST_CHECK_PUZZLE") then Ok (check_puzzle state grid truth)
         else Ok (set_last_action ("ignored:" +:+ t) state));
  match client_seq_int with
  | Some n => if n >? last_client_seq out then Ok (set_last_client_seq n out) else Ok out
  | None => Ok out
  end.

End Engine.

Import Engine.

(** ** ui_adapters.py *)

Module UiAdapters.

(** [f"{cell[0]},{cell[1]}"]. *)
Definition cell_id (cell : Cell) : string :=
  pretty cell.1 +:+ "," +:+ pretty cell.2.

Record Highlight : Type := mkHighlight {
  hl_active_cell : bool;
  hl_active_slot : bool;
  hl_check_state : CheckState
}.

(** One element of the ["cells"] list. *)
Record CellView : Type := mkCellView {
  cv_id : string;
  cv_r : Z;
  cv_c : Z;
  cv_is_black : bool;
  cv_is_playable : bool;
  cv_letter : string;
  cv_is_given : bool;
  cv_highlight : Highlight
}.

Record GridView : Type := mkGridView {
  gv_size : Z;
  gv_cells : list CellView;
  gv_styling : list (string * pyval);
  gv_slots : list (SlotId * list string);
  gv_cell_to_slots : gmap string (list SlotId);
  gv_slot_order : list SlotId
}.

Record FocusView : Type := mkFocusView {
  fv_active_cell_id : string;
  fv_active_slot : SlotId;
  fv_orientation : Orientation
}.

Record BehaviorView : Type := mkBehaviorView {
  bv_capture_keyboard : bool;
  bv_allow_edit_given_cells : bool;
  bv_advance_on_type : bool;
  bv_skip_black_cells : bool
}.

Record SyncView : Type := mkSyncView {
  sv_last_client_seq : Z;
  sv_puzzle_id : string;
  sv_state_id : string
}.

Record ComponentProps : Type := mkComponentProps {
  cp_schema_version : string;
  cp_grid : GridView;
  cp_focus : FocusView;
  cp_behavior : BehaviorView;
  cp_sync : SyncView
}.

(** The body of the two loops of [make_component_props], for the cell
    [(r, c)]. *)
Definition cell_view (state : GameState) (grid : GridSpec) (r c : Z) : result CellView :=
  playable ← mask_at grid r c;
  let is_black := negb playable in
  let cell := (r, c) in
  let letter := if playable : bool then default "" (grid_letters state !! cell) else "" in
  let is_given := if playable then bool_decide (cell ∈ given_cells state) else false in
  in_active_slot ←
    (if playable then
       cells ← dict_get (slots grid) (active_slot state);
       Ok (bool_decide (cell ∈ cells))
     else Ok false);
  let is_active_cell := if playable then bool_decide (cell = active_cell state) else false in
  let check_state := if playable then default none (check_marks state !! cell) else none in
  Ok (mkCellView (cell_id cell) r c is_black playable letter is_given
        (mkHighlight is_active_cell in_active_slot check_state)).

Fixpoint cells_row (state : GameState) (grid : GridSpec) (r : Z) (cs : list Z)
    (cells_payload : list CellView) : result (list CellView) :=
  match cs with
  | [] => Ok cells_payload
  | c :: cs' =>
      v ← cell_view state grid r c;
      cells_row state grid r cs' (cells_payload ++ [v])
  end.

Fixpoint cells_rows (state : GameState) (grid : GridSpec) (rs : list Z)
    (cells_payload : list CellView) : result (list CellView) :=
  match rs with
  | [] => Ok cells_payload
  | r :: rs' =>
      cells_payload' ← cells_row state grid r (range (size grid)) cells_payload;
      cells_rows state grid rs' cells_payload'
  end.

Definition styling : list (string * pyval) :=
  [ ("outer_border_px", VInt 3);
    ("inner_border_px", VInt 1);
    ("outer_border_color", VStr "#222222");
    ("inner_border_color", VStr "#666666");
    ("black_cell_color", VStr "#000000");
    ("white_cell_color", VStr "#FFFFFF");
    ("active_cell_outline_px", VInt 3);
    ("active_slot_fill_color", VStr "#DCEBFF");
    ("given_cell_fill_color", VStr "#F2F2F2");
    ("ok_fill_color", VStr "#DFF6DD");
    ("bad_fill_color", VStr "#F8D7DA");
    ("bad_text_color", VStr "#7A1C1C") ].

Definition make_component_props (state : GameState) (grid : GridSpec)
    : result ComponentProps :=
  cells_payload ← cells_rows state grid (range (size grid)) [];
  let slots_payload :=
    (fun item : SlotId * list Cell => (item.1, cell_id <$> item.2)) <$> slots grid in
  let cell_to_slots_payload :=
    map_fold (fun cell slots acc => <[cell_id cell := slots]> acc) ∅ (cell_to_slots grid) in
  Ok (mkComponentProps "crosswordgridprops.v1"
        (mkGridView (size grid) cells_payload styling slots_payload cell_to_slots_payload
           SLOT_ORDER)
        (mkFocusView (cell_id (active_cell state)) (active_slot state) (orientation state))
        (mkBehaviorView true false true true)
        (mkSyncView (last_client_seq state) (puzzle_id state) (state_id state))).

End UiAdapters.

Import UiAdapters.

(** ** app.py: the block of [main] that takes an event of the grid
    component *)

Module App.

(** The value [event.get("payload", {}) or {}]: an object, which an
    absent key and any falsy value give empty, or another value that is
    truthy (a string or a list that is not empty, a number that is not
    zero, true), which has no [get]. *)
Inductive payload_value : Type :=
  | PayloadDict (d : gmap string pyval)
  | PayloadOther.

(** The event dict the component posts. A key that is absent is [None]. *)
Record ComponentEvent : Type := mkComponentEvent {
  ce_schema_version : option pyval;
  ce_event_id : option pyval;
  ce_type : option pyval;
  ce_payload : payload_value
}.

(** The part of [st.session_state] the block reads and writes. *)
Record Session : Type := mkSession {
  last_event_id : option pyval;
  game_state : GameState
}.

(** A value used as a condition. *)
Definition truth_value (v : pyval) : bool :=
  match v with
  | VNone => false
  | VBool b => b
  | VInt z => negb (z =? 0)
  | VStr s => negb (bool_decide (s = ""))
  end.

(** [a == b]: a bool compares as the integer 0 or 1. *)
Definition py_eqb (a b : pyval) : bool :=
  match a, b with
  | VNone, VNone => true
  | VStr x, VStr y => bool_decide (x = y)
  | VNone, _ | _, VNone | VStr _, _ | _, VStr _ => false
  | _, _ => bool_decide (int_of a = int_of b)
  end.

(** [x != y] where an absent value is [None]. *)
Definition differs (x y : option pyval) : bool :=
  negb (py_eqb (default VNone x) (default VNone y)).

(** The block, as a function of the session: it returns the session it
    leaves and the exception that escapes it, if any ([last_event_id] is
    written before the payload is read and [reduce] is called). *)
Definition on_component_event (session : Session) (event : option ComponentEvent)
    (grid_spec : GridSpec) (truth : TruthMap) : Session * option exn :=
  match event with
  | None => (session, None)
  | Some event =>
      if negb (py_eqb (default VNone (ce_schema_version event)) (VStr "crosswordgridevent.v1"))
      then (session, None)
      else
        let ev_id := ce_event_id event in
        if truth_value (default VNone ev_id) && differs ev_id (last_event_id session) then
          let session := mkSession ev_id (game_state session) in
          let etype := match ce_type event with Some v => str_of v | None => "" end in
          match ce_payload event with
          | PayloadOther => (session, Some AttributeError)
          | PayloadDict payload =>
              let ev_state_id := payload !! "state_id" in
              let cur_state_id := Some (VStr (state_id (game_state session))) in
              if negb (py_eqb (default VNone ev_state_id) VNone)
                 && negb (py_eqb (default VNone cur_state_id) VNone)
                 && differs ev_state_id cur_state_id
              then (session, None)
              else
                match reduce (game_state session) (mkGridEvent etype payload)
                        grid_spec truth with
                | Ok game_state => (mkSession (last_event_id session) game_state, None)
                | Raise e => (session, Some e)
                end
          end
        else (session, None)
  end.

End App.

Import App.

(** ** puzzle_io.py: validation of a puzzle file *)

Module PuzzleFile.

Definition ALLOWED_SLOTS : list SlotId := [h1; h2; v1; v2; hw].

(** An object among the values of ["entries"]: the three keys
    [load_puzzle] reads, each absent ([None]) or present with a value, of
    which the code takes the [str] only: a scalar, or, for another value,
    the string [str] makes of it. *)
Record RawEntry : Type := mkRawEntry {
  raw_clue : option pyval;
  raw_answer : option pyval;
  raw_initial : option pyval
}.

(** The value [entries_raw[sid] or {}]: an object, which null and any
    other falsy value give with no key, or another value that is truthy
    (a string or a list that is not empty, a number that is not zero,
    true), which has no [get]. *)
Inductive entry_value : Type :=
  | EntryDict (e : RawEntry)
  | EntryOther.

(** The value [raw.get("entries", {}) or {}]: an object, read at the
    five slot names ([None] for a name that is not a key), which an
    absent key and any falsy value give empty; a list or a string that is
    not empty, of which [in] tells the slot names it holds and which no
    string indexes; or a number that is not zero or true, which [in]
    refuses. *)
Inductive entries_value : Type :=
  | EntriesDict (entries_raw : SlotId → option entry_value)
  | EntriesSeq (holds : SlotId → bool)
  | EntriesAtom.

(** The value [raw.get("meta", {}) or {}]: an object, of which [Meta]
    is the view the engine reads and which an absent key and any falsy
    value give empty, or another value that is truthy. [load_puzzle]
    returns either unchecked. *)
Inductive meta_value : Type :=
  | MetaDict (m : Meta)
  | MetaOther.

(** A JSON object at the top of a puzzle file. *)
Record RawPuzzle : Type := mkRawPuzzle {
  raw_schema_version : option pyval;
  raw_meta : meta_value;
  raw_entries : entries_value
}.

(** The parsed content of a puzzle file, [raw] in [load_puzzle]: an
    object, or another value, which has no [get]. *)
Inductive RawFile : Type :=
  | FileObject (r : RawPuzzle)
  | FileOther.

(** The [Puzzle] that [load_puzzle] builds. [Puzzle.meta] is declared a
    dict, but [load_puzzle] stores the value it finds. *)
Record LoadedPuzzle : Type := mkLoadedPuzzle {
  loaded_schema_version : string;
  loaded_meta : meta_value;
  loaded_entries : list (SlotId * Entry);
  loaded_filename : string
}.

(** The puzzle as the engine types it, when the meta is a dict. *)
Definition as_puzzle (l : LoadedPuzzle) : option Puzzle :=
  match loaded_meta l with
  | MetaDict m =>
      Some (mkPuzzle (loaded_schema_version l) m (loaded_entries l) (loaded_filename l))
  | MetaOther => None
  end.

(** [str(d.get(key, ""))] for a key of a JSON object. *)
Definition field_str (v : option pyval) : string :=
  match v with
  | Some v => str_of v
  | None => ""
  end.

(** [d[k] = v] on a dict that keeps insertion order. *)
Fixpoint dict_set {K V : Type} `{EqDecision K} (d : list (K * V)) (k : K) (v : V)
    : list (K * V) :=
  match d with
  | [] => [(k, v)]
  | (k', v') :: d' =>
      if decide (k' = k) then (k, v) :: d' else (k', v') :: dict_set d' k v
  end.

(** [os.path.basename(path)]. *)
Definition basename (path : string) : string :=
  default "" (last (split "/" path)).

(** ["".join(ch for ch in s.upper().strip())]. *)
Definition _norm_letters (s : string) : string := strip (upper s).

(** [PuzzleValidationError], a subclass of [ValueError], is [ValueError]
    here: the modelled code raises no other [ValueError]. *)
Fixpoint _validate_letters_only (s : string) (allow_dot : bool) : result unit :=
  match s with
  | EmptyString => Ok tt
  | String ch s' =>
      if str_leb "A" (String ch EmptyString) && str_leb (String ch EmptyString) "Z"
      then _validate_letters_only s' allow_dot
      else if allow_dot && bool_decide (ch = "."%char)
      then _validate_letters_only s' allow_dot
      else Raise ValueError
  end.

(** The body of the loop of [load_puzzle] over [ALLOWED_SLOTS]. *)
Definition load_entry (grid : GridSpec) (entries_raw : SlotId → option entry_value)
    (sid : SlotId) (entries : list (SlotId * Entry)) : result (list (SlotId * Entry)) :=
  match entries_raw sid with
  | None => Raise KeyError
  | Some EntryOther => Raise AttributeError
  | Some (EntryDict e) =>
      let clue := strip (field_str (raw_clue e)) in
      if bool_decide (clue = "") then Raise ValueError
      else
        let answer := _norm_letters (field_str (raw_answer e)) in
        if bool_decide (answer = "") then Raise ValueError
        else
          _ ← _validate_letters_only answer false;
          required_len ← dict_get (slot_lengths grid) sid;
          if negb (len answer =? required_len) then Raise ValueError
          else
            let initial := strip (field_str (raw_initial e)) in
            Ok (dict_set entries sid (mkEntry clue answer initial))
  end.

Fixpoint load_entries (grid : GridSpec) (entries_raw : SlotId → option entry_value)
    (sids : list SlotId) (entries : list (SlotId * Entry)) : result (list (SlotId * Entry)) :=
  match sids with
  | [] => Ok entries
  | sid :: sids' =>
      entries' ← load_entry grid entries_raw sid entries;
      load_entries grid entries_raw sids' entries'
  end.

(** The cross-consistency loops: the projection of the answers onto the
    cells, refusing a second letter for a cell. *)
Fixpoint cross_cells (cells : list Cell) (answer : string) (truth : gmap Cell string)
    : result (gmap Cell string) :=
  match cells with
  | [] => Ok truth
  | cell :: cells' =>
      match answer with
      | EmptyString => Raise IndexError
      | String a answer' =>
          let ch := String a EmptyString in
          match truth !! cell with
          | Some old =>
              if negb (bool_decide (old = ch)) then Raise ValueError
              else cross_cells cells' answer' (<[cell := ch]> truth)
          | None => cross_cells cells' answer' (<[cell := ch]> truth)
          end
      end
  end.

Fixpoint cross_entries (grid : GridSpec) (items : list (SlotId * Entry))
    (truth : gmap Cell string) : result (gmap Cell string) :=
  match items with
  | [] => Ok truth
  | (sid, entry) :: items' =>
      cells ← dict_get (slots grid) sid;
      truth' ← cross_cells cells (answer entry) truth;
      cross_entries grid items' truth'
  end.

(** The coverage loops. *)
Fixpoint covered_row (grid : GridSpec) (truth : gmap Cell string) (r : Z) (cs : list Z)
    : result unit :=
  match cs with
  | [] => Ok tt
  | c :: cs' =>
      p ← mask_at grid r c;
      if p && negb (bool_decide (is_Some (truth !! (r, c)))) then Raise ValueError
      else covered_row grid truth r cs'
  end.

Fixpoint covered_rows (grid : GridSpec) (truth : gmap Cell string) (rs : list Z)
    : result unit :=
  match rs with
  | [] => Ok tt
  | r :: rs' =>
      _ ← covered_row grid truth r (range (size grid));
      covered_rows grid truth rs'
  end.

(** [load_puzzle] from the parsed JSON on: opening and parsing the file
    are outside. *)
Definition load_puzzle (raw : RawFile) (path : string) (grid : GridSpec)
    : result LoadedPuzzle :=
  match raw with
  | FileOther => Raise AttributeError
  | FileObject raw =>
      let schema_version := strip (field_str (raw_schema_version raw)) in
      if negb (bool_decide (schema_version = "puzzlefile.v1")) then Raise ValueError
      else
        let meta := raw_meta raw in
        match raw_entries raw with
        | EntriesAtom => Raise TypeError
        | EntriesSeq holds =>
            let missing := filter (fun sid => holds sid = false) ALLOWED_SLOTS in
            if negb (bool_decide (missing = [])) then Raise ValueError
            else Raise TypeError
        | EntriesDict entries_raw =>
            let missing := filter (fun sid => entries_raw sid = None) ALLOWED_SLOTS in
            if negb (bool_decide (missing = [])) then Raise ValueError
            else
              entries ← load_entries grid entries_raw ALLOWED_SLOTS [];
              truth ← cross_entries grid entries ∅;
              _ ← covered_rows grid truth (range (size grid));
              Ok (mkLoadedPuzzle schema_version meta entries (basename path))
        end
  end.

End PuzzleFile.

Import PuzzleFile.

(** ** Vocabulary of the specification *)

(** The caller's loop: events are applied one after the other, each to
    the state the previous one returned. *)
Fixpoint reduce_events (state : GameState) (events : list GridEvent)
    (grid : GridSpec) (truth : TruthMap) : result GameState :=
  match events with
  | [] => Ok state
  | e :: es => s' ← reduce state e grid truth; reduce_events s' es grid truth
  end.

(** The branch of [reduce] on [event.type], before the sequence number
    is merged. *)
Definition dispatch (state : GameState) (event : GridEvent) (grid : GridSpec)
    (truth : TruthMap) : result GameState :=
  let payload := payload event in
  let t := type event in
  if decide (t = "CLICK_CELL") then _on_click_cell state payload grid
  else if decide (t = "TYPE_CHAR") then _on_type_char state payload grid
  else if decide (t = "BACKSPACE") then _on_backspace state grid
  else if decide (t = "ARROW") then _on_arrow state payload grid
  else if decide (t = "TAB") then _on_tab state grid true
  else if decide (t = "SHIFT_TAB") then _on_tab state grid false
  else if decide (t = "TOGGLE_ORIENTATION") then Ok (_on_toggle_orientation state grid)
  else if decide (t = "REQUEST_CHECK_WORD") then check_word state grid truth
  else if decide (t = "REQUEST_CHECK_PUZZLE") then Ok (check_puzzle state grid truth)
  else Ok (set_last_action ("ignored:" +:+ t) state).

(** The sequence-number merge: the larger of the counter and the
    event's number, when the event carries one that [int] accepts. *)
Definition merged_seq (counter : Z) (payload : gmap string pyval) : Z :=
  match client_seq_int payload with
  | Some n => Z.max counter n
  | None => counter
  end.

(** A state with a new tag and the sequence number of the event merged
    in: what a no-op makes of its input. *)
Definition stamp (tag : string) (event : GridEvent) (state : GameState) : GameState :=
  set_last_client_seq (merged_seq (last_client_seq state) (payload event))
    (set_last_action tag state).

(** A string that is exactly one letter, in either case. *)
Definition single_letter (s : string) : Prop :=
  ∃ a, s = String a EmptyString ∧ (65 <= code a <= 90 ∨ 97 <= code a <= 122).

(** A string that is exactly one capital letter A-Z. *)
Definition single_capital (s : string) : Prop :=
  ∃ a, s = String a EmptyString ∧ 65 <= code a <= 90.

Definition directions : list string := ["LEFT"; "RIGHT"; "UP"; "DOWN"].

(** An event the reducer turns down, with the tag it leaves: an
    unrecognized type, or a recognized one with a malformed payload. *)
Inductive rejected : GridEvent → string → Prop :=
  | rejected_type e :
      type e ∉ event_types →
      rejected e ("ignored:" +:+ type e)
  | rejected_cell_id e :
      type e = "CLICK_CELL" →
      parse_cell_id (get_str (payload e) "cell_id") = None →
      rejected e "click:bad_cell_id"
  | rejected_char e :
      type e = "TYPE_CHAR" →
      ¬ single_capital (upper (get_str (payload e) "char")) →
      rejected e "type:ignored"
  | rejected_dir e :
      type e = "ARROW" →
      upper (get_str (payload e) "dir") ∉ directions →
      rejected e "arrow:ignored".

(** A tag of the form "ignored:<reason>". *)
Definition ignored_tag (tag : string) : Prop :=
  ∃ reason, tag = "ignored:" +:+ reason.

(** A cell lies on a slot. *)
Definition in_slot (grid : GridSpec) (sid : SlotId) (cell : Cell) : Prop :=
  ∃ cells, dict_get (slots grid) sid = Ok cells ∧ cell ∈ cells.

Definition playable (grid : GridSpec) (cell : Cell) : Prop :=
  is_playable grid cell = Ok true.

(** The invariants of the data model on a game state. *)
Record state_inv (grid : GridSpec) (s : GameState) : Prop := mk_state_inv {
  inv_letters : ∀ cell, is_Some (grid_letters s !! cell) ↔ playable grid cell;
  inv_marks : ∀ cell, is_Some (check_marks s !! cell) ↔ playable grid cell;
  inv_given : ∀ cell, cell ∈ given_cells s → playable grid cell;
  inv_active : in_slot grid (active_slot s) (active_cell s)
}.

(** A truth map that knows playable cells only. *)
Definition truth_within (grid : GridSpec) (t : TruthMap) : Prop :=
  ∀ cell, is_Some (truth t !! cell) → playable grid cell.

(** The states of one lineage: the initial state of a puzzle and what
    the reducer makes of it. *)
Inductive reachable (grid : GridSpec) (t : TruthMap) : GameState → Prop :=
  | reachable_init puzzle fresh s :
      init_state puzzle grid fresh = Ok s →
      reachable grid t s
  | reachable_step s e s' :
      reachable grid t s →
      reduce s e grid t = Ok s' →
      reachable grid t s'.

(** What no event changes, the merge of the sequence number apart. *)
Definition same_lineage (s out : GameState) : Prop :=
  puzzle_id out = puzzle_id s ∧ state_id out = state_id s
  ∧ given_cells out = given_cells s ∧ last_client_seq out = last_client_seq s.

(** The playable cells of the fixed geometry: inside the 5×5 grid, on
    row 1 or 3 or on column 1 or 3. *)
Definition playable5 (cell : Cell) : bool :=
  let '(r, c) := cell in
  bool_decide (0 <= r < 5 ∧ 0 <= c < 5)
  && (bool_decide (r ∈ [1; 3]) || bool_decide (c ∈ [1; 3])).

(** The sixteen playable cells of the fixed geometry, in row-major order. *)
Definition playable_cells5 : list Cell :=
  [ (0,1); (0,3); (1,0); (1,1); (1,2); (1,3); (1,4); (2,1); (2,3);
    (3,0); (3,1); (3,2); (3,3); (3,4); (4,1); (4,3) ].

(** Row-major scan order on cells. *)
Definition row_major_le (a b : Cell) : Prop :=
  a.1 < b.1 ∨ (a.1 = b.1 ∧ a.2 <= b.2).

(** The first playable cell of a row-major scan. *)
Definition first_in_row_major (grid : GridSpec) (cell : Cell) : Prop :=
  playable grid cell ∧ ∀ other, playable grid other → row_major_le cell other.

(** What the [meta.givens] loop maintains: the letter map keeps its
    domain [D], the given cells lie in it and hold one uppercase letter
    each, every other cell is empty. *)
Definition seeded_ok (D : gset Cell) (acc : gmap Cell string * gset Cell) : Prop :=
  dom acc.1 = D
  ∧ (∀ cell, cell ∈ acc.2 →
       ∃ a, acc.1 !! cell = Some (String a EmptyString) ∧ 65 <= code a <= 90)
  ∧ (∀ cell, cell ∈ D → cell ∉ acc.2 → acc.1 !! cell = Some "").

(** A cell that lies on an across slot and on a down slot. *)
Definition crossing (grid : GridSpec) (cell : Cell) : Prop :=
  (in_slot grid h1 cell ∨ in_slot grid h2 cell)
  ∧ (in_slot grid v1 cell ∨ in_slot grid v2 cell).

(** The direction of a slot: across, down, or none for the hidden word. *)
Definition slot_orientation (sid : SlotId) : option Orientation :=
  match sid with
  | h1 | h2 => Some OrientH
  | v1 | v2 => Some OrientV
  | hw => None
  end.

(** The four directions of ARROW, each with its unit step and the
    orientation it implies: LEFT and RIGHT across, UP and DOWN down. *)
Definition arrow_table : list (string * (Z * Z * Orientation)) :=
  [ ("LEFT", (0, -1, OrientH)); ("RIGHT", (0, 1, OrientH));
    ("UP", (-1, 0, OrientV)); ("DOWN", (1, 0, OrientV)) ].

(** The cell [k] steps of [(dr, dc)] away from [cell]. *)
Definition ray (cell : Cell) (dr dc k : Z) : Cell :=
  (cell.1 + k * dr, cell.2 + k * dc).

Definition inside (grid : GridSpec) (cell : Cell) : Prop :=
  0 <= cell.1 < size grid ∧ 0 <= cell.2 < size grid.

(** The first [k - 1] steps stay inside the grid, on cells that are not
    playable. *)
Definition blank_before (grid : GridSpec) (cell : Cell) (dr dc k : Z) : Prop :=
  ∀ j, 1 <= j < k →
    inside grid (ray cell dr dc j) ∧ is_playable grid (ray cell dr dc j) = Ok false.

(** Stepping from [cell] crosses the boundary before any playable cell. *)
Definition leaves_grid (grid : GridSpec) (cell : Cell) (dr dc : Z) : Prop :=
  ∃ k, 1 <= k ∧ blank_before grid cell dr dc k ∧ ¬ inside grid (ray cell dr dc k).

(** Stepping from [cell] reaches [target], the first playable cell on
    the way. *)
Definition finds (grid : GridSpec) (cell : Cell) (dr dc : Z) (target : Cell) : Prop :=
  ∃ k, 1 <= k ∧ blank_before grid cell dr dc k
       ∧ inside grid (ray cell dr dc k)
       ∧ ray cell dr dc k = target ∧ playable grid target.

(** An edit event. *)
Definition is_edit (e : GridEvent) : Prop :=
  type e = "TYPE_CHAR" ∨ type e = "BACKSPACE".

(** A small puzzle and its first state, for examples. *)
Definition example_puzzle : Puzzle :=
  mkPuzzle "puzzlefile.v1"
    (mkMeta (Some (VStr "demo"))
       (Some [GivenDict {["cell" := VStr "1,0"; "letter" := VStr "l"]}]))
    [ (h1, mkEntry "c1" "LATER" ""); (h2, mkEntry "c2" "SNOOP" "");
      (v1, mkEntry "c3" "RAINY" ""); (v2, mkEntry "c4" "LEMON" "");
      (hw, mkEntry "c5" "AEON" "") ]
    "demo.json".

Definition example_state : GameState :=
  mkGameState "demo" "0" (<[(1, 0) := "L"]> (gset_to_gmap "" (list_to_set
      [(0,1);(0,3);(1,0);(1,1);(1,2);(1,3);(1,4);(2,1);(2,3);
       (3,0);(3,1);(3,2);(3,3);(3,4);(4,1);(4,3)])))
    {[(1, 0)]} (0, 1) v1 OrientH
    (gset_to_gmap none (list_to_set
      [(0,1);(0,3);(1,0);(1,1);(1,2);(1,3);(1,4);(2,1);(2,3);
       (3,0);(3,1);(3,2);(3,3);(3,4);(4,1);(4,3)]))
    "init" 0.

Definition example_truth : TruthMap :=
  match build_truth_map example_puzzle build_grid_spec with
  | Ok t => t
  | Raise _ => mkTruthMap ∅
  end.

Definition example_edits : list GridEvent :=
  [ mkGridEvent "TYPE_CHAR" {["char" := VStr "r"]};
    mkGridEvent "TYPE_CHAR" {["char" := VStr "a"]};
    mkGridEvent "BACKSPACE" ∅;
    mkGridEvent "BACKSPACE" ∅ ].

(** The example state after "R" then "A" were typed down slot v1: the
    active cell (2, 1) is empty, the cell before it holds "A". *)
Definition example_typed : GameState :=
  set_active_cell (2, 1)
    (set_last_action "type"
       (set_grid_letters (<[(1, 1) := "A"]> (<[(0, 1) := "R"]> (grid_letters example_state)))
          example_state)).

(** The example state after ARROW down: the active cell is the
    crossing (1, 1), the orientation is down. *)
Definition example_crossing : GameState :=
  set_last_action "arrow:down" (set_orientation OrientV (set_active_cell (1, 1) example_state)).

(** ** Vocabulary of the further properties *)

(** The events that move the focus, and those that check answers. *)
Definition navigation_types : list string :=
  ["CLICK_CELL"; "ARROW"; "TAB"; "SHIFT_TAB"; "TOGGLE_ORIENTATION"].

Definition check_types : list string :=
  ["REQUEST_CHECK_WORD"; "REQUEST_CHECK_PUZZLE"].

(** The slots a cell is indexed under. *)
Definition memberships (grid : GridSpec) (cell : Cell) : list SlotId :=
  default [] (cell_to_slots grid !! cell).

(** The slot after and the slot before a slot in [SLOT_ORDER], around
    the cycle. *)
Definition next_slot (sid : SlotId) : SlotId :=
  match sid with h1 => h2 | h2 => v1 | v1 => v2 | v2 => hw | hw => h1 end.

Definition prev_slot (sid : SlotId) : SlotId :=
  match sid with h1 => hw | h2 => h1 | v1 => h2 | v2 => v1 | hw => v2 end.

(** The first cell of a slot. *)
Definition first_cell_of (grid : GridSpec) (sid : SlotId) (cell : Cell) : Prop :=
  ∃ cells, dict_get (slots grid) sid = Ok cells ∧ cells !! 0%nat = Some cell.

(** Every character of a string satisfies [P]. *)
Fixpoint string_forall (P : ascii → Prop) (s : string) : Prop :=
  match s with
  | EmptyString => True
  | String a s' => P a ∧ string_forall P s'
  end.

(** A character of the decimal writing of an integer. *)
Definition numeral_char (a : ascii) : Prop := is_digit a = true ∨ a = "-"%char.

(** An event the block takes up: the right schema version and an event
    identifier that is truthy and is not the last one recorded. *)
Definition accepted (session : Session) (event : ComponentEvent) : Prop :=
  py_eqb (default VNone (ce_schema_version event)) (VStr "crosswordgridevent.v1") = true
  ∧ truth_value (default VNone (ce_event_id event)) = true
  ∧ differs (ce_event_id event) (last_event_id session) = true.

(** A cell view that shows nothing: no letter, not given, no highlight. *)
Definition blank (v : CellView) : Prop :=
  cv_letter v = "" ∧ cv_is_given v = false
  ∧ cv_highlight v = mkHighlight false false none.

(** What a cell view shows of a state: the view of [cell] carries its
    identifier and coordinates and tells the state's letter, given flag,
    focus and check mark of that cell. *)
Definition shows (grid : GridSpec) (s : GameState) (cell : Cell) (v : CellView) : Prop :=
  cv_id v = cell_id cell ∧ cv_r v = cell.1 ∧ cv_c v = cell.2
  ∧ (cv_is_playable v = true ↔ playable grid cell)
  ∧ cv_is_black v = negb (cv_is_playable v)
  ∧ cv_letter v = default "" (grid_letters s !! cell)
  ∧ (cv_is_given v = true ↔ cell ∈ given_cells s)
  ∧ (hl_active_cell (cv_highlight v) = true ↔ cell = active_cell s)
  ∧ (hl_active_slot (cv_highlight v) = true ↔ in_slot grid (active_slot s) cell)
  ∧ hl_check_state (cv_highlight v) = default none (check_marks s !! cell).

(** A capital letter of the English alphabet. *)
Definition capital (a : ascii) : Prop := 65 <= code a <= 90.

(** What [load_puzzle] has checked of an entry it keeps. *)
Definition well_formed_entry (grid : GridSpec) (sid : SlotId) (e : Entry) : Prop :=
  clue e ≠ "" ∧ answer e ≠ "" ∧ string_forall capital (answer e)
  ∧ dict_get (slot_lengths grid) sid = Ok (len (answer e)).

(** The truth map has, at every cell of every slot, the letter of that
    slot's answer at the cell's position. *)
Definition agrees (grid : GridSpec) (t : gmap Cell string) (items : list (SlotId * Entry))
    : Prop :=
  ∀ sid e cells (i : nat) cell,
    (sid, e) ∈ items → dict_get (slots grid) sid = Ok cells → cells !! i = Some cell →
    ∃ a, String.get i (answer e) = Some a ∧ t !! cell = Some (String a EmptyString).

(** The answer of a slot as [load_puzzle] normalises it. *)
Definition normal_answer (entries_raw : SlotId → option entry_value) (sid : SlotId)
    : string :=
  match entries_raw sid with
  | Some (EntryDict e) => _norm_letters (field_str (raw_answer e))
  | _ => ""
  end.

(** The conditions [load_puzzle] checks, said of the file's content. *)
Definition acceptable (raw : RawFile) (grid : GridSpec) : Prop :=
  ∃ r entries_raw,
    raw = FileObject r ∧ raw_entries r = EntriesDict entries_raw
    ∧ strip (field_str (raw_schema_version r)) = "puzzlefile.v1"
    ∧ (∀ sid, ∃ e, entries_raw sid = Some (EntryDict e)
                   ∧ strip (field_str (raw_clue e)) ≠ ""
                   ∧ normal_answer entries_raw sid ≠ ""
                   ∧ string_forall capital (normal_answer entries_raw sid)
                   ∧ dict_get (slot_lengths grid) sid
                     = Ok (len (normal_answer entries_raw sid)))
    ∧ (∀ sid sid' cells cells' (i j : nat) cell,
         dict_get (slots grid) sid = Ok cells → dict_get (slots grid) sid' = Ok cells' →
         cells !! i = Some cell → cells' !! j = Some cell →
         String.get i (normal_answer entries_raw sid)
         = String.get j (normal_answer entries_raw sid')).

(** A file with the shape of a puzzle file: an object whose entries are
    an object of objects. *)
Definition well_shaped (raw : RawFile) : Prop :=
  ∃ r entries_raw,
    raw = FileObject r ∧ raw_entries r = EntriesDict entries_raw
    ∧ ∀ sid, entries_raw sid ≠ Some EntryOther.

(** The content of a puzzle file that loads as [example_puzzle]. *)
Definition example_raw : RawFile :=
  FileObject
    (mkRawPuzzle (Some (VStr "puzzlefile.v1"))
       (MetaDict
          (mkMeta (Some (VStr "demo"))
             (Some [GivenDict {["cell" := VStr "1,0"; "letter" := VStr "l"]}])))
       (EntriesDict
          (fun sid =>
             Some (EntryDict
                     match sid with
                     | h1 => mkRawEntry (Some (VStr "c1")) (Some (VStr " later")) None
                     | h2 => mkRawEntry (Some (VStr "c2")) (Some (VStr "Snoop")) None
                     | v1 => mkRawEntry (Some (VStr "c3")) (Some (VStr "RAINY")) None
                     | v2 => mkRawEntry (Some (VStr "c4")) (Some (VStr "lemon")) None
                     | hw => mkRawEntry (Some (VStr "c5")) (Some (VStr "aeon")) None
                     end)))).

Definition example_loaded : LoadedPuzzle :=
  mkLoadedPuzzle (schema_version example_puzzle) (MetaDict (meta example_puzzle))
    (entries example_puzzle) (filename example_puzzle).

(** ** Properties *)

Example example_state_init :
  init_state example_puzzle build_grid_spec "0" = Ok example_state.
Proof. vm_compute. reflexivity. Qed.

Example example_truth_at_crossing :
  truth example_truth !! (3, 3) = Some "O".
Proof. vm_compute. reflexivity. Qed.

(** *** Characters and strings *)

Lemma code_range a : 0 <= code a < 256.
Proof.
  unfold code. pose proof (N_ascii_bounded a). lia.
Qed.

Lemma code_char_of_code z : 0 <= z < 256 → code (char_of_code z) = z.
Proof.
  intros Hz. unfold code, char_of_code.
  rewrite N_ascii_embedding by lia. lia.
Qed.

Lemma code_inj a b : code a = code b → a = b.
Proof.
  unfold code. intros Heq.
  rewrite <- (ascii_N_embedding a), <- (ascii_N_embedding b).
  f_equal. lia.
Qed.

Lemma upper_char_code a :
  code a < 128 →
  code (upper_char a) = if (97 <=? code a) && (code a <=? 122) then code a - 32 else code a.
Proof.
  intros Ha. unfold upper_char. cbv zeta.
  destruct (Z.leb_spec 224 (code a)); [lia|]. rewrite orb_false_r.
  destruct ((97 <=? code a) && (code a <=? 122)) eqn:E; [|done].
  apply andb_true_iff in E as [?%Z.leb_le ?%Z.leb_le].
  apply code_char_of_code. lia.
Qed.

Lemma upper_single a :
  code a < 128 → upper (String a EmptyString) = String (upper_char a) EmptyString.
Proof.
  intros Ha. cbn [upper]. destruct (Z.eqb_spec (code a) 223); [lia|done].
Qed.

Lemma str_leb_single a b :
  str_leb (String a EmptyString) (String b EmptyString) = (code a <=? code b).
Proof.
  cbn [str_leb].
  destruct (Z.ltb_spec (code a) (code b)), (Z.ltb_spec (code b) (code a)),
    (Z.leb_spec (code a) (code b)); try lia; reflexivity.
Qed.

(** The test of [_on_type_char] lets through single capital letters and
    nothing else. *)
Lemma type_char_test u :
  negb (len u =? 1) || negb (str_leb "A" u && str_leb u "Z") = false
  ↔ single_capital u.
Proof.
  destruct u as [|a [|b r]].
  - split; [discriminate|]. intros (a & Heq & _). discriminate.
  - cbn [len String.length]. rewrite !str_leb_single.
    change (code "A") with 65. change (code "Z") with 90. split.
    + intros Ht. exists a. split; [done|].
      apply orb_false_iff in Ht as [_ Ht]. apply negb_false_iff in Ht.
      apply andb_true_iff in Ht as [?%Z.leb_le ?%Z.leb_le]. lia.
    + intros (a' & [= <-] & Ha). simpl.
      apply negb_false_iff, andb_true_iff. split; apply Z.leb_le; lia.
  - split.
    + intros Ht. apply orb_false_iff in Ht as [Ht _].
      apply negb_false_iff, Z.eqb_eq in Ht.
      unfold len in Ht. cbn [String.length] in Ht. lia.
    + intros (a' & Heq & _). discriminate.
Qed.

Lemma single_letter_upper ch :
  single_letter ch → ∃ a, upper ch = String a EmptyString ∧ 65 <= code a <= 90.
Proof.
  intros (a & -> & Ha). exists (upper_char a).
  rewrite upper_single, upper_char_code by lia. split; [done|].
  destruct ((97 <=? code a) && (code a <=? 122)) eqn:E.
  - apply andb_true_iff in E as [?%Z.leb_le ?%Z.leb_le]. lia.
  - apply andb_false_iff in E as [?%Z.leb_gt | ?%Z.leb_gt]; lia.
Qed.

(** *** Decimal numerals *)

Lemma pretty_N_char_digit d :
  (d < 10)%N →
  is_digit (pretty_N_char d) = true ∧ code (pretty_N_char d) - 48 = Z.of_N d.
Proof.
  intros Hd.
  assert (d = 0 ∨ d = 1 ∨ d = 2 ∨ d = 3 ∨ d = 4 ∨ d = 5 ∨ d = 6 ∨ d = 7 ∨ d = 8 ∨ d = 9)%N
    as Hcases by lia.
  destruct Hcases as [->|[->|[->|[->|[->|[->|[->|[->|[->| ->]]]]]]]]]; by split.
Qed.

Lemma digits_value_pretty_go x s b :
  (0 < x)%N → digits_value 0 b (pretty_N_go x s) = digits_value (Z.of_N x) true s.
Proof.
  revert s b. induction (N.lt_wf_0 x) as [x _ IH]. intros s b Hx.
  rewrite pretty_N_go_step by done.
  destruct (pretty_N_char_digit (x `mod` 10)%N) as [Hdigit Hcode];
    [by apply N.mod_lt|].
  assert (Z.of_N x = 10 * Z.of_N (x `div` 10) + Z.of_N (x `mod` 10)) as Hx10.
  { rewrite (N.div_mod x 10) at 1 by done. lia. }
  destruct (decide (x `div` 10 = 0)%N) as [Hz|Hnz].
  - rewrite Hz, pretty_N_go_0. cbn [digits_value]. rewrite Hdigit, Hcode.
    f_equal. rewrite Hx10, Hz. lia.
  - rewrite IH; [|apply N.div_lt; lia|by apply N.neq_0_lt_0].
    cbn [digits_value]. rewrite Hdigit, Hcode. f_equal. by rewrite Hx10.
Qed.

Lemma pretty_go_chars (P : ascii → Prop) x s :
  (∀ d, (d < 10)%N → P (pretty_N_char d)) →
  string_forall P s → string_forall P (pretty_N_go x s).
Proof.
  intros HP. revert s. induction (N.lt_wf_0 x) as [x _ IH]. intros s Hs.
  destruct (decide (x = 0)%N) as [->|Hx]; [by rewrite pretty_N_go_0|].
  rewrite pretty_N_go_step by lia. apply IH; [apply N.div_lt; lia|].
  split; [|done]. apply HP. by apply N.mod_lt.
Qed.

Lemma pretty_go_head x s :
  (0 < x)%N → ∃ c rest, pretty_N_go x s = String c rest ∧ is_digit c = true.
Proof.
  revert s. induction (N.lt_wf_0 x) as [x _ IH]. intros s Hx.
  rewrite pretty_N_go_step by done.
  destruct (decide (x `div` 10 = 0)%N) as [Hz|Hnz].
  - rewrite Hz, pretty_N_go_0. eexists _, _. split; [done|].
    apply pretty_N_char_digit. by apply N.mod_lt.
  - apply IH; [apply N.div_lt; lia|by apply N.neq_0_lt_0].
Qed.

Lemma pretty_Z_chars (z : Z) : string_forall numeral_char (pretty z).
Proof.
  assert (∀ n, string_forall numeral_char (pretty_N_go n "")) as Hgo.
  { intros n. apply pretty_go_chars; [|done].
    intros d Hd. left. by apply pretty_N_char_digit. }
  destruct z as [|q|q]; unfold pretty, pretty_Z.
  - split; [by left|done].
  - apply Hgo.
  - split; [by right|]. apply Hgo.
Qed.

Lemma numeral_char_plain a : numeral_char a → is_space a = false ∧ a ≠ ","%char.
Proof.
  intros [Hd| ->]; [|by split].
  unfold is_digit in Hd. apply andb_true_iff in Hd as [?%Z.leb_le ?%Z.leb_le].
  split.
  - unfold is_space. cbn zeta.
    destruct (Z.leb_spec 9 (code a)), (Z.leb_spec (code a) 13), (Z.leb_spec 28 (code a)),
      (Z.leb_spec (code a) 32), (Z.eqb_spec (code a) 133), (Z.eqb_spec (code a) 160);
      cbn; try lia; done.
  - intros ->. change (code ",") with 44 in *. lia.
Qed.

Lemma rstrip_plain s : string_forall (fun a => is_space a = false) s → rstrip s = s.
Proof.
  induction s as [|a s IH]; [done|]. intros [Ha Hs]. cbn [rstrip].
  rewrite (IH Hs). destruct s; [by rewrite Ha|done].
Qed.

Lemma strip_plain s : string_forall (fun a => is_space a = false) s → strip s = s.
Proof.
  intros Hs. unfold strip.
  assert (lstrip s = s) as -> by (destruct s as [|a s]; [done|]; cbn; by rewrite (proj1 Hs)).
  by apply rstrip_plain.
Qed.

Lemma string_forall_impl (P Q : ascii → Prop) s :
  (∀ a, P a → Q a) → string_forall P s → string_forall Q s.
Proof. intros HPQ. induction s as [|a s IH]; [done|]. intros [? ?]. split; auto. Qed.

Lemma split_plain sep s : string_forall (fun a => a ≠ sep) s → split sep s = [s].
Proof.
  induction s as [|a s IH]; [done|]. intros [Ha Hs]. cbn [split].
  rewrite decide_False by done. by rewrite (IH Hs).
Qed.

Lemma split_app sep s1 s2 :
  string_forall (fun a => a ≠ sep) s1 →
  split sep (s1 +:+ String sep s2) = s1 :: split sep s2.
Proof.
  induction s1 as [|a s1 IH].
  - intros _. change ("" +:+ String sep s2) with (String sep s2). cbn [split].
    by rewrite decide_True.
  - intros [Ha Hs]. change (String a s1 +:+ String sep s2)
      with (String a (s1 +:+ String sep s2)).
    cbn [split]. rewrite decide_False by done. by rewrite (IH Hs).
Qed.

Lemma int_strip_plain s :
  string_forall (fun a => is_space a = false) s → int_rstrip (int_lstrip s) = s.
Proof.
  intros Hs.
  assert (string_forall (fun a => is_int_space a = false) s) as Hint.
  { eapply string_forall_impl; [|exact Hs]. intros a Ha. unfold is_int_space. by rewrite Ha. }
  clear Hs.
  assert (int_lstrip s = s) as ->
    by (destruct s as [|a s]; [done|]; cbn; by rewrite (proj1 Hint)).
  induction s as [|a s IH]; [done|]. destruct Hint as [Ha Hs]. cbn [int_rstrip].
  rewrite (IH Hs). destruct s; [by rewrite Ha|done].
Qed.

Lemma int_of_str_digit_head c t :
  is_digit c = true → int_rstrip (int_lstrip (String c t)) = String c t →
  int_of_str (String c t) = digits_value 0 false (String c t).
Proof.
  intros Hd Hs. unfold int_of_str. rewrite Hs.
  destruct c as [[] [] [] [] [] [] [] []];
    first [reflexivity | exfalso; vm_compute in Hd; discriminate Hd].
Qed.

Lemma int_of_str_pretty (z : Z) : int_of_str (pretty z) = Some z.
Proof.
  assert (int_rstrip (int_lstrip (pretty z)) = pretty z) as Hstrip.
  { apply int_strip_plain. eapply string_forall_impl; [|apply pretty_Z_chars].
    intros a Ha. by apply numeral_char_plain. }
  destruct z as [|q|q].
  - reflexivity.
  - unfold pretty, pretty_Z, pretty, pretty_positive, pretty, pretty_N in *.
    rewrite decide_False in * by done.
    destruct (pretty_go_head (N.pos q) "") as (c & rest & Heq & Hc); [lia|].
    rewrite Heq in Hstrip. rewrite Heq, (int_of_str_digit_head _ _ Hc Hstrip), <- Heq.
    rewrite digits_value_pretty_go by lia. reflexivity.
  - unfold int_of_str. rewrite Hstrip.
    unfold pretty, pretty_Z, pretty, pretty_positive, pretty, pretty_N.
    rewrite decide_False by done.
    change ("-" +:+ pretty_N_go (N.pos q) "") with (String "-" (pretty_N_go (N.pos q) "")).
    cbv iota beta. rewrite digits_value_pretty_go by lia. reflexivity.
Qed.

(** [int] skips the white space of [str.strip] but for the separators
    28 to 31, which it refuses; [str.strip] removes them. *)
Example int_refuses_separators :
  int_of_str (String "031" "5") = None
  ∧ int_of_str (String "009" (String "160" "5 ")) = Some 5
  ∧ strip (String "031" "5") = "5"
  ∧ parse_cell_id (String "028" "1,1") = None
  ∧ parse_cell_id " 1,1 " = Some (1, 1).
Proof. repeat split; vm_compute; reflexivity. Qed.

(** *** The result monad and list indexing *)

Lemma bind_Ok {A B} (m : result A) (k : A → result B) b :
  (m ≫= k) = Ok b ↔ ∃ a, m = Ok a ∧ k a = Ok b.
Proof.
  destruct m as [a|x]; cbn.
  - split; [eauto|]. by intros (? & [= ->] & ?).
  - split; [done|]. by intros (? & ? & ?).
Qed.

Ltac simplify_result :=
  repeat match goal with
  | H : Ok _ = Ok _ |- _ => injection H as H; try subst
  | H : Raise _ = Ok _ |- _ => discriminate H
  | H : (_ ≫= _) = Ok _ |- _ =>
      let a := fresh "a" in let Ha := fresh "Ha" in
      apply bind_Ok in H as (a & Ha & H)
  end.

Ltac bind_step := cbn [mbind result_bind bind].

Lemma Ok_inj {A} (a b : A) : Ok a = Ok b → a = b.
Proof. by intros [= ->]. Qed.

(** Names the state a handler returned, without unfolding it. *)
Ltac from_ok out :=
  let H := fresh "Hok" in intros H; apply Ok_inj in H; subst out.

Lemma list_get_Ok {A} (l : list A) i a :
  list_get l i = Ok a ↔ l !! Z.to_nat i = Some a.
Proof.
  unfold list_get. destruct (l !! Z.to_nat i); split; intros; simplify_eq; done.
Qed.

Lemma list_index_Some {A} `{EqDecision A} (x : A) l i :
  list_index x l = Some i → 0 <= i < Z.of_nat (length l) ∧ l !! Z.to_nat i = Some x.
Proof.
  revert i. induction l as [|y l IH]; intros i; cbn [list_index]; [done|].
  case_decide as Hyx.
  - intros [= <-]. subst. cbn. split; [lia|done].
  - destruct (list_index x l) as [j|]; [|done]. intros [= <-].
    destruct (IH j eq_refl) as [Hj Hl]. split; [cbn [length]; lia|].
    replace (Z.to_nat (Z.succ j)) with (S (Z.to_nat j)) by lia. done.
Qed.

Lemma list_index_elem {A} `{EqDecision A} (x : A) l :
  x ∈ l → is_Some (list_index x l).
Proof.
  induction 1 as [y l|y z l Hin IH]; cbn [list_index].
  - rewrite decide_True by done. eauto.
  - case_decide; [eauto|]. destruct IH as [j ->]. eauto.
Qed.

Lemma list_index_NoDup {A} `{EqDecision A} (x : A) l (k : nat) :
  NoDup l → l !! k = Some x → list_index x l = Some (Z.of_nat k).
Proof.
  intros Hnd Hk.
  destruct (list_index_elem x l) as [i Hi]; [by eapply list_elem_of_lookup_2|].
  destruct (list_index_Some _ _ _ Hi) as [Hr Hl].
  rewrite Hi. f_equal.
  pose proof (NoDup_lookup _ _ _ _ Hnd Hl Hk). lia.
Qed.

(** *** The shape of [reduce] *)

Lemma set_last_client_seq_same s : set_last_client_seq (last_client_seq s) s = s.
Proof. by destruct s. Qed.

Lemma reduce_dispatch s e g t :
  reduce s e g t =
  out ← dispatch s e g t;
  Ok (set_last_client_seq (merged_seq (last_client_seq out) (payload e)) out).
Proof.
  unfold reduce, dispatch, merged_seq.
  match goal with |- context [mbind _ ?m] => destruct m as [out|x] end; [|reflexivity].
  cbn. destruct (client_seq_int (payload e)) as [n|].
  - destruct (Z.gtb_spec n (last_client_seq out)).
    + by rewrite Z.max_r by lia.
    + rewrite Z.max_l by lia. by rewrite set_last_client_seq_same.
  - by rewrite set_last_client_seq_same.
Qed.

Ltac dispatch_on Hty :=
  unfold dispatch; rewrite Hty; repeat case_decide; done.

Lemma dispatch_click s e g t :
  type e = "CLICK_CELL" → dispatch s e g t = _on_click_cell s (payload e) g.
Proof. intros Hty. dispatch_on Hty. Qed.

Lemma dispatch_type_char s e g t :
  type e = "TYPE_CHAR" → dispatch s e g t = _on_type_char s (payload e) g.
Proof. intros Hty. dispatch_on Hty. Qed.

Lemma dispatch_backspace s e g t :
  type e = "BACKSPACE" → dispatch s e g t = _on_backspace s g.
Proof. intros Hty. dispatch_on Hty. Qed.

Lemma dispatch_arrow s e g t :
  type e = "ARROW" → dispatch s e g t = _on_arrow s (payload e) g.
Proof. intros Hty. dispatch_on Hty. Qed.

Lemma dispatch_tab s e g t :
  type e = "TAB" → dispatch s e g t = _on_tab s g true.
Proof. intros Hty. dispatch_on Hty. Qed.

Lemma dispatch_shift_tab s e g t :
  type e = "SHIFT_TAB" → dispatch s e g t = _on_tab s g false.
Proof. intros Hty. dispatch_on Hty. Qed.

Lemma dispatch_toggle s e g t :
  type e = "TOGGLE_ORIENTATION" → dispatch s e g t = Ok (_on_toggle_orientation s g).
Proof. intros Hty. dispatch_on Hty. Qed.

Lemma dispatch_check_word s e g t :
  type e = "REQUEST_CHECK_WORD" → dispatch s e g t = check_word s g t.
Proof. intros Hty. dispatch_on Hty. Qed.

Lemma dispatch_check_puzzle s e g t :
  type e = "REQUEST_CHECK_PUZZLE" → dispatch s e g t = Ok (check_puzzle s g t).
Proof. intros Hty. dispatch_on Hty. Qed.

Lemma dispatch_unknown s e g t :
  type e ∉ event_types → dispatch s e g t = Ok (set_last_action ("ignored:" +:+ type e) s).
Proof.
  intros Hty. unfold dispatch.
  repeat (case_decide as Heq; [exfalso; apply Hty; rewrite Heq; apply list_elem_of_In; simpl; tauto|clear Heq]).
  reflexivity.
Qed.

(** Every event type is one of the nine or is turned down. *)
Lemma dispatch_cases e :
  type e = "CLICK_CELL" ∨ type e = "TYPE_CHAR" ∨ type e = "BACKSPACE" ∨ type e = "ARROW"
  ∨ type e = "TAB" ∨ type e = "SHIFT_TAB" ∨ type e = "TOGGLE_ORIENTATION"
  ∨ type e = "REQUEST_CHECK_WORD" ∨ type e = "REQUEST_CHECK_PUZZLE"
  ∨ type e ∉ event_types.
Proof.
  destruct (decide (type e ∈ event_types)) as [Hin|Hout]; [|tauto].
  apply list_elem_of_In in Hin. simpl in Hin. naive_solver.
Qed.

Lemma step_dir_unknown d : d ∉ directions → _step_dir d = (0, 0, OrientH).
Proof.
  intros Hd. unfold _step_dir.
  repeat (case_decide as Heq; [exfalso; apply Hd; rewrite Heq; apply list_elem_of_In; simpl; tauto|clear Heq]).
  reflexivity.
Qed.

(** *** The fixed geometry *)

Lemma is_playable_5 cell : is_playable build_grid_spec cell = Ok (playable5 cell).
Proof.
  destruct cell as [r c]. unfold is_playable, playable5, out_of_bounds.
  change (size build_grid_spec) with 5.
  destruct (Z.ltb_spec r 0); [by rewrite bool_decide_eq_false_2 by lia|].
  destruct (Z.ltb_spec c 0); [by rewrite bool_decide_eq_false_2 by lia|].
  destruct (Z.geb_spec r 5); [by rewrite bool_decide_eq_false_2 by lia|].
  destruct (Z.geb_spec c 5); [by rewrite bool_decide_eq_false_2 by lia|].
  rewrite bool_decide_eq_true_2 by lia. cbn [orb andb].
  assert (r = 0 ∨ r = 1 ∨ r = 2 ∨ r = 3 ∨ r = 4) as Hr by lia.
  assert (c = 0 ∨ c = 1 ∨ c = 2 ∨ c = 3 ∨ c = 4) as Hc by lia.
  destruct Hr as [->|[->|[->|[->| ->]]]], Hc as [->|[->|[->|[->| ->]]]]; reflexivity.
Qed.

Lemma slots_5 sid : ∃ cells,
  dict_get (slots build_grid_spec) sid = Ok cells ∧ NoDup cells ∧ cells ≠ []
  ∧ ∀ cell, cell ∈ cells → playable5 cell = true.
Proof.
  destruct sid; eexists; (split; [reflexivity|]); (split; [|split]);
    try (apply (bool_decide_unpack _); vm_compute; exact I);
    try discriminate;
    intros cell Hin; apply list_elem_of_In in Hin; vm_compute in Hin;
    repeat (destruct Hin as [<-|Hin]; [reflexivity|]); destruct Hin.
Qed.

(** *** What every handler leaves alone *)

Ltac frame_done := unfold same_lineage, clear_checks; cbn; done.

Lemma arrow_loop_frame s g d dr dc o n r c out :
  arrow_loop s g d dr dc o n r c = Ok out → same_lineage s out.
Proof.
  revert r c. induction n as [|n IH]; intros r c; cbn [arrow_loop].
  - intros [= <-]. frame_done.
  - case_match; [intros [= <-]; frame_done|].
    intros Hout. simplify_result. case_match; simplify_result; [frame_done|eauto].
Qed.

Lemma dispatch_frame s e g t out :
  dispatch s e g t = Ok out → same_lineage s out.
Proof.
  destruct (dispatch_cases e) as [Hty|[Hty|[Hty|[Hty|[Hty|[Hty|[Hty|[Hty|[Hty|Hty]]]]]]]]].
  - rewrite dispatch_click by done. unfold _on_click_cell. intros Hout.
    repeat (case_match || simplify_result); frame_done.
  - rewrite dispatch_type_char by done. unfold _on_type_char. intros Hout.
    repeat (case_match || simplify_result); frame_done.
  - rewrite dispatch_backspace by done. unfold _on_backspace. intros Hout.
    repeat (case_match || simplify_result); frame_done.
  - rewrite dispatch_arrow by done. unfold _on_arrow. intros Hout.
    repeat (case_match || simplify_result); try frame_done.
    by eapply arrow_loop_frame.
  - rewrite dispatch_tab by done. unfold _on_tab. intros Hout.
    simplify_result. frame_done.
  - rewrite dispatch_shift_tab by done. unfold _on_tab. intros Hout.
    simplify_result. frame_done.
  - rewrite dispatch_toggle by done. unfold _on_toggle_orientation. intros Hout.
    repeat (case_match || simplify_result); frame_done.
  - rewrite dispatch_check_word by done. unfold check_word. intros Hout.
    simplify_result. frame_done.
  - rewrite dispatch_check_puzzle by done. intros [= <-]. frame_done.
  - rewrite dispatch_unknown by done. intros [= <-]. frame_done.
Qed.

Lemma reduce_of_dispatch s e g t out :
  dispatch s e g t = Ok out →
  reduce s e g t
  = Ok (set_last_client_seq (merged_seq (last_client_seq s) (payload e)) out).
Proof.
  intros Hout. rewrite reduce_dispatch, Hout. bind_step.
  by destruct (dispatch_frame _ _ _ _ _ Hout) as (_ & _ & _ & ->).
Qed.

(** *** The reducer is total on the fixed geometry *)

Lemma advance_total g slot cells cell step :
  dict_get (slots g) slot = Ok cells → cells ≠ [] →
  ∃ c', _advance_within_slot g slot cell step = Ok c'.
Proof.
  intros Hcells Hne. unfold _advance_within_slot. rewrite Hcells. cbn.
  case_bool_decide as Hin; cbn.
  - destruct (list_index_elem cell cells Hin) as [idx Hidx]. rewrite Hidx.
    apply list_index_Some in Hidx as [Hr _].
    destruct ((idx + step <? 0) || (idx + step >=? Z.of_nat (length cells))) eqn:E; [eauto|].
    apply orb_false_iff in E as [?%Z.ltb_ge E]. rewrite Z.geb_leb in E. apply Z.leb_gt in E.
    destruct (lookup_lt_is_Some_2 cells (Z.to_nat (idx + step))) as [c' Hc']; [lia|].
    exists c'. by apply list_get_Ok.
  - destruct cells as [|c0 cells]; [done|]. by exists c0.
Qed.

Lemma advance_total_5 slot cell step :
  ∃ c', _advance_within_slot build_grid_spec slot cell step = Ok c'.
Proof.
  destruct (slots_5 slot) as (cells & Hcells & _ & Hne & _).
  by eapply advance_total.
Qed.

Lemma arrow_loop_total_5 s d dr dc o n r c :
  ∃ out, arrow_loop s build_grid_spec d dr dc o n r c = Ok out.
Proof.
  revert r c. induction n as [|n IH]; intros r c; cbn [arrow_loop]; [eauto|].
  case_match; [eauto|]. rewrite is_playable_5. bind_step.
  destruct (playable5 (r + dr, c + dc)); eauto.
Qed.

Lemma tab_total_5 s forward : ∃ out, _on_tab s build_grid_spec forward = Ok out.
Proof.
  unfold _on_tab. destruct (active_slot s), forward; eexists; reflexivity.
Qed.

Lemma dispatch_total_5 s e t : ∃ out, dispatch s e build_grid_spec t = Ok out.
Proof.
  destruct (dispatch_cases e) as [Hty|[Hty|[Hty|[Hty|[Hty|[Hty|[Hty|[Hty|[Hty|Hty]]]]]]]]].
  - rewrite dispatch_click by done. unfold _on_click_cell.
    destruct (parse_cell_id _) as [cell|]; [|eauto].
    rewrite is_playable_5. bind_step. destruct (playable5 cell); cbn; eauto.
  - rewrite dispatch_type_char by done. unfold _on_type_char.
    repeat (case_match; [eauto|]).
    destruct (advance_total_5 (active_slot s) (active_cell s) 1) as [c' ->]. cbn. eauto.
  - rewrite dispatch_backspace by done. unfold _on_backspace.
    repeat (case_match; [eauto|]).
    destruct (advance_total_5 (active_slot s) (active_cell s) (-1)) as [c' ->]. cbn.
    repeat case_match; eauto.
  - rewrite dispatch_arrow by done. unfold _on_arrow.
    repeat case_match; eauto using arrow_loop_total_5.
  - rewrite dispatch_tab by done. apply tab_total_5.
  - rewrite dispatch_shift_tab by done. apply tab_total_5.
  - rewrite dispatch_toggle by done. eauto.
  - rewrite dispatch_check_word by done. unfold check_word.
    destruct (slots_5 (active_slot s)) as (cells & -> & _). cbn. eauto.
  - rewrite dispatch_check_puzzle by done. eauto.
  - rewrite dispatch_unknown by done. eauto.
Qed.

Lemma reduce_total_5 s e t :
  ∃ out, dispatch s e build_grid_spec t = Ok out
         ∧ reduce s e build_grid_spec t
           = Ok (set_last_client_seq (merged_seq (last_client_seq s) (payload e)) out).
Proof.
  destruct (dispatch_total_5 s e t) as [out Hout]. exists out. split; [done|].
  rewrite reduce_dispatch, Hout. cbn.
  by destruct (dispatch_frame _ _ _ _ _ Hout) as (_ & _ & _ & ->).
Qed.

Lemma reduce_events_total_5 s es t :
  ∃ s', reduce_events s es build_grid_spec t = Ok s'.
Proof.
  revert s. induction es as [|e es IH]; intros s; cbn [reduce_events]; [eauto|].
  destruct (reduce_total_5 s e t) as (out & _ & ->). cbn. apply IH.
Qed.

(** *** Moving within a slot *)

Lemma advance_at g slot cells cell (i : nat) step :
  dict_get (slots g) slot = Ok cells → NoDup cells → cells !! i = Some cell →
  _advance_within_slot g slot cell step =
    Ok (if (Z.of_nat i + step <? 0) || (Z.of_nat i + step >=? Z.of_nat (length cells))
        then cell
        else default cell (cells !! Z.to_nat (Z.of_nat i + step))).
Proof.
  intros Hcells Hnd Hi. unfold _advance_within_slot. rewrite Hcells. bind_step.
  rewrite bool_decide_eq_true_2 by (by eapply list_elem_of_lookup_2).
  cbn [negb]. rewrite (list_index_NoDup _ _ _ Hnd Hi).
  destruct (_ || _) eqn:E; [done|].
  apply orb_false_iff in E as [?%Z.ltb_ge E]. rewrite Z.geb_leb in E. apply Z.leb_gt in E.
  destruct (lookup_lt_is_Some_2 cells (Z.to_nat (Z.of_nat i + step))) as [c' Hc']; [lia|].
  rewrite Hc'. by apply list_get_Ok.
Qed.

Lemma advance_next g slot cells cell (i : nat) :
  dict_get (slots g) slot = Ok cells → NoDup cells → cells !! i = Some cell →
  _advance_within_slot g slot cell 1 = Ok (default cell (cells !! S i)).
Proof.
  intros Hcells Hnd Hi. rewrite (advance_at _ _ _ _ _ _ Hcells Hnd Hi).
  replace (Z.to_nat (Z.of_nat i + 1)) with (S i) by lia.
  destruct (_ || _) eqn:E; [|done].
  apply orb_true_iff in E as [?%Z.ltb_lt|E]; [lia|].
  rewrite Z.geb_leb in E. apply Z.leb_le in E.
  by rewrite lookup_ge_None_2 by lia.
Qed.

Lemma advance_prev_first g slot cells cell :
  dict_get (slots g) slot = Ok cells → NoDup cells → cells !! 0%nat = Some cell →
  _advance_within_slot g slot cell (-1) = Ok cell.
Proof.
  intros Hcells Hnd Hi. by rewrite (advance_at _ _ _ _ _ _ Hcells Hnd Hi).
Qed.

Lemma advance_prev g slot cells cell (j : nat) prev :
  dict_get (slots g) slot = Ok cells → NoDup cells →
  cells !! S j = Some cell → cells !! j = Some prev →
  _advance_within_slot g slot cell (-1) = Ok prev ∧ prev ≠ cell.
Proof.
  intros Hcells Hnd Hi Hj. rewrite (advance_at _ _ _ _ _ _ Hcells Hnd Hi).
  replace (Z.to_nat (Z.of_nat (S j) + -1)) with j by lia.
  pose proof (lookup_lt_Some _ _ _ Hi).
  rewrite orb_false_intro; [|apply Z.ltb_ge; lia|rewrite Z.geb_leb; apply Z.leb_gt; lia].
  rewrite Hj. split; [done|]. intros ->.
  pose proof (NoDup_lookup _ _ _ _ Hnd Hi Hj). lia.
Qed.

Lemma slot_NoDup_5 sid cells :
  dict_get (slots build_grid_spec) sid = Ok cells → NoDup cells.
Proof.
  destruct (slots_5 sid) as (cells' & -> & Hnd & _). by intros [= <-].
Qed.

Lemma upper_char_of_upper a : 65 <= code a <= 90 → upper_char a = a.
Proof.
  intros Ha. unfold upper_char. cbv zeta.
  destruct (Z.leb_spec 97 (code a)); [lia|].
  destruct (Z.leb_spec 224 (code a)); [lia|]. done.
Qed.

Lemma type_char_accepts ch :
  single_letter ch →
  negb (len (upper ch) =? 1) || negb (str_leb "A" (upper ch) && str_leb (upper ch) "Z") = false.
Proof. intros Hletter. by apply type_char_test, single_letter_upper. Qed.

Lemma marks_cleared g s cell :
  state_inv g s → playable g cell →
  ((fun _ => none) <$> check_marks s) !! cell = Some none.
Proof.
  intros Hinv Hcell. apply (inv_marks _ _ Hinv) in Hcell as [m Hm].
  by rewrite lookup_fmap, Hm.
Qed.

(** *** Initialization *)

Lemma playable5_elem cell : playable5 cell = true ↔ cell ∈ playable_cells5.
Proof.
  destruct cell as [r c]. unfold playable5. split.
  - intros [Hb Hrc]%andb_true_iff. apply bool_decide_eq_true in Hb as [Hr Hc].
    assert (r = 0 ∨ r = 1 ∨ r = 2 ∨ r = 3 ∨ r = 4) as Hr' by lia.
    assert (c = 0 ∨ c = 1 ∨ c = 2 ∨ c = 3 ∨ c = 4) as Hc' by lia.
    destruct Hr' as [->|[->|[->|[->| ->]]]], Hc' as [->|[->|[->|[->| ->]]]];
      first [discriminate Hrc | apply list_elem_of_In; cbn; tauto].
  - intros Hin. apply list_elem_of_In in Hin. cbn in Hin.
    repeat (destruct Hin as [[= <- <-]|Hin]; [reflexivity|]). destruct Hin.
Qed.

Lemma playable_5 cell : playable build_grid_spec cell ↔ cell ∈ playable_cells5.
Proof.
  unfold playable. rewrite is_playable_5, <- playable5_elem.
  split; [by intros [= ->]|by intros ->].
Qed.

Lemma is_letter_single letter :
  is_letter letter = true → ∃ a, letter = String a EmptyString ∧ 65 <= code a <= 90.
Proof.
  unfold is_letter. intros [Hlen Hle]%andb_true_iff. apply Z.eqb_eq in Hlen.
  destruct letter as [|a [|b r]]; unfold len in Hlen; cbn [String.length] in Hlen; try lia.
  exists a. split; [done|]. rewrite !str_leb_single in Hle.
  apply andb_true_iff in Hle as [?%Z.leb_le ?%Z.leb_le].
  change (code "A") with 65 in *. change (code "Z") with 90 in *. lia.
Qed.

Lemma seed_given_ok D acc item : seeded_ok D acc → seeded_ok D (seed_given acc item).
Proof.
  intros (Hdom & Hgiven & Hrest). unfold seed_given.
  destruct item as [d|]; [|done].
  destruct (parse_cell_id _) as [cell|]; [|done].
  case_decide as Hin; [done|].
  destruct (is_letter _) eqn:Hletter; cbn [negb]; [|done].
  apply is_letter_single in Hletter as (a & -> & Ha).
  assert (cell ∈ D) as HcellD.
  { rewrite <- Hdom. apply elem_of_dom. by destruct (acc.1 !! cell); [eauto|]. }
  split; [|split]; cbn [fst snd].
  - rewrite dom_insert_L. set_solver.
  - intros cell' [->%elem_of_singleton|Hin']%elem_of_union.
    + exists a. by rewrite lookup_insert_eq.
    + destruct (decide (cell = cell')) as [->|Hne].
      * exists a. by rewrite lookup_insert_eq.
      * rewrite lookup_insert_ne by done. by apply Hgiven.
  - intros cell' HD Hnot. rewrite lookup_insert_ne by set_solver.
    apply Hrest; set_solver.
Qed.

Lemma seed_givens_ok D acc items : seeded_ok D acc → seeded_ok D (foldl seed_given acc items).
Proof.
  revert acc. induction items as [|item items IH]; intros acc Hacc; cbn [foldl]; [done|].
  by apply IH, seed_given_ok.
Qed.

Lemma empty_rows_5 :
  empty_rows build_grid_spec (range (size build_grid_spec)) ∅
  = Ok (gset_to_gmap "" (list_to_set playable_cells5)).
Proof. vm_compute. reflexivity. Qed.

Lemma empty_seeded_ok :
  seeded_ok (list_to_set playable_cells5)
    (@pair (gmap Cell string) (gset Cell) (gset_to_gmap "" (list_to_set playable_cells5)) ∅).
Proof.
  split; [|split]; cbn [fst snd].
  - apply dom_gset_to_gmap.
  - set_solver.
  - intros cell Hin _. by apply lookup_gset_to_gmap_Some.
Qed.

(** The state [init_state] returns on the fixed geometry. *)
Lemma init_state_5_shape puzzle fresh :
  ∃ letters given,
    seeded_ok (list_to_set playable_cells5) (letters, given)
    ∧ init_state puzzle build_grid_spec fresh
      = Ok (mkGameState
              (match meta_id (meta puzzle) with
               | Some v => str_of v
               | None => filename puzzle
               end)
              fresh letters given (0, 1) v1 OrientH ((fun _ => none) <$> letters) "init" 0).
Proof.
  unfold init_state. rewrite empty_rows_5. bind_step.
  set (seeded := match meta_givens (meta puzzle) with
                 | Some items => foldl seed_given _ items
                 | None => _
                 end).
  assert (seeded_ok (list_to_set playable_cells5) seeded) as Hok.
  { subst seeded. destruct (meta_givens (meta puzzle)).
    - apply seed_givens_ok, empty_seeded_ok.
    - apply empty_seeded_ok. }
  exists seeded.1, seeded.2. split; [by destruct seeded|].
  reflexivity.
Qed.

Lemma seeded_dom_playable letters given cell :
  seeded_ok (list_to_set playable_cells5) (letters, given) →
  is_Some (letters !! cell) ↔ playable build_grid_spec cell.
Proof.
  intros (Hdom & _). cbn [fst] in Hdom.
  by rewrite <- elem_of_dom, Hdom, elem_of_list_to_set, playable_5.
Qed.

Lemma in_slot_first_cell : ∀ sid, in_slot build_grid_spec sid (0, 1) ↔ sid = v1.
Proof.
  intros sid. split.
  - intros (cells & Hcells & Hin). destruct sid; [| |done| |];
      injection Hcells as <-; apply list_elem_of_In in Hin; vm_compute in Hin;
      repeat (destruct Hin as [Hin|Hin]; [discriminate Hin|]); destruct Hin.
  - intros ->. eexists. split; [reflexivity|].
    apply list_elem_of_In. vm_compute. tauto.
Qed.

Lemma init_state_inv puzzle fresh s :
  init_state puzzle build_grid_spec fresh = Ok s → state_inv build_grid_spec s.
Proof.
  destruct (init_state_5_shape puzzle fresh) as (letters & given & Hok & ->).
  intros [= <-]. split; cbn.
  - intros cell. by apply seeded_dom_playable with given.
  - intros cell. rewrite lookup_fmap, fmap_is_Some. by apply seeded_dom_playable with given.
  - intros cell Hin. apply (seeded_dom_playable letters given); [done|].
    destruct Hok as (_ & Hgiven & _). cbn [fst snd] in Hgiven.
    destruct (Hgiven cell Hin) as (a & -> & _). eauto.
  - by apply in_slot_first_cell.
Qed.

Lemma example_state_inv : state_inv build_grid_spec example_state.
Proof. exact (init_state_inv _ _ _ example_state_init). Qed.

(** *** The invariants of the data model hold in every reachable state *)

Ltac state_simpl :=
  cbn [puzzle_id state_id grid_letters given_cells active_cell active_slot orientation
       check_marks last_action last_client_seq set_grid_letters set_active_cell
       set_active_slot set_orientation set_check_marks set_last_action
       set_last_client_seq clear_checks].

Lemma in_slot_playable_5 sid cell :
  in_slot build_grid_spec sid cell → playable build_grid_spec cell.
Proof.
  intros (cells & Hcells & Hin).
  destruct (slots_5 sid) as (cells' & Hcells' & _ & _ & Hplay).
  rewrite Hcells in Hcells'. injection Hcells' as <-.
  unfold playable. rewrite is_playable_5. f_equal. by apply Hplay.
Qed.

Lemma resolve_in_slot_5 cell o :
  playable build_grid_spec cell →
  in_slot build_grid_spec (_resolve_active_slot build_grid_spec cell o false) cell.
Proof.
  intros Hcell. apply playable_5, list_elem_of_In in Hcell. cbn in Hcell.
  repeat (destruct Hcell as [<-|Hcell];
          [destruct o; (eexists; split; [reflexivity|]);
           apply list_elem_of_In; vm_compute; tauto|]).
  destruct Hcell.
Qed.

Lemma advance_in_slot g slot cells cell step c' :
  dict_get (slots g) slot = Ok cells →
  _advance_within_slot g slot cell step = Ok c' → c' ∈ cells.
Proof.
  intros Hcells. unfold _advance_within_slot. rewrite Hcells. bind_step.
  case_bool_decide as Hin; cbn [negb].
  - destruct (list_index cell cells) as [idx|]; [|done].
    destruct (_ || _); [by intros [= <-]|].
    intros Hget%list_get_Ok. by eapply list_elem_of_lookup_2.
  - intros Hget%list_get_Ok. by eapply list_elem_of_lookup_2.
Qed.

Lemma check_cells_dom s t cells marks cell :
  (∀ c, c ∈ cells → is_Some (marks !! c)) →
  is_Some (foldl (check_cell s t) marks cells !! cell) ↔ is_Some (marks !! cell).
Proof.
  revert marks. induction cells as [|c cells IH]; intros marks Hcells; cbn [foldl]; [done|].
  assert (is_Some (check_cell s t marks c !! cell) ↔ is_Some (marks !! cell)) as Hstep.
  { unfold check_cell. destruct (truth t !! c); [|done].
    rewrite lookup_insert_is_Some.
    assert (is_Some (marks !! c)) by (apply Hcells; left).
    split; [intros [<-|[_ ?]]; done|]. destruct (decide (c = cell)); eauto. }
  rewrite IH; [done|].
  intros c' Hc'. unfold check_cell. destruct (truth t !! c); [|apply Hcells; by right].
  rewrite lookup_insert_is_Some. destruct (decide (c = c')); [by left|right].
  split; [done|]. apply Hcells. by right.
Qed.

Lemma check_puzzle_dom s g t cell :
  is_Some (check_marks (check_puzzle s g t) !! cell)
  ↔ is_Some (check_marks s !! cell) ∨ is_Some (truth t !! cell).
Proof.
  unfold check_puzzle. state_simpl.
  apply (map_fold_weak_ind
           (fun r (m : gmap Cell string) =>
              is_Some (r !! cell) ↔ is_Some (check_marks s !! cell) ∨ is_Some (m !! cell))).
  - rewrite lookup_empty. split; [eauto|]. intros [?|[? ?]]; done.
  - intros c x m r Hfresh IH. rewrite !lookup_insert_is_Some, IH.
    destruct (decide (c = cell)); naive_solver.
Qed.

Lemma state_inv_update s out :
  state_inv build_grid_spec s →
  (∀ cell, is_Some (grid_letters out !! cell) ↔ is_Some (grid_letters s !! cell)) →
  (∀ cell, is_Some (check_marks out !! cell) ↔ is_Some (check_marks s !! cell)) →
  given_cells out = given_cells s →
  in_slot build_grid_spec (active_slot out) (active_cell out) →
  state_inv build_grid_spec out.
Proof.
  intros Hinv Hletters Hmarks Hgiven Hact. split.
  - intros cell. rewrite Hletters. apply (inv_letters _ _ Hinv).
  - intros cell. rewrite Hmarks. apply (inv_marks _ _ Hinv).
  - intros cell. rewrite Hgiven. apply (inv_given _ _ Hinv).
  - exact Hact.
Qed.

(** A handler that only moves the focus or retags the state. *)
Ltac inv_focus Hinv :=
  apply (state_inv_update _ _ Hinv); state_simpl; [done|done|reflexivity|].

Lemma insert_present_dom {A} (m : gmap Cell A) k v cell :
  is_Some (m !! k) → is_Some (<[k := v]> m !! cell) ↔ is_Some (m !! cell).
Proof.
  intros Hk. rewrite lookup_insert_is_Some.
  destruct (decide (k = cell)) as [->|]; naive_solver.
Qed.

Lemma arrow_loop_inv s d dr dc o n r c out :
  state_inv build_grid_spec s →
  arrow_loop s build_grid_spec d dr dc o n r c = Ok out →
  state_inv build_grid_spec out.
Proof.
  intros Hinv. revert r c. induction n as [|n IH]; intros r c; cbn [arrow_loop].
  - from_ok out. inv_focus Hinv. exact (inv_active _ _ Hinv).
  - destruct (_ || _).
    + from_ok out. inv_focus Hinv.
      apply resolve_in_slot_5. eapply in_slot_playable_5, Hinv.
    + destruct (is_playable build_grid_spec (r + dr, c + dc)) as [[|]|] eqn:Hplay;
        bind_step; [| |done].
      * from_ok out. inv_focus Hinv. by apply resolve_in_slot_5.
      * apply IH.
Qed.

Lemma tab_inv s forward out :
  state_inv build_grid_spec s →
  _on_tab s build_grid_spec forward = Ok out →
  state_inv build_grid_spec out.
Proof.
  intros Hinv. unfold _on_tab.
  destruct (active_slot s), forward; from_ok out; inv_focus Hinv;
    (eexists; split; [reflexivity|]); apply list_elem_of_In; vm_compute; tauto.
Qed.

Lemma click_inv s p out :
  state_inv build_grid_spec s →
  _on_click_cell s p build_grid_spec = Ok out → state_inv build_grid_spec out.
Proof.
  intros Hinv. unfold _on_click_cell.
  destruct (parse_cell_id _) as [cell|].
  - destruct (is_playable build_grid_spec cell) as [[|]|] eqn:Hplay; bind_step; [| |done];
      from_ok out; inv_focus Hinv.
    + by apply resolve_in_slot_5.
    + exact (inv_active _ _ Hinv).
  - from_ok out. inv_focus Hinv. exact (inv_active _ _ Hinv).
Qed.

Lemma type_char_inv s p out :
  state_inv build_grid_spec s →
  _on_type_char s p build_grid_spec = Ok out → state_inv build_grid_spec out.
Proof.
  intros Hinv. unfold _on_type_char.
  destruct (inv_active _ _ Hinv) as (cells & Hcells & Hin).
  destruct (negb _ || _); [from_ok out; inv_focus Hinv; exact (inv_active _ _ Hinv)|].
  case_bool_decide; [from_ok out; inv_focus Hinv; exact (inv_active _ _ Hinv)|].
  intros Hout. apply bind_Ok in Hout as (next & Hnext & Hout). revert Hout. from_ok out.
  apply (state_inv_update _ _ Hinv); state_simpl.
  - intros cell. apply insert_present_dom, (inv_letters _ _ Hinv).
    eapply in_slot_playable_5, Hinv.
  - intros cell. by rewrite lookup_fmap, fmap_is_Some.
  - reflexivity.
  - exists cells. split; [done|]. by eapply advance_in_slot.
Qed.

Lemma backspace_inv s out :
  state_inv build_grid_spec s →
  _on_backspace s build_grid_spec = Ok out → state_inv build_grid_spec out.
Proof.
  intros Hinv. unfold _on_backspace.
  destruct (inv_active _ _ Hinv) as (cells & Hcells & Hin).
  case_bool_decide; [from_ok out; inv_focus Hinv; exact (inv_active _ _ Hinv)|].
  destruct (negb _).
  - from_ok out. apply (state_inv_update _ _ Hinv); state_simpl.
    + intros cell. apply insert_present_dom, (inv_letters _ _ Hinv).
      eapply in_slot_playable_5, Hinv.
    + intros cell. by rewrite lookup_fmap, fmap_is_Some.
    + reflexivity.
    + exact (inv_active _ _ Hinv).
  - intros Hout. apply bind_Ok in Hout as (prev & Hprev & Hout).
    pose proof (advance_in_slot _ _ _ _ _ _ Hcells Hprev) as Hprev_in.
    assert (in_slot build_grid_spec (active_slot s) prev) as Hslot by (by exists cells).
    case_bool_decide;
      [revert Hout; from_ok out; inv_focus Hinv; exact (inv_active _ _ Hinv)|].
    case_bool_decide; [revert Hout; from_ok out; inv_focus Hinv; exact Hslot|].
    revert Hout; from_ok out. apply (state_inv_update _ _ Hinv); state_simpl.
    + intros cell. apply insert_present_dom, (inv_letters _ _ Hinv).
      by eapply in_slot_playable_5.
    + intros cell. by rewrite lookup_fmap, fmap_is_Some.
    + reflexivity.
    + exact Hslot.
Qed.

Lemma dispatch_inv s e t out :
  state_inv build_grid_spec s → truth_within build_grid_spec t →
  dispatch s e build_grid_spec t = Ok out → state_inv build_grid_spec out.
Proof.
  intros Hinv Ht.
  destruct (dispatch_cases e) as [Hty|[Hty|[Hty|[Hty|[Hty|[Hty|[Hty|[Hty|[Hty|Hty]]]]]]]]].
  - rewrite dispatch_click by done. by apply click_inv.
  - rewrite dispatch_type_char by done. by apply type_char_inv.
  - rewrite dispatch_backspace by done. by apply backspace_inv.
  - rewrite dispatch_arrow by done. unfold _on_arrow.
    destruct (_step_dir _) as [[dr dc] o].
    destruct ((dr =? 0) && (dc =? 0));
      [from_ok out; inv_focus Hinv; exact (inv_active _ _ Hinv)|].
    destruct (active_cell s) as [r c]. by apply arrow_loop_inv.
  - rewrite dispatch_tab by done. by apply tab_inv.
  - rewrite dispatch_shift_tab by done. by apply tab_inv.
  - rewrite dispatch_toggle by done. unfold _on_toggle_orientation.
    destruct (negb _); from_ok out; inv_focus Hinv.
    + exact (inv_active _ _ Hinv).
    + apply resolve_in_slot_5. eapply in_slot_playable_5, Hinv.
  - rewrite dispatch_check_word by done. unfold check_word.
    destruct (inv_active _ _ Hinv) as (cells & Hcells & Hin).
    rewrite Hcells. bind_step.
    from_ok out. apply (state_inv_update _ _ Hinv); state_simpl.
    + done.
    + intros cell. apply check_cells_dom.
      intros c Hc. apply (inv_marks _ _ Hinv). apply in_slot_playable_5 with (active_slot s).
      by exists cells.
    + reflexivity.
    + by exists cells.
  - rewrite dispatch_check_puzzle by done. from_ok out.
    apply (state_inv_update _ _ Hinv).
    + done.
    + intros cell. rewrite check_puzzle_dom. rewrite (inv_marks _ _ Hinv).
      split; [intros [?|?]; [done|by apply Ht]|by left].
    + reflexivity.
    + exact (inv_active _ _ Hinv).
  - rewrite dispatch_unknown by done. from_ok out. inv_focus Hinv.
    exact (inv_active _ _ Hinv).
Qed.

Lemma reduce_inv s e t s' :
  state_inv build_grid_spec s → truth_within build_grid_spec t →
  reduce s e build_grid_spec t = Ok s' → state_inv build_grid_spec s'.
Proof.
  intros Hinv Ht. rewrite reduce_dispatch. intros Hs'.
  apply bind_Ok in Hs' as (out & Hout & Hs'). revert Hs'. from_ok s'.
  apply (dispatch_inv _ _ _ _ Hinv Ht) in Hout.
  apply (state_inv_update _ _ Hout); state_simpl; [done|done|reflexivity|].
  exact (inv_active _ _ Hout).
Qed.

Lemma reachable_inv t s :
  truth_within build_grid_spec t → reachable build_grid_spec t s →
  state_inv build_grid_spec s.
Proof.
  intros Ht. induction 1 as [puzzle fresh s Hinit|s e s' _ IH Hred].
  - by eapply init_state_inv.
  - by eapply reduce_inv.
Qed.

Lemma reduce_events_inv s es t s' :
  state_inv build_grid_spec s → truth_within build_grid_spec t →
  reduce_events s es build_grid_spec t = Ok s' → state_inv build_grid_spec s'.
Proof.
  intros Hinv Ht. revert s Hinv.
  induction es as [|e es IH]; intros s Hinv; cbn [reduce_events].
  - by from_ok s'.
  - intros Hrun. apply bind_Ok in Hrun as (s1 & Hs1 & Hrun).
    eapply IH; [|exact Hrun]. by eapply reduce_inv.
Qed.

(** A truth map built from a puzzle knows playable cells only. *)
Lemma project_answer_keys cells ans acc m cell :
  project_answer cells ans acc = Ok m →
  is_Some (m !! cell) → is_Some (acc !! cell) ∨ cell ∈ cells.
Proof.
  revert ans acc. induction cells as [|c cells IH]; intros ans acc; cbn [project_answer].
  - intros Hm. apply Ok_inj in Hm. subst m. by left.
  - destruct ans as [|a ans]; [done|]. intros Hm Hcell.
    destruct (IH _ _ Hm Hcell) as [Hacc|Hin]; [|right; by right].
    apply lookup_insert_is_Some in Hacc as [->|[_ Hacc]]; [right; left|by left].
Qed.

Lemma project_entries_keys g items acc m cell :
  project_entries g items acc = Ok m →
  is_Some (m !! cell) → is_Some (acc !! cell) ∨ ∃ sid, in_slot g sid cell.
Proof.
  revert acc. induction items as [|[sid entry] items IH]; intros acc; cbn [project_entries].
  - intros Hm. apply Ok_inj in Hm. subst m. by left.
  - intros Hm Hcell. apply bind_Ok in Hm as (cells & Hcells & Hm).
    apply bind_Ok in Hm as (acc' & Hacc' & Hm).
    destruct (IH _ Hm Hcell) as [Hin|Hslot]; [|by right].
    destruct (project_answer_keys _ _ _ _ _ Hacc' Hin) as [Hacc|Hin']; [by left|].
    right. exists sid, cells. done.
Qed.

Lemma build_truth_map_within puzzle t :
  build_truth_map puzzle build_grid_spec = Ok t → truth_within build_grid_spec t.
Proof.
  unfold build_truth_map. intros Ht. apply bind_Ok in Ht as (m & Hm & Ht).
  apply Ok_inj in Ht. subst t. intros cell Hcell. cbn [truth] in Hcell.
  destruct (project_entries_keys _ _ _ _ _ Hm Hcell) as [Hempty|[sid Hslot]].
  - rewrite lookup_empty in Hempty. by destruct Hempty.
  - by eapply in_slot_playable_5.
Qed.

Lemma example_truth_within : truth_within build_grid_spec example_truth.
Proof.
  apply (build_truth_map_within example_puzzle). vm_compute. reflexivity.
Qed.

Lemma example_typed_run :
  reduce_events example_state
    [ mkGridEvent "TYPE_CHAR" {["char" := VStr "r"]};
      mkGridEvent "TYPE_CHAR" {["char" := VStr "a"]} ]
    build_grid_spec example_truth
  = Ok example_typed.
Proof. vm_compute. reflexivity. Qed.

Lemma example_typed_inv : state_inv build_grid_spec example_typed.
Proof.
  exact (reduce_events_inv _ _ _ _ example_state_inv example_truth_within example_typed_run).
Qed.

(** *** C1: what becomes of a rejected event *)

(** C1 (as amended). An event of an unrecognized type, or of a
    recognized type with a malformed payload (for CLICK_CELL a cell id
    that is not two integers [int] accepts around one comma, for
    TYPE_CHAR a char whose upper case is not one capital letter A-Z, for
    ARROW a dir whose upper case is none of the four directions), never
    makes the reducer raise, whatever the state, the geometry and the
    truth map: the result is the input state with [last_action] set to
    the tag of the rejection ("ignored:<type>", "click:bad_cell_id",
    "type:ignored", "arrow:ignored") and [last_client_seq] merged with
    the event's number. The char is judged by its upper case, as the
    code does: whatever [str.upper] turns into one of A-Z is typed, not
    rejected. *)
Theorem reduce_rejected_noop s e g t tag :
  rejected e tag → reduce s e g t = Ok (stamp tag e s).
Proof.
  intros Hrej. rewrite reduce_dispatch.
  assert (dispatch s e g t = Ok (set_last_action tag s)) as ->; [|reflexivity].
  destruct Hrej as [e Hty | e Hty Hp | e Hty Hch | e Hty Hd].
  - by apply dispatch_unknown.
  - rewrite dispatch_click by done. unfold _on_click_cell. by rewrite Hp.
  - rewrite dispatch_type_char by done. unfold _on_type_char.
    destruct (negb (len _ =? 1) || _) eqn:E; [done|].
    by apply type_char_test in E.
  - rewrite dispatch_arrow by done. unfold _on_arrow.
    by rewrite (step_dir_unknown _ Hd).
Qed.

Lemma reduce_rejected_noop_witness :
  reduce example_state (mkGridEvent "ARROW" {["dir" := VStr "north"; "client_seq" := VInt 4]})
    build_grid_spec example_truth
  = Ok (stamp "arrow:ignored"
          (mkGridEvent "ARROW" {["dir" := VStr "north"; "client_seq" := VInt 4]})
          example_state).
Proof.
  apply reduce_rejected_noop.
  apply rejected_dir; [reflexivity|].
  intros Hin. apply list_elem_of_In in Hin. vm_compute in Hin.
  repeat (destruct Hin as [Hin|Hin]; [discriminate Hin|]). exact Hin.
Defined.

(** C1 (as stated) fails: a CLICK_CELL whose cell id does not parse is
    a no-op, but the tag it leaves is "click:bad_cell_id", not one of the
    form "ignored:<reason>". *)
Lemma malformed_click_tag_not_ignored :
  rejected (mkGridEvent "CLICK_CELL" {["cell_id" := VStr "x"]}) "click:bad_cell_id"
  ∧ ∃ s', reduce example_state (mkGridEvent "CLICK_CELL" {["cell_id" := VStr "x"]})
            build_grid_spec example_truth = Ok s'
          ∧ last_action s' = "click:bad_cell_id"
          ∧ ¬ ignored_tag (last_action s').
Proof.
  split; [by apply rejected_cell_id|].
  eexists. split; [vm_compute; reflexivity|]. split; [reflexivity|].
  intros [reason Heq]. discriminate Heq.
Qed.

(** *** C2: edits never touch a given cell *)

Lemma type_char_keeps_givens s p g out cell :
  _on_type_char s p g = Ok out → cell ∈ given_cells s →
  grid_letters out !! cell = grid_letters s !! cell.
Proof.
  unfold _on_type_char. intros Hout Hgiven.
  destruct (negb _ || _); [by simplify_result|].
  case_bool_decide as Hact; [by simplify_result|].
  apply bind_Ok in Hout as (next & _ & [= <-]). cbn.
  apply lookup_insert_ne. by intros <-.
Qed.

Lemma backspace_keeps_givens s g out cell :
  _on_backspace s g = Ok out → cell ∈ given_cells s →
  grid_letters out !! cell = grid_letters s !! cell.
Proof.
  unfold _on_backspace. intros Hout Hgiven.
  case_bool_decide as Hact; [by simplify_result|].
  destruct (negb _).
  - injection Hout as <-. cbn. apply lookup_insert_ne. by intros <-.
  - apply bind_Ok in Hout as (prev & _ & Hout).
    case_bool_decide; [by simplify_result|].
    case_bool_decide as Hprev; [by simplify_result|].
    injection Hout as <-. cbn. apply lookup_insert_ne. by intros <-.
Qed.

Lemma edit_keeps_givens s e g t s' :
  is_edit e → reduce s e g t = Ok s' →
  given_cells s' = given_cells s
  ∧ ∀ cell, cell ∈ given_cells s → grid_letters s' !! cell = grid_letters s !! cell.
Proof.
  intros Hedit. rewrite reduce_dispatch. intros Hs'.
  apply bind_Ok in Hs' as (out & Hout & [= <-]). cbn. split.
  - by destruct (dispatch_frame _ _ _ _ _ Hout) as (_ & _ & -> & _).
  - intros cell Hgiven. destruct Hedit as [Hty|Hty].
    + rewrite dispatch_type_char in Hout by done. by eapply type_char_keeps_givens.
    + rewrite dispatch_backspace in Hout by done. by eapply backspace_keeps_givens.
Qed.

(** C2. From any state, any finite sequence of TYPE_CHAR and BACKSPACE
    events runs to a state with the same given cells, each holding the
    letter it held before the sequence. *)
Theorem edits_keep_given_letters s es t :
  Forall is_edit es →
  ∃ s', reduce_events s es build_grid_spec t = Ok s'
        ∧ given_cells s' = given_cells s
        ∧ ∀ cell, cell ∈ given_cells s → grid_letters s' !! cell = grid_letters s !! cell.
Proof.
  intros Hedits. revert s.
  induction Hedits as [|e es Hedit _ IH]; intros s; cbn [reduce_events].
  - by exists s.
  - destruct (reduce_total_5 s e t) as (out & _ & Hred).
    destruct (edit_keeps_givens _ _ _ _ _ Hedit Hred) as [Hgiven Hletters].
    rewrite Hred. bind_step.
    destruct (IH (set_last_client_seq (merged_seq (last_client_seq s) (payload e)) out))
      as (s' & Hs' & Hgiven' & Hletters').
    exists s'. split; [done|]. split; [congruence|].
    intros cell Hcell. rewrite Hletters' by (by rewrite Hgiven). by apply Hletters.
Qed.

Lemma edits_keep_given_letters_witness :
  ∃ s', reduce_events example_state example_edits build_grid_spec example_truth = Ok s'
        ∧ given_cells s' = given_cells example_state
        ∧ ∀ cell, cell ∈ given_cells example_state →
            grid_letters s' !! cell = grid_letters example_state !! cell.
Proof.
  apply (edits_keep_given_letters example_state example_edits example_truth).
  repeat (apply List.Forall_cons; [first [by left | by right]|]). apply List.Forall_nil.
Defined.

(** *** C3: typing a letter *)

(** C3. In a state of the fixed geometry whose active cell is the
    [i]-th cell of the active slot, a TYPE_CHAR event carrying one letter
    A–Z, when the active cell is not given, writes that letter into the
    active cell and into no other, sets the check mark of every playable
    cell to "none", and moves the active cell to cell [i+1] of the slot,
    or leaves it in place when cell [i] is the slot's last; when the
    active cell is given, the event is a no-op tagged
    "type:on_given_ignored". *)
Theorem type_char_writes_and_advances s t p a cells (i : nat) :
  state_inv build_grid_spec s →
  p !! "char" = Some (VStr (String a EmptyString)) →
  65 <= code a <= 90 →
  dict_get (slots build_grid_spec) (active_slot s) = Ok cells →
  cells !! i = Some (active_cell s) →
  (active_cell s ∉ given_cells s →
     ∃ s', reduce s (mkGridEvent "TYPE_CHAR" p) build_grid_spec t = Ok s'
       ∧ grid_letters s' !! active_cell s = Some (String a EmptyString)
       ∧ (∀ cell, cell ≠ active_cell s → grid_letters s' !! cell = grid_letters s !! cell)
       ∧ (∀ cell, playable build_grid_spec cell → check_marks s' !! cell = Some none)
       ∧ active_cell s' = default (active_cell s) (cells !! S i))
  ∧ (active_cell s ∈ given_cells s →
     reduce s (mkGridEvent "TYPE_CHAR" p) build_grid_spec t
     = Ok (stamp "type:on_given_ignored" (mkGridEvent "TYPE_CHAR" p) s)).
Proof.
  intros Hinv Hp Ha Hcells Hi.
  assert (upper (get_str p "char") = String a EmptyString) as Hch.
  { unfold get_str. rewrite Hp. cbn [str_of].
    by rewrite upper_single, upper_char_of_upper by lia. }
  assert (negb (len (String a EmptyString) =? 1)
          || negb (str_leb "A" (String a EmptyString) && str_leb (String a EmptyString) "Z")
          = false) as Htest.
  { rewrite <- Hch. apply type_char_accepts. unfold get_str. rewrite Hp. cbn.
    exists a. split; [done|]. by left. }
  split; intros Hgiven.
  - eexists. split.
    + apply reduce_of_dispatch. rewrite dispatch_type_char by done.
      unfold _on_type_char. cbn [payload]. rewrite Hch, Htest.
      rewrite bool_decide_eq_false_2 by done.
      rewrite (advance_next _ _ _ _ _ Hcells (slot_NoDup_5 _ _ Hcells) Hi). bind_step.
      reflexivity.
    + cbn. split; [by rewrite lookup_insert_eq|].
      split; [by intros cell Hne; rewrite lookup_insert_ne|].
      split; [|done]. intros cell Hcell. by eapply marks_cleared.
  - apply reduce_of_dispatch. rewrite dispatch_type_char by done.
    unfold _on_type_char. cbn [payload]. rewrite Hch, Htest.
    by rewrite bool_decide_eq_true_2 by done.
Qed.

Lemma type_char_writes_and_advances_witness :
  ∃ s', reduce example_state (mkGridEvent "TYPE_CHAR" {["char" := VStr "R"]})
          build_grid_spec example_truth = Ok s'
    ∧ grid_letters s' !! (0, 1) = Some "R"
    ∧ (∀ cell, cell ≠ (0, 1) → grid_letters s' !! cell = grid_letters example_state !! cell)
    ∧ (∀ cell, playable build_grid_spec cell → check_marks s' !! cell = Some none)
    ∧ active_cell s' = (1, 1).
Proof.
  destruct (type_char_writes_and_advances example_state example_truth
              {["char" := VStr "R"]} "R"%char
              [(0, 1); (1, 1); (2, 1); (3, 1); (4, 1)] 0%nat)
    as [Hwrite _].
  - exact example_state_inv.
  - reflexivity.
  - vm_compute. split; discriminate.
  - reflexivity.
  - reflexivity.
  - apply Hwrite. vm_compute. intros Hin. discriminate Hin.
Defined.

(** *** C4: backspace *)

(** C4. In a state of the fixed geometry whose active cell is not given
    and is the [i]-th cell of the active slot, BACKSPACE does one of four
    things. If the active cell holds a letter, it clears that letter and
    no other, sets every playable cell's check mark to "none" and leaves
    the active cell where it is. If the active cell is empty and [i] is
    0, it is a no-op tagged "backspace:at_start". If the active cell is
    empty and cell [i-1] of the slot is given, only the active cell
    changes, to that cell (tag "backspace:prev_is_given"). Otherwise the
    active cell moves to cell [i-1], that cell's letter and no other is
    cleared, and every playable cell's check mark becomes "none". *)
Theorem backspace_cases s t p cells (i : nat) :
  state_inv build_grid_spec s →
  active_cell s ∉ given_cells s →
  dict_get (slots build_grid_spec) (active_slot s) = Ok cells →
  cells !! i = Some (active_cell s) →
  (default "" (grid_letters s !! active_cell s) ≠ "" →
     ∃ s', reduce s (mkGridEvent "BACKSPACE" p) build_grid_spec t = Ok s'
       ∧ grid_letters s' !! active_cell s = Some ""
       ∧ (∀ cell, cell ≠ active_cell s → grid_letters s' !! cell = grid_letters s !! cell)
       ∧ (∀ cell, playable build_grid_spec cell → check_marks s' !! cell = Some none)
       ∧ active_cell s' = active_cell s)
  ∧ (default "" (grid_letters s !! active_cell s) = "" → i = 0%nat →
     reduce s (mkGridEvent "BACKSPACE" p) build_grid_spec t
     = Ok (stamp "backspace:at_start" (mkGridEvent "BACKSPACE" p) s))
  ∧ (∀ j prev,
       default "" (grid_letters s !! active_cell s) = "" → i = S j →
       cells !! j = Some prev → prev ∈ given_cells s →
       reduce s (mkGridEvent "BACKSPACE" p) build_grid_spec t
       = Ok (stamp "backspace:prev_is_given" (mkGridEvent "BACKSPACE" p)
               (set_active_cell prev s)))
  ∧ (∀ j prev,
       default "" (grid_letters s !! active_cell s) = "" → i = S j →
       cells !! j = Some prev → prev ∉ given_cells s →
       ∃ s', reduce s (mkGridEvent "BACKSPACE" p) build_grid_spec t = Ok s'
         ∧ active_cell s' = prev
         ∧ grid_letters s' !! prev = Some ""
         ∧ (∀ cell, cell ≠ prev → grid_letters s' !! cell = grid_letters s !! cell)
         ∧ (∀ cell, playable build_grid_spec cell → check_marks s' !! cell = Some none)).
Proof.
  intros Hinv Hact Hcells Hi.
  pose proof (slot_NoDup_5 _ _ Hcells) as Hnd.
  split; [|split; [|split]].
  - intros Hheld. eexists. split.
    + apply reduce_of_dispatch. rewrite dispatch_backspace by done.
      unfold _on_backspace. rewrite bool_decide_eq_false_2 by done.
      rewrite bool_decide_eq_false_2 by done. cbn [negb]. reflexivity.
    + cbn. split; [by rewrite lookup_insert_eq|].
      split; [by intros cell Hne; rewrite lookup_insert_ne|].
      split; [|done]. intros cell Hcell. by eapply marks_cleared.
  - intros Hheld ->. apply reduce_of_dispatch. rewrite dispatch_backspace by done.
    unfold _on_backspace. rewrite bool_decide_eq_false_2 by done.
    rewrite bool_decide_eq_true_2 by done. cbn [negb].
    rewrite (advance_prev_first _ _ _ _ Hcells Hnd Hi). bind_step.
    by rewrite bool_decide_eq_true_2 by done.
  - intros j prev Hheld -> Hj Hprev.
    destruct (advance_prev _ _ _ _ _ _ Hcells Hnd Hi Hj) as [Hadv Hne].
    rewrite (reduce_of_dispatch s _ _ _
               (set_last_action "backspace:prev_is_given" (set_active_cell prev s)));
      [reflexivity|].
    rewrite dispatch_backspace by done.
    unfold _on_backspace. rewrite bool_decide_eq_false_2 by done.
    rewrite bool_decide_eq_true_2 by done. cbn [negb].
    rewrite Hadv. bind_step. rewrite bool_decide_eq_false_2 by done.
    by rewrite bool_decide_eq_true_2 by done.
  - intros j prev Hheld -> Hj Hprev.
    destruct (advance_prev _ _ _ _ _ _ Hcells Hnd Hi Hj) as [Hadv Hne].
    eexists. split.
    + apply reduce_of_dispatch. rewrite dispatch_backspace by done.
      unfold _on_backspace. rewrite bool_decide_eq_false_2 by done.
      rewrite bool_decide_eq_true_2 by done. cbn [negb].
      rewrite Hadv. bind_step. rewrite bool_decide_eq_false_2 by done.
      rewrite bool_decide_eq_false_2 by done. reflexivity.
    + cbn. split; [done|]. split; [by rewrite lookup_insert_eq|].
      split; [by intros cell Hc; rewrite lookup_insert_ne|].
      intros cell Hcell. by eapply marks_cleared.
Qed.

Lemma backspace_cases_witness :
  ∃ s', reduce example_typed (mkGridEvent "BACKSPACE" ∅) build_grid_spec example_truth = Ok s'
    ∧ active_cell s' = (1, 1)
    ∧ grid_letters s' !! (1, 1) = Some ""
    ∧ (∀ cell, cell ≠ (1, 1) → grid_letters s' !! cell = grid_letters example_typed !! cell)
    ∧ (∀ cell, playable build_grid_spec cell → check_marks s' !! cell = Some none).
Proof.
  destruct (backspace_cases example_typed example_truth ∅
              [(0, 1); (1, 1); (2, 1); (3, 1); (4, 1)] 2%nat)
    as (_ & _ & _ & Hmove).
  - exact example_typed_inv.
  - vm_compute. intros Hin. discriminate Hin.
  - reflexivity.
  - reflexivity.
  - apply (Hmove 1%nat (1, 1)).
    + vm_compute. reflexivity.
    + reflexivity.
    + reflexivity.
    + vm_compute. intros Hin. discriminate Hin.
Defined.

(** *** C5: the sequence-number merge *)









(** *** C6: clicking a cell *)

Lemma crossing_5 cell :
  crossing build_grid_spec cell → cell ∈ [(1, 1); (1, 3); (3, 1); (3, 3)].
Proof.
  intros [[(ch & Hh & Hinh)|(ch & Hh & Hinh)] [(cv & Hv & Hinv)|(cv & Hv & Hinv)]];
    apply Ok_inj in Hh, Hv; subst ch cv;
    apply list_elem_of_In in Hinh, Hinv; vm_compute in Hinh, Hinv;
    repeat (destruct Hinh as [<-|Hinh];
            [repeat (destruct Hinv as [Hinv|Hinv];
                     [first [discriminate Hinv | apply list_elem_of_In; cbn; tauto]|]);
             destruct Hinv|]);
    destruct Hinh.
Qed.

Lemma crossing_memberships cell o :
  crossing build_grid_spec cell →
  has_h (default [] (cell_to_slots build_grid_spec !! cell))
  && has_v (default [] (cell_to_slots build_grid_spec !! cell)) = true
  ∧ playable build_grid_spec cell
  ∧ slot_orientation (_resolve_active_slot build_grid_spec cell o false) = Some o.
Proof.
  intros Hcross. apply crossing_5, list_elem_of_In in Hcross. cbn in Hcross.
  repeat (destruct Hcross as [<-|Hcross]; [by destruct o|]). destruct Hcross.
Qed.

Lemma click_playable s p cell :
  parse_cell_id (get_str p "cell_id") = Some cell →
  playable build_grid_spec cell →
  _on_click_cell s p build_grid_spec =
  let new_orientation :=
    if decide (cell = active_cell s) then
      if has_h (default [] (cell_to_slots build_grid_spec !! cell))
         && has_v (default [] (cell_to_slots build_grid_spec !! cell))
      then flip (orientation s) else orientation s
    else orientation s in
  Ok (set_last_action "click"
        (set_active_slot (_resolve_active_slot build_grid_spec cell new_orientation false)
           (set_orientation new_orientation (set_active_cell cell s)))).
Proof.
  intros Hparse Hplay. unfold _on_click_cell. rewrite Hparse, Hplay. reflexivity.
Qed.

Lemma flip_flip o : flip (flip o) = o.
Proof. by destruct o. Qed.

Lemma flip_neq o : flip o ≠ o.
Proof. by destruct o. Qed.

(** C6. On the fixed geometry, a CLICK_CELL whose cell id names the
    active cell, when that cell lies on an across and on a down slot,
    flips the orientation and resolves the active slot anew (the slot
    through the cell in the new direction); the same click once more
    brings the original orientation back, with the slot resolved for it.
    A CLICK_CELL on a playable cell other than the active one moves there
    and leaves the orientation as it was. *)
Theorem click_cell_orientation s t p cell :
  parse_cell_id (get_str p "cell_id") = Some cell →
  (cell = active_cell s → crossing build_grid_spec cell →
     ∃ s1 s2,
       reduce s (mkGridEvent "CLICK_CELL" p) build_grid_spec t = Ok s1
       ∧ orientation s1 = flip (orientation s)
       ∧ orientation s1 ≠ orientation s
       ∧ active_cell s1 = cell
       ∧ active_slot s1 = _resolve_active_slot build_grid_spec cell (orientation s1) false
       ∧ slot_orientation (active_slot s1) = Some (orientation s1)
       ∧ reduce s1 (mkGridEvent "CLICK_CELL" p) build_grid_spec t = Ok s2
       ∧ orientation s2 = orientation s
       ∧ active_cell s2 = cell
       ∧ active_slot s2 = _resolve_active_slot build_grid_spec cell (orientation s) false
       ∧ slot_orientation (active_slot s2) = Some (orientation s))
  ∧ (cell ≠ active_cell s → playable build_grid_spec cell →
     ∃ s1,
       reduce s (mkGridEvent "CLICK_CELL" p) build_grid_spec t = Ok s1
       ∧ orientation s1 = orientation s
       ∧ active_cell s1 = cell).
Proof.
  intros Hparse. split.
  - intros Hact Hcross.
    destruct (crossing_memberships cell (flip (orientation s)) Hcross) as (Hboth & Hplay & Hslot1).
    destruct (crossing_memberships cell (orientation s) Hcross) as (_ & _ & Hslot2).
    eexists _, _. split.
    { apply reduce_of_dispatch. rewrite dispatch_click by done. cbn [payload].
      rewrite (click_playable _ _ _ Hparse Hplay). cbn zeta.
      rewrite decide_True by done. rewrite Hboth. reflexivity. }
    state_simpl. split; [done|]. split; [apply flip_neq|]. split; [done|].
    split; [done|]. split; [done|]. split.
    { apply reduce_of_dispatch. rewrite dispatch_click by done. cbn [payload].
      rewrite (click_playable _ _ _ Hparse Hplay). cbn zeta. state_simpl.
      rewrite decide_True by done. rewrite Hboth, flip_flip. reflexivity. }
    state_simpl. done.
  - intros Hne Hplay. eexists. split.
    { apply reduce_of_dispatch. rewrite dispatch_click by done. cbn [payload].
      rewrite (click_playable _ _ _ Hparse Hplay). cbn zeta.
      rewrite decide_False by done. reflexivity. }
    state_simpl. done.
Qed.

Lemma example_crossing_run :
  reduce example_state (mkGridEvent "ARROW" {["dir" := VStr "down"]})
    build_grid_spec example_truth
  = Ok example_crossing.
Proof. vm_compute. reflexivity. Qed.

Lemma click_cell_orientation_witness :
  ∃ s1 s2,
    reduce example_crossing (mkGridEvent "CLICK_CELL" {["cell_id" := VStr "1,1"]})
      build_grid_spec example_truth = Ok s1
    ∧ orientation s1 = flip (orientation example_crossing)
    ∧ orientation s1 ≠ orientation example_crossing
    ∧ active_cell s1 = (1, 1)
    ∧ active_slot s1 = _resolve_active_slot build_grid_spec (1, 1) (orientation s1) false
    ∧ slot_orientation (active_slot s1) = Some (orientation s1)
    ∧ reduce s1 (mkGridEvent "CLICK_CELL" {["cell_id" := VStr "1,1"]})
        build_grid_spec example_truth = Ok s2
    ∧ orientation s2 = orientation example_crossing
    ∧ active_cell s2 = (1, 1)
    ∧ active_slot s2
      = _resolve_active_slot build_grid_spec (1, 1) (orientation example_crossing) false
    ∧ slot_orientation (active_slot s2) = Some (orientation example_crossing).
Proof.
  destruct (click_cell_orientation example_crossing example_truth
              {["cell_id" := VStr "1,1"]} (1, 1)) as [Hsame _].
  - reflexivity.
  - apply Hsame; [reflexivity|]. split.
    + left. eexists. split; [reflexivity|]. apply list_elem_of_In. vm_compute. tauto.
    + left. eexists. split; [reflexivity|]. apply list_elem_of_In. vm_compute. tauto.
Defined.

(** *** C7: TAB and SHIFT_TAB *)

(** C7. On the fixed geometry, from a state whose active slot is the
    [i]-th of [h1; h2; v1; v2; hw], TAB makes the slot of index
    [(i+1) mod 5] active and SHIFT_TAB the slot of index [(i-1) mod 5];
    the active cell becomes the first cell of the new slot; the
    orientation becomes the direction of the new slot when it is an
    across or a down slot, and stays what it was when the new slot is
    the hidden word. *)
Theorem tab_cycles_slots s t p (i : nat) :
  SLOT_ORDER !! i = Some (active_slot s) →
  (∃ s' cells,
     reduce s (mkGridEvent "TAB" p) build_grid_spec t = Ok s'
     ∧ SLOT_ORDER !! Z.to_nat ((Z.of_nat i + 1) `mod` 5) = Some (active_slot s')
     ∧ dict_get (slots build_grid_spec) (active_slot s') = Ok cells
     ∧ cells !! 0%nat = Some (active_cell s')
     ∧ orientation s' = default (orientation s) (slot_orientation (active_slot s')))
  ∧ (∃ s' cells,
     reduce s (mkGridEvent "SHIFT_TAB" p) build_grid_spec t = Ok s'
     ∧ SLOT_ORDER !! Z.to_nat ((Z.of_nat i - 1) `mod` 5) = Some (active_slot s')
     ∧ dict_get (slots build_grid_spec) (active_slot s') = Ok cells
     ∧ cells !! 0%nat = Some (active_cell s')
     ∧ orientation s' = default (orientation s) (slot_orientation (active_slot s'))).
Proof.
  intros Hi.
  assert (∀ forward, ∃ s' cells,
            _on_tab s build_grid_spec forward = Ok s'
            ∧ SLOT_ORDER !! Z.to_nat ((Z.of_nat i + (if forward then 1 else -1)) `mod` 5)
              = Some (active_slot s')
            ∧ dict_get (slots build_grid_spec) (active_slot s') = Ok cells
            ∧ cells !! 0%nat = Some (active_cell s')
            ∧ orientation s' = default (orientation s) (slot_orientation (active_slot s')))
    as Htab.
  { intros forward. unfold _on_tab.
    do 5 (destruct i as [|i]; [injection Hi as <-; destruct forward;
            eexists _, _; (split; [reflexivity|]); repeat split|]).
    discriminate Hi. }
  split.
  - destruct (Htab true) as (s' & cells & Hs' & Hrest).
    eexists _, cells. split.
    + apply reduce_of_dispatch. rewrite dispatch_tab by done. exact Hs'.
    + exact Hrest.
  - destruct (Htab false) as (s' & cells & Hs' & Hrest).
    eexists _, cells. split.
    + apply reduce_of_dispatch. rewrite dispatch_shift_tab by done. exact Hs'.
    + exact Hrest.
Qed.

Lemma tab_cycles_slots_witness :
  (∃ s' cells,
     reduce example_state (mkGridEvent "TAB" ∅) build_grid_spec example_truth = Ok s'
     ∧ SLOT_ORDER !! 3%nat = Some (active_slot s')
     ∧ dict_get (slots build_grid_spec) (active_slot s') = Ok cells
     ∧ cells !! 0%nat = Some (active_cell s')
     ∧ orientation s'
       = default (orientation example_state) (slot_orientation (active_slot s')))
  ∧ (∃ s' cells,
     reduce example_state (mkGridEvent "SHIFT_TAB" ∅) build_grid_spec example_truth = Ok s'
     ∧ SLOT_ORDER !! 1%nat = Some (active_slot s')
     ∧ dict_get (slots build_grid_spec) (active_slot s') = Ok cells
     ∧ cells !! 0%nat = Some (active_cell s')
     ∧ orientation s'
       = default (orientation example_state) (slot_orientation (active_slot s'))).
Proof.
  apply (tab_cycles_slots example_state example_truth ∅ 2%nat). reflexivity.
Defined.

(** *** C8: the arrow keys *)

Lemma out_of_bounds_inside r c :
  (r <? 0) || (c <? 0) || (r >=? size build_grid_spec) || (c >=? size build_grid_spec) = false
  ↔ inside build_grid_spec (r, c).
Proof.
  unfold inside. cbn [fst snd]. rewrite !orb_false_iff, !Z.ltb_ge, !Z.geb_leb, !Z.leb_gt. lia.
Qed.

Lemma blank_before_shift cell dr dc k :
  blank_before build_grid_spec cell dr dc k →
  blank_before build_grid_spec (ray cell dr dc 1) dr dc (k - 1).
Proof.
  intros Hblank j Hj. destruct (Hblank (j + 1)) as [Hin Hplay]; [lia|].
  assert (ray (ray cell dr dc 1) dr dc j = ray cell dr dc (j + 1)) as ->; [|done].
  unfold ray. cbn [fst snd]. f_equal; ring.
Qed.

Lemma ray_shift cell dr dc k :
  ray (ray cell dr dc 1) dr dc (k - 1) = ray cell dr dc k.
Proof. unfold ray. cbn [fst snd]. f_equal; ring. Qed.

Lemma ray_one r c dr dc : ray (r, c) dr dc 1 = (r + dr, c + dc).
Proof. unfold ray. cbn [fst snd]. f_equal; ring. Qed.

Lemma arrow_loop_leaves s d dr dc o (n : nat) r c k :
  1 <= k <= Z.of_nat n →
  blank_before build_grid_spec (r, c) dr dc k →
  ¬ inside build_grid_spec (ray (r, c) dr dc k) →
  arrow_loop s build_grid_spec d dr dc o n r c
  = Ok (set_last_action "arrow:edge"
          (set_active_slot (_resolve_active_slot build_grid_spec (active_cell s) o false)
             (set_orientation o s))).
Proof.
  revert r c k. induction n as [|n IH]; intros r c k Hk Hblank Hout; [lia|].
  cbn [arrow_loop]. destruct (decide (k = 1)) as [->|Hk1].
  - rewrite ray_one in Hout. apply (not_iff_compat (out_of_bounds_inside _ _)) in Hout.
    by destruct (_ || _).
  - destruct (Hblank 1) as [Hin Hplay]; [lia|]. rewrite ray_one in Hin, Hplay.
    apply out_of_bounds_inside in Hin. rewrite Hin, Hplay. bind_step.
    apply (IH _ _ (k - 1)); [lia| |].
    + rewrite <- ray_one. by apply blank_before_shift.
    + by rewrite <- ray_one, ray_shift.
Qed.

Lemma arrow_loop_finds s d dr dc o (n : nat) r c k target :
  1 <= k <= Z.of_nat n →
  blank_before build_grid_spec (r, c) dr dc k →
  inside build_grid_spec (ray (r, c) dr dc k) →
  ray (r, c) dr dc k = target → playable build_grid_spec target →
  arrow_loop s build_grid_spec d dr dc o n r c
  = Ok (set_last_action ("arrow:" +:+ lower d)
          (set_active_slot (_resolve_active_slot build_grid_spec target o false)
             (set_orientation o (set_active_cell target s)))).
Proof.
  revert r c k. induction n as [|n IH]; intros r c k Hk Hblank Hin Htarget Hplay; [lia|].
  cbn [arrow_loop]. destruct (decide (k = 1)) as [->|Hk1].
  - rewrite ray_one in Hin, Htarget. apply out_of_bounds_inside in Hin.
    rewrite Hin, Htarget, Hplay. reflexivity.
  - destruct (Hblank 1) as [Hin1 Hplay1]; [lia|]. rewrite ray_one in Hin1, Hplay1.
    apply out_of_bounds_inside in Hin1. rewrite Hin1, Hplay1. bind_step.
    apply (IH _ _ (k - 1)); [lia| | | |done].
    + rewrite <- ray_one. by apply blank_before_shift.
    + by rewrite <- ray_one, ray_shift.
    + by rewrite <- ray_one, ray_shift.
Qed.

(** A ray stays inside the 5×5 grid for fewer than six steps. *)
Lemma blank_before_short cell d dr dc o k :
  (d, (dr, dc, o)) ∈ arrow_table → 1 <= k →
  blank_before build_grid_spec cell dr dc k → k <= 6.
Proof.
  intros Hd Hk Hblank. destruct (decide (k <= 6)) as [|Hbig]; [done|exfalso].
  destruct (Hblank 1) as [[Hr1 Hc1] _]; [lia|].
  destruct (Hblank 6) as [[Hr6 Hc6] _]; [lia|].
  unfold ray in *. cbn [fst snd] in *. change (size build_grid_spec) with 5 in *.
  apply list_elem_of_In in Hd. cbn in Hd.
  repeat (destruct Hd as [[= <- <- <- <-]|Hd]; [lia|]). destruct Hd.
Qed.

Lemma step_dir_table d dr dc o :
  (d, (dr, dc, o)) ∈ arrow_table →
  _step_dir d = (dr, dc, o) ∧ (dr =? 0) && (dc =? 0) = false.
Proof.
  intros Hd. apply list_elem_of_In in Hd. cbn in Hd.
  repeat (destruct Hd as [[= <- <- <- <-]|Hd]; [by split|]). destruct Hd.
Qed.

Lemma scan_progress cell dr dc (n : nat) :
  leaves_grid build_grid_spec cell dr dc
  ∨ (∃ target, finds build_grid_spec cell dr dc target)
  ∨ blank_before build_grid_spec cell dr dc (Z.of_nat n + 1).
Proof.
  induction n as [|n [Hleave|[Hfind|Hblank]]]; [|by left|by right; left|].
  - right; right. intros j Hj. lia.
  - destruct (decide (0 <= (ray cell dr dc (Z.of_nat n + 1)).1 < size build_grid_spec
                      ∧ 0 <= (ray cell dr dc (Z.of_nat n + 1)).2 < size build_grid_spec))
      as [Hin|Hout].
    + destruct (playable5 (ray cell dr dc (Z.of_nat n + 1))) eqn:Hplay.
      * right; left. exists (ray cell dr dc (Z.of_nat n + 1)), (Z.of_nat n + 1).
        split; [lia|]. split; [done|]. split; [done|]. split; [done|].
        unfold playable. by rewrite is_playable_5, Hplay.
      * right; right. intros j Hj.
        destruct (decide (j = Z.of_nat n + 1)) as [->|Hne].
        -- split; [done|]. by rewrite is_playable_5, Hplay.
        -- apply Hblank. lia.
    + left. exists (Z.of_nat n + 1). split; [lia|]. by split.
Qed.

(** C8. On the fixed geometry, an ARROW event whose direction is LEFT,
    RIGHT, UP or DOWN (in any case) steps from the active cell. When the
    steps cross the boundary of the grid before they meet a playable
    cell, the active cell stays, the orientation becomes the one the
    direction implies, the active slot is resolved at the unchanged
    active cell for that orientation, and [last_action] is "arrow:edge".
    When the steps meet a playable cell first, the active cell moves
    there, with the implied orientation and the active slot resolved at
    the new cell. One of the two always happens. *)
Theorem arrow_moves_or_stops s t p d dr dc o :
  (d, (dr, dc, o)) ∈ arrow_table →
  upper (get_str p "dir") = d →
  (leaves_grid build_grid_spec (active_cell s) dr dc →
     ∃ s', reduce s (mkGridEvent "ARROW" p) build_grid_spec t = Ok s'
       ∧ active_cell s' = active_cell s
       ∧ orientation s' = o
       ∧ active_slot s' = _resolve_active_slot build_grid_spec (active_cell s) o false
       ∧ last_action s' = "arrow:edge")
  ∧ (∀ target, finds build_grid_spec (active_cell s) dr dc target →
     ∃ s', reduce s (mkGridEvent "ARROW" p) build_grid_spec t = Ok s'
       ∧ active_cell s' = target
       ∧ orientation s' = o
       ∧ active_slot s' = _resolve_active_slot build_grid_spec target o false
       ∧ last_action s' = "arrow:" +:+ lower d)
  ∧ (leaves_grid build_grid_spec (active_cell s) dr dc
     ∨ ∃ target, finds build_grid_spec (active_cell s) dr dc target).
Proof.
  intros Hd Hdir. destruct (step_dir_table _ _ _ _ Hd) as [Hstep Hnz].
  assert (∀ out,
            arrow_loop s build_grid_spec d dr dc o 25 (active_cell s).1 (active_cell s).2
            = Ok out →
            ∃ s', reduce s (mkGridEvent "ARROW" p) build_grid_spec t = Ok s'
                  ∧ active_cell s' = active_cell out ∧ orientation s' = orientation out
                  ∧ active_slot s' = active_slot out ∧ last_action s' = last_action out)
    as Hrun.
  { intros out Hout. eexists. split.
    - apply reduce_of_dispatch. rewrite dispatch_arrow by done.
      unfold _on_arrow. cbn [payload]. rewrite Hdir, Hstep, Hnz.
      destruct (active_cell s) as [r c]. exact Hout.
    - by state_simpl. }
  split; [|split].
  - intros (k & Hk & Hblank & Hout).
    pose proof (blank_before_short _ _ _ _ _ _ Hd Hk Hblank) as Hshort.
    destruct (active_cell s) as [r c] eqn:Hcell.
    destruct (Hrun _ (arrow_loop_leaves s d dr dc o 25 r c k ltac:(lia) Hblank Hout))
      as (s' & Hs' & Hprops).
    exists s'. split; [done|]. revert Hprops. state_simpl. by rewrite Hcell.
  - intros target (k & Hk & Hblank & Hin & Htarget & Hplay).
    pose proof (blank_before_short _ _ _ _ _ _ Hd Hk Hblank) as Hshort.
    destruct (active_cell s) as [r c] eqn:Hcell.
    destruct (Hrun _ (arrow_loop_finds s d dr dc o 25 r c k target
                        ltac:(lia) Hblank Hin Htarget Hplay))
      as (s' & Hs' & Hprops).
    exists s'. split; [done|]. revert Hprops. by state_simpl.
  - destruct (scan_progress (active_cell s) dr dc 6) as [Hleave|[Hfind|Hblank]];
      [by left|by right|].
    pose proof (blank_before_short _ _ _ _ _ (Z.of_nat 6 + 1) Hd ltac:(lia) Hblank). lia.
Qed.

Lemma arrow_moves_or_stops_witness :
  ∃ s', reduce example_state (mkGridEvent "ARROW" {["dir" := VStr "up"]})
          build_grid_spec example_truth = Ok s'
    ∧ active_cell s' = active_cell example_state
    ∧ orientation s' = OrientV
    ∧ active_slot s'
      = _resolve_active_slot build_grid_spec (active_cell example_state) OrientV false
    ∧ last_action s' = "arrow:edge".
Proof.
  destruct (arrow_moves_or_stops example_state example_truth {["dir" := VStr "up"]}
              "UP" (-1) 0 OrientV) as (Hedge & _ & _).
  - apply list_elem_of_In. cbn. tauto.
  - reflexivity.
  - apply Hedge. exists 1. split; [lia|]. split.
    + intros j Hj. lia.
    + vm_compute. intros [[Hneg _] _]. by apply Hneg.
Defined.

(** *** C9: the initial state *)

(** C9. On the fixed geometry, for every puzzle, [init_state] returns a
    state in which every playable cell that is not a seeded given holds
    the empty letter (a given holds its one uppercase letter), every
    playable cell's check mark is "none", the orientation is across, the
    active cell is the first playable cell of a row-major scan, (0, 1),
    which lies on the down slot v1 and on no other slot, and the active
    slot is that down slot: the resolution, asked for across and not
    preferring the hidden word, falls back to it. *)
Theorem init_state_first_cell puzzle fresh :
  ∃ s, init_state puzzle build_grid_spec fresh = Ok s
    ∧ (∀ cell, playable build_grid_spec cell → cell ∉ given_cells s →
         grid_letters s !! cell = Some "")
    ∧ (∀ cell, cell ∈ given_cells s →
         ∃ a, grid_letters s !! cell = Some (String a EmptyString) ∧ 65 <= code a <= 90)
    ∧ (∀ cell, playable build_grid_spec cell → check_marks s !! cell = Some none)
    ∧ orientation s = OrientH
    ∧ first_playable_cell build_grid_spec = Ok (active_cell s)
    ∧ first_in_row_major build_grid_spec (active_cell s)
    ∧ (∀ sid, in_slot build_grid_spec sid (active_cell s) ↔ sid = v1)
    ∧ _resolve_active_slot build_grid_spec (active_cell s) OrientH false = v1
    ∧ active_slot s = v1.
Proof.
  destruct (init_state_5_shape puzzle fresh) as (letters & given & Hok & Hinit).
  eexists. split; [exact Hinit|]. cbn.
  pose proof Hok as (Hdom & Hgiven & Hrest). cbn [fst snd] in *.
  split; [|split; [|split; [|split; [|split; [|split; [|split; [|split]]]]]]].
  - intros cell Hcell Hnot. apply Hrest; [|done].
    by apply elem_of_list_to_set, playable_5.
  - done.
  - intros cell Hcell. rewrite lookup_fmap.
    apply (seeded_dom_playable letters given) in Hcell as [l ->]; done.
  - done.
  - reflexivity.
  - split; [by apply playable_5; apply list_elem_of_In; cbn; tauto|].
    intros [r c] Hother. apply playable_5, list_elem_of_In in Hother. cbn in Hother.
    unfold row_major_le. cbn.
    repeat (destruct Hother as [[= <- <-]|Hother]; [lia|]). destruct Hother.
  - apply in_slot_first_cell.
  - reflexivity.
  - reflexivity.
Qed.

(** *** C10: lowercase input *)

Lemma upper_char_lower a :
  97 <= code a <= 122 → 65 <= code (upper_char a) <= 90 ∧ code (upper_char a) = code a - 32.
Proof.
  intros Ha. rewrite upper_char_code by lia.
  destruct (Z.leb_spec 97 (code a)), (Z.leb_spec (code a) 122); cbn [andb]; lia.
Qed.

Lemma type_char_payload s g p p' :
  upper (get_str p "char") = upper (get_str p' "char") →
  _on_type_char s p g = _on_type_char s p' g.
Proof. intros Heq. unfold _on_type_char. by rewrite Heq. Qed.

(** C10. A TYPE_CHAR event whose char is one lowercase letter a–z is
    reduced, on any geometry, to the very result of the same event with
    the letter in upper case; on the fixed geometry, when the active
    cell is not given, the reducer returns and the active cell then
    holds that uppercase letter. *)
Theorem type_char_lowercase s g t p a :
  97 <= code a <= 122 →
  p !! "char" = Some (VStr (String a EmptyString)) →
  reduce s (mkGridEvent "TYPE_CHAR" p) g t
  = reduce s (mkGridEvent "TYPE_CHAR" (<["char" := VStr (String (upper_char a) EmptyString)]> p))
      g t
  ∧ 65 <= code (upper_char a) <= 90
  ∧ code (upper_char a) = code a - 32
  ∧ (active_cell s ∉ given_cells s →
     ∃ s', reduce s (mkGridEvent "TYPE_CHAR" p) build_grid_spec t = Ok s'
           ∧ grid_letters s' !! active_cell s = Some (String (upper_char a) EmptyString)).
Proof.
  intros Ha Hp. destruct (upper_char_lower a Ha) as [Hup Hcode].
  assert (upper (get_str p "char") = String (upper_char a) EmptyString) as Hch
    by (unfold get_str; rewrite Hp; cbn [str_of]; by rewrite upper_single by lia).
  split; [|split; [done|split; [done|]]].
  - rewrite !reduce_dispatch, !dispatch_type_char by done. cbn [payload].
    rewrite (type_char_payload s g p
               (<["char" := VStr (String (upper_char a) EmptyString)]> p)).
    + unfold merged_seq, client_seq_int. by rewrite lookup_insert_ne.
    + rewrite Hch. unfold get_str. rewrite lookup_insert_eq. cbn [str_of].
      by rewrite upper_single, (upper_char_of_upper (upper_char a)) by lia.
  - intros Hgiven.
    destruct (advance_total_5 (active_slot s) (active_cell s) 1) as [next Hnext].
    eexists. split.
    + apply reduce_of_dispatch. rewrite dispatch_type_char by done.
      unfold _on_type_char. cbn [payload].
      rewrite type_char_accepts
        by (unfold get_str; rewrite Hp; exists a; split; [done|by right]).
      rewrite Hch, bool_decide_eq_false_2 by done. rewrite Hnext. bind_step. reflexivity.
    + state_simpl. by rewrite lookup_insert_eq.
Qed.

Lemma type_char_lowercase_witness :
  reduce example_state (mkGridEvent "TYPE_CHAR" {["char" := VStr "r"]})
    build_grid_spec example_truth
  = reduce example_state
      (mkGridEvent "TYPE_CHAR" (<["char" := VStr "R"]> {["char" := VStr "r"]}))
      build_grid_spec example_truth
  ∧ ∃ s', reduce example_state (mkGridEvent "TYPE_CHAR" {["char" := VStr "r"]})
            build_grid_spec example_truth = Ok s'
          ∧ grid_letters s' !! (0, 1) = Some "R".
Proof.
  destruct (type_char_lowercase example_state build_grid_spec example_truth
              {["char" := VStr "r"]} "r"%char) as (Hsame & _ & _ & Hstore).
  - vm_compute. split; discriminate.
  - reflexivity.
  - split; [exact Hsame|]. apply Hstore. vm_compute. intros Hin. discriminate Hin.
Defined.

(** ** Further properties of the code *)

(** *** The reducer as a whole *)

(** X1. On the fixed geometry the reducer never raises: every event,
    whatever its type and payload, applied to any state with any truth
    map, returns a state; so does every sequence of events. *)
Theorem reduce_never_raises s e es t :
  (∃ s', reduce s e build_grid_spec t = Ok s')
  ∧ (∃ s', reduce_events s es build_grid_spec t = Ok s').
Proof.
  split.
  - destruct (reduce_total_5 s e t) as (out & _ & Hred). eauto.
  - apply reduce_events_total_5.
Qed.

(** X2. On any geometry, a state the reducer returns has the puzzle
    identifier, the state identifier and the given cells of the state it
    was given: only initialization makes a new lineage. *)
Theorem reduce_keeps_lineage s e g t s' :
  reduce s e g t = Ok s' →
  puzzle_id s' = puzzle_id s ∧ state_id s' = state_id s ∧ given_cells s' = given_cells s.
Proof.
  rewrite reduce_dispatch. intros Hs'. apply bind_Ok in Hs' as (out & Hout & Hs').
  apply Ok_inj in Hs'. subst s'. state_simpl.
  destruct (dispatch_frame _ _ _ _ _ Hout) as (Hp & Hs & Hg & _). done.
Qed.

Lemma reduce_keeps_lineage_witness :
  puzzle_id example_crossing = puzzle_id example_state
  ∧ state_id example_crossing = state_id example_state
  ∧ given_cells example_crossing = given_cells example_state.
Proof.
  exact (reduce_keeps_lineage example_state
           (mkGridEvent "ARROW" {["dir" := VStr "down"]})
           build_grid_spec example_truth example_crossing example_crossing_run).
Defined.

(** X3. Every state reachable from the initial state of a puzzle, under
    the truth map built from a puzzle, satisfies the invariants of the
    data model: letters and check marks are defined exactly on the
    playable cells, given cells are playable, and the active cell is a
    playable cell of the active slot. *)
Theorem reachable_states_well_formed puzzle t s :
  build_truth_map puzzle build_grid_spec = Ok t →
  reachable build_grid_spec t s →
  state_inv build_grid_spec s ∧ playable build_grid_spec (active_cell s).
Proof.
  intros Ht Hreach.
  assert (state_inv build_grid_spec s) as Hinv
    by (eapply reachable_inv; [by eapply build_truth_map_within|done]).
  split; [done|]. eapply in_slot_playable_5, Hinv.
Qed.

Lemma reachable_states_well_formed_witness :
  state_inv build_grid_spec example_crossing
  ∧ playable build_grid_spec (active_cell example_crossing).
Proof.
  apply (reachable_states_well_formed example_puzzle example_truth example_crossing).
  - vm_compute. reflexivity.
  - eapply reachable_step; [|exact example_crossing_run].
    eapply reachable_init. exact example_state_init.
Defined.

(** *** What each kind of event leaves alone *)

Lemma arrow_loop_keeps_content s g d dr dc o n r c out :
  arrow_loop s g d dr dc o n r c = Ok out →
  grid_letters out = grid_letters s ∧ check_marks out = check_marks s.
Proof.
  revert r c. induction n as [|n IH]; intros r c; cbn [arrow_loop].
  - by from_ok out.
  - destruct (_ || _); [by from_ok out|].
    destruct (is_playable g (r + dr, c + dc)) as [[|]|]; bind_step; [by from_ok out| |done].
    apply IH.
Qed.

(** X4. On any geometry, the events that move the focus (CLICK_CELL,
    ARROW, TAB, SHIFT_TAB, TOGGLE_ORIENTATION) change no letter and no
    check mark. *)
Theorem navigation_keeps_content s e g t s' :
  type e ∈ navigation_types →
  reduce s e g t = Ok s' →
  grid_letters s' = grid_letters s ∧ check_marks s' = check_marks s.
Proof.
  intros Hty. rewrite reduce_dispatch. intros Hs'.
  apply bind_Ok in Hs' as (out & Hout & Hs'). apply Ok_inj in Hs'. subst s'. state_simpl.
  apply list_elem_of_In in Hty. cbn in Hty.
  destruct Hty as [Hty|[Hty|[Hty|[Hty|[Hty|[]]]]]]; symmetry in Hty.
  - rewrite dispatch_click in Hout by done. unfold _on_click_cell in Hout.
    destruct (parse_cell_id _); [|by revert Hout; from_ok out].
    destruct (is_playable g _) as [[|]|]; revert Hout; bind_step; [| |done];
      by from_ok out.
  - rewrite dispatch_arrow in Hout by done. unfold _on_arrow in Hout.
    destruct (_step_dir _) as [[dr dc] o].
    destruct ((dr =? 0) && (dc =? 0)); [by revert Hout; from_ok out|].
    destruct (active_cell s). by eapply arrow_loop_keeps_content.
  - rewrite dispatch_tab in Hout by done. unfold _on_tab in Hout.
    apply bind_Ok in Hout as (slot & _ & Hout). apply bind_Ok in Hout as (cells & _ & Hout).
    apply bind_Ok in Hout as (first & _ & Hout). by revert Hout; from_ok out.
  - rewrite dispatch_shift_tab in Hout by done. unfold _on_tab in Hout.
    apply bind_Ok in Hout as (slot & _ & Hout). apply bind_Ok in Hout as (cells & _ & Hout).
    apply bind_Ok in Hout as (first & _ & Hout). by revert Hout; from_ok out.
  - rewrite dispatch_toggle in Hout by done. unfold _on_toggle_orientation in Hout.
    destruct (negb _); by revert Hout; from_ok out.
Qed.

Lemma navigation_keeps_content_witness :
  grid_letters example_crossing = grid_letters example_state
  ∧ check_marks example_crossing = check_marks example_state.
Proof.
  apply (navigation_keeps_content example_state
           (mkGridEvent "ARROW" {["dir" := VStr "down"]})
           build_grid_spec example_truth example_crossing).
  - apply list_elem_of_In. cbn. tauto.
  - exact example_crossing_run.
Defined.

(** *** Checking answers *)

Lemma judge_mark val expected :
  judge val expected = if bool_decide (val = expected ∧ val ≠ "") then ok else bad.
Proof.
  unfold judge. destruct (decide (val = "")) as [->|Hne].
  - by rewrite bool_decide_eq_false_2 by (by intros [_ ?]).
  - destruct (decide (val = expected)) as [->|Hne'].
    + by rewrite bool_decide_eq_true_2.
    + by rewrite bool_decide_eq_false_2 by (by intros [? _]).
Qed.

Lemma check_cells_lookup s t cells marks cell :
  foldl (check_cell s t) marks cells !! cell =
  match truth t !! cell with
  | Some expected =>
      if bool_decide (cell ∈ cells)
      then Some (judge (default "" (grid_letters s !! cell)) expected)
      else marks !! cell
  | None => marks !! cell
  end.
Proof.
  revert marks. induction cells as [|c cells IH]; intros marks; cbn [foldl].
  - destruct (truth t !! cell); [|done].
    by rewrite bool_decide_eq_false_2 by (by intros ?%elem_of_nil).
  - rewrite IH. unfold check_cell.
    destruct (decide (c = cell)) as [->|Hne].
    + destruct (truth t !! cell) as [expected|]; [|done].
      rewrite (bool_decide_eq_true_2 (cell ∈ cell :: cells)) by left.
      case_bool_decide; [done|]. by rewrite lookup_insert_eq.
    + assert (bool_decide (cell ∈ c :: cells) = bool_decide (cell ∈ cells)) as ->.
      { apply bool_decide_ext. rewrite elem_of_cons. naive_solver. }
      destruct (truth t !! c); [by rewrite lookup_insert_ne|done].
Qed.

Lemma check_puzzle_lookup s g t cell :
  check_marks (check_puzzle s g t) !! cell =
  match truth t !! cell with
  | Some expected => Some (judge (default "" (grid_letters s !! cell)) expected)
  | None => check_marks s !! cell
  end.
Proof.
  unfold check_puzzle. state_simpl.
  apply (map_fold_weak_ind
           (fun r (m : gmap Cell string) =>
              r !! cell =
              match m !! cell with
              | Some expected => Some (judge (default "" (grid_letters s !! cell)) expected)
              | None => check_marks s !! cell
              end)).
  - by rewrite lookup_empty.
  - intros c x m r Hfresh IH. destruct (decide (c = cell)) as [->|Hne].
    + by rewrite !lookup_insert_eq.
    + by rewrite !lookup_insert_ne.
Qed.

(** X5. On any geometry, REQUEST_CHECK_WORD, when it returns, has
    marked every cell of the active slot that the truth map knows: "ok"
    when the cell holds the expected letter, "bad" when it is empty or
    holds another letter. Every other cell keeps its mark; no letter
    changes and the focus stays. *)
Theorem check_word_marks s e g t s' :
  type e = "REQUEST_CHECK_WORD" →
  reduce s e g t = Ok s' →
  ∃ cells,
    dict_get (slots g) (active_slot s) = Ok cells
    ∧ (∀ cell expected, cell ∈ cells → truth t !! cell = Some expected →
         check_marks s' !! cell =
         Some (if bool_decide (default "" (grid_letters s !! cell) = expected
                               ∧ default "" (grid_letters s !! cell) ≠ "")
               then ok else bad))
    ∧ (∀ cell, cell ∉ cells ∨ truth t !! cell = None →
         check_marks s' !! cell = check_marks s !! cell)
    ∧ grid_letters s' = grid_letters s
    ∧ active_cell s' = active_cell s ∧ active_slot s' = active_slot s
    ∧ orientation s' = orientation s.
Proof.
  intros Hty. rewrite reduce_dispatch, dispatch_check_word by done. intros Hs'.
  apply bind_Ok in Hs' as (out & Hout & Hs'). apply Ok_inj in Hs'. subst s'.
  unfold check_word in Hout. apply bind_Ok in Hout as (cells & Hcells & Hout).
  apply Ok_inj in Hout. subst out. exists cells. state_simpl.
  split; [done|]. split; [|split; [|done]].
  - intros cell expected Hin Hexp.
    by rewrite check_cells_lookup, Hexp, bool_decide_eq_true_2, judge_mark.
  - intros cell Hout. rewrite check_cells_lookup.
    destruct (truth t !! cell); [|done]. destruct Hout as [Hout|?]; [|done].
    by rewrite bool_decide_eq_false_2.
Qed.

(** X6. On any geometry, REQUEST_CHECK_PUZZLE gives every cell the
    truth map knows the mark "ok" when the cell holds the expected letter
    and "bad" when it is empty or holds another letter, and leaves the
    mark of every other cell, every letter and the focus as they were.
    So a cell is marked "ok" exactly when its letter is the expected
    one. *)
Theorem check_puzzle_marks s e g t :
  type e = "REQUEST_CHECK_PUZZLE" →
  ∃ s',
    reduce s e g t = Ok s'
    ∧ (∀ cell expected, truth t !! cell = Some expected →
         check_marks s' !! cell =
         Some (if bool_decide (default "" (grid_letters s !! cell) = expected
                               ∧ default "" (grid_letters s !! cell) ≠ "")
               then ok else bad))
    ∧ (∀ cell, truth t !! cell = None → check_marks s' !! cell = check_marks s !! cell)
    ∧ grid_letters s' = grid_letters s
    ∧ active_cell s' = active_cell s ∧ active_slot s' = active_slot s
    ∧ orientation s' = orientation s.
Proof.
  intros Hty. eexists. split.
  - apply reduce_of_dispatch. by rewrite dispatch_check_puzzle.
  - state_simpl. split; [|split; [|done]].
    + intros cell expected Hexp.
      pose proof (check_puzzle_lookup s g t cell) as Hl. rewrite Hexp, judge_mark in Hl.
      exact Hl.
    + intros cell Hnone.
      pose proof (check_puzzle_lookup s g t cell) as Hl. by rewrite Hnone in Hl.
Qed.

Lemma check_word_marks_witness :
  ∃ s', reduce example_typed (mkGridEvent "REQUEST_CHECK_WORD" ∅)
          build_grid_spec example_truth = Ok s'
    ∧ check_marks s' !! (0, 1) = Some ok
    ∧ check_marks s' !! (2, 1) = Some bad
    ∧ check_marks s' !! (1, 0) = check_marks example_typed !! (1, 0).
Proof.
  destruct (reduce_total_5 example_typed (mkGridEvent "REQUEST_CHECK_WORD" ∅) example_truth)
    as (out & _ & Hred).
  destruct (check_word_marks example_typed (mkGridEvent "REQUEST_CHECK_WORD" ∅)
              build_grid_spec example_truth _ eq_refl Hred)
    as (cells & Hcells & Hin & Hout & _).
  apply Ok_inj in Hcells. subst cells.
  eexists. split; [exact Hred|]. split; [|split].
  - apply (Hin (0, 1) "R"); [|reflexivity]. apply list_elem_of_In. vm_compute. tauto.
  - apply (Hin (2, 1) "I"); [|reflexivity]. apply list_elem_of_In. vm_compute. tauto.
  - apply Hout. left. intros Hin'. apply list_elem_of_In in Hin'. vm_compute in Hin'.
    repeat (destruct Hin' as [Hin'|Hin']; [discriminate Hin'|]). exact Hin'.
Defined.

Lemma check_puzzle_marks_witness :
  ∃ s', reduce example_typed (mkGridEvent "REQUEST_CHECK_PUZZLE" ∅)
          build_grid_spec example_truth = Ok s'
    ∧ check_marks s' !! (1, 1) = Some ok
    ∧ check_marks s' !! (3, 3) = Some bad.
Proof.
  destruct (check_puzzle_marks example_typed (mkGridEvent "REQUEST_CHECK_PUZZLE" ∅)
              build_grid_spec example_truth eq_refl)
    as (s' & Hred & Hknown & _).
  exists s'. split; [exact Hred|]. split.
  - exact (Hknown (1, 1) "A" eq_refl).
  - exact (Hknown (3, 3) "O" eq_refl).
Defined.

Lemma merged_seq_idem counter p : merged_seq (merged_seq counter p) p = merged_seq counter p.
Proof. unfold merged_seq. destruct (client_seq_int p); lia. Qed.

Lemma check_cells_idem s t cells marks :
  foldl (check_cell s t) (foldl (check_cell s t) marks cells) cells
  = foldl (check_cell s t) marks cells.
Proof.
  apply map_eq. intros cell. rewrite !check_cells_lookup.
  destruct (truth t !! cell); [|done]. by case_bool_decide.
Qed.

Lemma check_cell_letters s1 s2 t :
  grid_letters s1 = grid_letters s2 → check_cell s1 t = check_cell s2 t.
Proof. intros Heq. unfold check_cell. by rewrite Heq. Qed.

(** X7. On any geometry, a check is idempotent: when REQUEST_CHECK_WORD
    or REQUEST_CHECK_PUZZLE has returned a state, the same event applied
    to that state returns it unchanged. *)
Theorem check_idempotent s e g t s' :
  type e ∈ check_types →
  reduce s e g t = Ok s' →
  reduce s' e g t = Ok s'.
Proof.
  intros Hty. rewrite !reduce_dispatch. intros Hs'.
  apply bind_Ok in Hs' as (out & Hout & Hs'). apply Ok_inj in Hs'.
  apply list_elem_of_In in Hty. cbn in Hty.
  destruct Hty as [Hty|[Hty|[]]]; symmetry in Hty.
  - rewrite dispatch_check_word in * by done. unfold check_word in *.
    apply bind_Ok in Hout as (cells & Hcells & Hout). apply Ok_inj in Hout.
    subst out s'. state_simpl. rewrite Hcells. bind_step. state_simpl.
    rewrite (check_cell_letters _ s) by done. rewrite check_cells_idem, merged_seq_idem.
    by destruct s.
  - rewrite dispatch_check_puzzle in * by done. apply Ok_inj in Hout.
    subst out s'.
    assert (∀ x, check_puzzle x g t
                 = set_last_action "check_puzzle"
                     (set_check_marks (check_marks (check_puzzle x g t)) x)) as Hshape
      by reflexivity.
    assert (check_marks (check_puzzle
              (set_last_client_seq
                 (merged_seq (last_client_seq (check_puzzle s g t)) (payload e))
                 (check_puzzle s g t)) g t)
            = check_marks (check_puzzle s g t)) as Hmarks.
    { apply map_eq. intros cell. rewrite !check_puzzle_lookup. state_simpl.
      destruct (truth t !! cell) eqn:E; [done|]. by rewrite check_puzzle_lookup, E. }
    rewrite (Hshape (set_last_client_seq _ _)), Hmarks.
    set (M := check_marks (check_puzzle s g t)). rewrite (Hshape s). fold M.
    bind_step. state_simpl. rewrite merged_seq_idem. by destruct s.
Qed.

Lemma check_idempotent_witness :
  ∃ s', reduce example_typed (mkGridEvent "REQUEST_CHECK_WORD" {["client_seq" := VInt 2]})
          build_grid_spec example_truth = Ok s'
    ∧ reduce s' (mkGridEvent "REQUEST_CHECK_WORD" {["client_seq" := VInt 2]})
        build_grid_spec example_truth = Ok s'.
Proof.
  destruct (reduce_total_5 example_typed
              (mkGridEvent "REQUEST_CHECK_WORD" {["client_seq" := VInt 2]}) example_truth)
    as (out & _ & Hred).
  eexists. split; [exact Hred|].
  apply (check_idempotent example_typed _ _ _ _); [|exact Hred].
  apply list_elem_of_In. cbn. tauto.
Defined.

(** *** The geometry and the resolution of the active slot *)

Lemma index_cells_spec sid cells acc cell (x : SlotId) :
  x ∈ default [] (foldl (index_cell sid) acc cells !! cell)
  ↔ x ∈ default [] (acc !! cell) ∨ (x = sid ∧ cell ∈ cells).
Proof.
  revert acc. induction cells as [|c cells IH]; intros acc; cbn [foldl].
  - split; [by left|]. intros [?|[_ ?%elem_of_nil]]; done.
  - rewrite IH. unfold index_cell. destruct (decide (c = cell)) as [->|Hne].
    + rewrite lookup_insert_eq. cbn [default id].
      rewrite elem_of_app, list_elem_of_singleton, elem_of_cons. naive_solver.
    + rewrite lookup_insert_ne by done. rewrite elem_of_cons. naive_solver.
Qed.

Lemma index_slots_spec slots acc cell (x : SlotId) :
  x ∈ default [] (foldl index_slot acc slots !! cell)
  ↔ x ∈ default [] (acc !! cell) ∨ ∃ cells, (x, cells) ∈ slots ∧ cell ∈ cells.
Proof.
  revert acc. induction slots as [|[sid cells] slots IH]; intros acc; cbn [foldl].
  - split; [by left|]. intros [?|(? & ?%elem_of_nil & _)]; done.
  - rewrite IH. unfold index_slot. cbn [fst snd]. rewrite index_cells_spec. split.
    + intros [[?|[-> ?]]|(cs & ? & ?)]; [by left| |].
      * right. exists cells. split; [left|done].
      * right. exists cs. split; [by right|done].
    + intros [?|(cs & Hin & ?)]; [by left; left|].
      apply elem_of_cons in Hin as [[= -> ->]|Hin]; [left; right; done|].
      right. by exists cs.
Qed.

Lemma dict_get_elem {K V} `{EqDecision K} (d : list (K * V)) k v :
  NoDup d.*1 → dict_get d k = Ok v ↔ (k, v) ∈ d.
Proof.
  induction d as [|[k' v'] d IH]; cbn [dict_get fmap list_fmap fst].
  - intros _. split; [done|]. by intros ?%elem_of_nil.
  - intros [Hfresh Hnd]%NoDup_cons. case_decide as Hk.
    + subst k'. split.
      * intros [= ->]. left.
      * intros [[= ->]|Hin]%elem_of_cons; [done|].
        destruct Hfresh. apply list_elem_of_fmap. by exists (k, v).
    + rewrite (IH Hnd). rewrite elem_of_cons. naive_solver.
Qed.

Lemma index_inverse (slots : list (SlotId * list Cell)) cell sid :
  sid ∈ default [] (foldl index_slot ∅ slots !! cell)
  ↔ ∃ cells, (sid, cells) ∈ slots ∧ cell ∈ cells.
Proof.
  rewrite index_slots_spec, lookup_empty. cbn [default].
  split; [intros [?%elem_of_nil|?]; done|by right].
Qed.

Lemma memberships_5 sid cell :
  sid ∈ memberships build_grid_spec cell ↔ in_slot build_grid_spec sid cell.
Proof.
  unfold memberships, in_slot.
  change (cell_to_slots build_grid_spec)
    with (foldl index_slot ∅ (slots build_grid_spec)).
  rewrite index_inverse. split; intros (cells & Hin & Hcell); exists cells; (split; [|done]).
  - apply dict_get_elem; [|done]. apply (bool_decide_unpack _). vm_compute. exact I.
  - apply dict_get_elem in Hin; [done|]. apply (bool_decide_unpack _). vm_compute. exact I.
Qed.

(** X8. The index [cell_to_slots] that [build_grid_spec] derives is the
    exact inverse of [slots]: the loop lists a slot under a cell exactly
    when the cell is one of the slot's cells, for any table of slots; so
    in the fixed geometry a slot is among a cell's memberships if and
    only if the cell lies on that slot. *)
Theorem cell_to_slots_inverse :
  (∀ (slots : list (SlotId * list Cell)) cell sid,
     sid ∈ default [] (foldl index_slot ∅ slots !! cell)
     ↔ ∃ cells, (sid, cells) ∈ slots ∧ cell ∈ cells)
  ∧ (∀ sid cell,
       sid ∈ memberships build_grid_spec cell ↔ in_slot build_grid_spec sid cell).
Proof. split; [apply index_inverse|apply memberships_5]. Qed.

Lemma filter_first {A} (P : A → Prop) `{∀ x, Decision (P x)} (l : list A) x xs :
  filter P l = x :: xs → x ∈ l ∧ P x.
Proof.
  intros Heq. assert (x ∈ filter P l) as Hin by (rewrite Heq; left).
  apply list_elem_of_filter in Hin. tauto.
Qed.

Lemma filter_none {A} (P : A → Prop) `{∀ x, Decision (P x)} (l : list A) :
  filter P l = [] → ∀ x, x ∈ l → ¬ P x.
Proof.
  intros Heq x Hin HP. assert (x ∈ filter P l) as Hf by (by apply list_elem_of_filter).
  rewrite Heq in Hf. by apply elem_of_nil in Hf.
Qed.

Ltac slot_contra :=
  match goal with
  | Hn : ∀ x, x ∈ ?ms → _, Hm : ?m ∈ ?ms |- _ =>
      solve [exfalso; apply (Hn m Hm); first [done | apply list_elem_of_In; cbn; auto]]
  end.

Ltac slot_solve :=
  intros; subst;
  repeat match goal with
         | H : ∃ _, _ |- _ => destruct H as (? & ? & ?)
         | H : _ ∈ [_; _] |- _ =>
             apply list_elem_of_In in H; cbn in H; destruct H as [?|[?|[]]]; simplify_eq
         | H : _ ∈ [] |- _ => by apply elem_of_nil in H
         end;
  try done; try slot_contra;
  try match goal with
      | Hm : ?m ∈ _ |- ?m = hw => destruct m; try done; slot_contra
      | H : slot_orientation ?m = Some _ |- _ => destruct m; try done; slot_contra
      | H : ?ms ≠ [] |- _ ∈ ?ms =>
          let m := fresh "m" in
          let l := fresh "l" in
          destruct ms as [|m l]; [done|];
          assert (m ∈ m :: l) by left; destruct m; slot_contra
      end.

(** X9. On any geometry the resolution of the active slot is total and
    follows the memberships of the cell: with no membership it answers
    h1, otherwise it answers one of the memberships; it answers a slot of
    the wanted direction whenever the cell has one; asked to prefer the
    hidden word, it answers hw when the cell is on hw and on no slot of
    the wanted direction; not asked to, it answers hw only for a cell
    that is on no across and no down slot. *)
Theorem resolve_active_slot_spec g cell o prefer_hw :
  (memberships g cell = [] → _resolve_active_slot g cell o prefer_hw = h1)
  ∧ (memberships g cell ≠ [] → _resolve_active_slot g cell o prefer_hw ∈ memberships g cell)
  ∧ ((∃ m, m ∈ memberships g cell ∧ slot_orientation m = Some o) →
       slot_orientation (_resolve_active_slot g cell o prefer_hw) = Some o)
  ∧ (prefer_hw = true → hw ∈ memberships g cell →
       (∀ m, m ∈ memberships g cell → slot_orientation m ≠ Some o) →
       _resolve_active_slot g cell o prefer_hw = hw)
  ∧ (prefer_hw = false → _resolve_active_slot g cell o prefer_hw = hw →
       ∀ m, m ∈ memberships g cell → m = hw).
Proof.
  unfold _resolve_active_slot, memberships.
  generalize (default [] (cell_to_slots g !! cell)). intros ms.
  destruct (filter (fun s => s ∈ [h1; h2]) ms) as [|a la] eqn:Ea;
    destruct (filter (fun s => s ∈ [v1; v2]) ms) as [|b lb] eqn:Eb;
    destruct (filter (fun s => s = hw) ms) as [|c lc] eqn:Ec;
    try (pose proof (filter_first _ _ _ _ Ea) as [Ha1 Ha2]);
    try (pose proof (filter_first _ _ _ _ Eb) as [Hb1 Hb2]);
    try (pose proof (filter_first _ _ _ _ Ec) as [Hc1 Hc2]);
    try (pose proof (filter_none _ _ Ea) as Hna);
    try (pose proof (filter_none _ _ Eb) as Hnb);
    try (pose proof (filter_none _ _ Ec) as Hnc);
    cbn beta in *; destruct o, prefer_hw; cbn [truthy first_of hd andb bool_decide];
    repeat match goal with
           | |- context [bool_decide ?P] =>
               first [rewrite (bool_decide_eq_true_2 P) by done
                     |rewrite (bool_decide_eq_false_2 P) by done]
           end; cbn [andb];
    (split; [|split; [|split; [|split]]]).
  all: slot_solve.
Qed.

(** *** TOGGLE_ORIENTATION *)

Lemma has_h_elem ms : has_h ms = true ↔ ∃ m, m ∈ ms ∧ (m = h1 ∨ m = h2).
Proof.
  unfold has_h. rewrite existsb_exists. split.
  - intros (m & Hin & Hm). exists m. split; [by apply list_elem_of_In|].
    apply bool_decide_eq_true, list_elem_of_In in Hm. cbn in Hm. naive_solver.
  - intros (m & Hin & Hm). exists m. split; [by apply list_elem_of_In|].
    apply bool_decide_eq_true, list_elem_of_In. cbn. naive_solver.
Qed.

Lemma has_v_elem ms : has_v ms = true ↔ ∃ m, m ∈ ms ∧ (m = v1 ∨ m = v2).
Proof.
  unfold has_v. rewrite existsb_exists. split.
  - intros (m & Hin & Hm). exists m. split; [by apply list_elem_of_In|].
    apply bool_decide_eq_true, list_elem_of_In in Hm. cbn in Hm. naive_solver.
  - intros (m & Hin & Hm). exists m. split; [by apply list_elem_of_In|].
    apply bool_decide_eq_true, list_elem_of_In. cbn. naive_solver.
Qed.

Lemma has_both_crossing cell :
  has_h (memberships build_grid_spec cell) && has_v (memberships build_grid_spec cell) = true
  ↔ crossing build_grid_spec cell.
Proof.
  rewrite andb_true_iff, has_h_elem, has_v_elem. unfold crossing. split.
  - intros [(a & Ha & Hah) (b & Hb & Hbv)].
    apply memberships_5 in Ha, Hb. naive_solver.
  - intros [Hh Hv]. split.
    + destruct Hh as [Hh|Hh]; apply memberships_5 in Hh; eauto.
    + destruct Hv as [Hv|Hv]; apply memberships_5 in Hv; eauto.
Qed.

(** X10. On the fixed geometry, TOGGLE_ORIENTATION on an active cell
    that lies on an across and on a down slot flips the orientation and
    makes the slot through the cell in the new direction active, the
    active cell staying; a second toggle brings the first orientation
    back. On any other active cell it is a no-op tagged
    "toggle:ignored". *)
Theorem toggle_orientation_cases s e t :
  type e = "TOGGLE_ORIENTATION" →
  (crossing build_grid_spec (active_cell s) →
     ∃ s1 s2,
       reduce s e build_grid_spec t = Ok s1
       ∧ orientation s1 = flip (orientation s)
       ∧ active_cell s1 = active_cell s
       ∧ slot_orientation (active_slot s1) = Some (orientation s1)
       ∧ in_slot build_grid_spec (active_slot s1) (active_cell s)
       ∧ reduce s1 e build_grid_spec t = Ok s2
       ∧ orientation s2 = orientation s
       ∧ active_cell s2 = active_cell s
       ∧ slot_orientation (active_slot s2) = Some (orientation s))
  ∧ (¬ crossing build_grid_spec (active_cell s) →
     reduce s e build_grid_spec t = Ok (stamp "toggle:ignored" e s)).
Proof.
  intros Hty. split.
  - intros Hcross.
    destruct (crossing_memberships _ (flip (orientation s)) Hcross) as (Hboth & Hplay & Hslot1).
    destruct (crossing_memberships _ (orientation s) Hcross) as (_ & _ & Hslot2).
    eexists _, _. split.
    { apply reduce_of_dispatch. rewrite dispatch_toggle by done.
      unfold _on_toggle_orientation. rewrite Hboth. cbn [negb]. reflexivity. }
    state_simpl. split; [done|]. split; [done|]. split; [done|].
    split; [by apply resolve_in_slot_5|]. split.
    { apply reduce_of_dispatch. rewrite dispatch_toggle by done.
      unfold _on_toggle_orientation. state_simpl. rewrite Hboth, flip_flip. cbn [negb].
      reflexivity. }
    state_simpl. done.
  - intros Hnot. apply reduce_of_dispatch. rewrite dispatch_toggle by done.
    unfold _on_toggle_orientation.
    destruct (has_h _ && has_v _) eqn:Hboth; [|done].
    by apply has_both_crossing in Hboth.
Qed.

Lemma toggle_orientation_cases_witness :
  ∃ s1 s2,
    reduce example_crossing (mkGridEvent "TOGGLE_ORIENTATION" ∅)
      build_grid_spec example_truth = Ok s1
    ∧ orientation s1 = OrientH
    ∧ active_cell s1 = (1, 1)
    ∧ slot_orientation (active_slot s1) = Some (orientation s1)
    ∧ in_slot build_grid_spec (active_slot s1) (1, 1)
    ∧ reduce s1 (mkGridEvent "TOGGLE_ORIENTATION" ∅) build_grid_spec example_truth = Ok s2
    ∧ orientation s2 = OrientV
    ∧ active_cell s2 = (1, 1)
    ∧ slot_orientation (active_slot s2) = Some OrientV.
Proof.
  destruct (toggle_orientation_cases example_crossing
              (mkGridEvent "TOGGLE_ORIENTATION" ∅) example_truth eq_refl) as [Hflip _].
  apply Hflip. split.
  - left. eexists. split; [reflexivity|]. apply list_elem_of_In. vm_compute. tauto.
  - left. eexists. split; [reflexivity|]. apply list_elem_of_In. vm_compute. tauto.
Defined.

(** *** first_playable_cell *)

Lemma range_lookup n (i : nat) x :
  range n !! i = Some x → x = Z.of_nat i ∧ Z.of_nat i < n.
Proof.
  unfold range. rewrite list_lookup_fmap. intros Hx.
  destruct (seq 0 (Z.to_nat n) !! i) as [k|] eqn:Hk; [|done].
  apply lookup_seq in Hk as [-> Hlt]. injection Hx as <-. lia.
Qed.

Lemma range_lookup_lt n (i : nat) :
  Z.of_nat i < n → range n !! i = Some (Z.of_nat i).
Proof.
  intros Hlt. unfold range. rewrite list_lookup_fmap.
  by rewrite (lookup_seq_lt 0 (Z.to_nat n) i) by lia.
Qed.

Lemma is_playable_inside g r c :
  0 <= r < size g → 0 <= c < size g → is_playable g (r, c) = mask_at g r c.
Proof.
  intros Hr Hc. unfold is_playable, out_of_bounds.
  destruct (Z.ltb_spec r 0), (Z.ltb_spec c 0), (Z.geb_spec r (size g)),
    (Z.geb_spec c (size g)); try lia. done.
Qed.

Lemma first_playable_in_row_spec g r cs found :
  first_playable_in_row g r cs = Ok found →
  match found with
  | Some cell =>
      ∃ (i : nat) c, cs !! i = Some c ∧ cell = (r, c) ∧ mask_at g r c = Ok true
        ∧ ∀ (j : nat) c', (j < i)%nat → cs !! j = Some c' → mask_at g r c' = Ok false
  | None => ∀ c, c ∈ cs → mask_at g r c = Ok false
  end.
Proof.
  revert found. induction cs as [|c cs IH]; intros found; cbn [first_playable_in_row].
  - intros Hf. apply Ok_inj in Hf. subst found. by intros c ?%elem_of_nil.
  - intros Hf. apply bind_Ok in Hf as ([|] & Hmask & Hf).
    + apply Ok_inj in Hf. subst found. exists 0%nat, c.
      split; [done|]. split; [done|]. split; [done|]. intros j c' Hj. lia.
    + specialize (IH _ Hf). destruct found as [cell|].
      * destruct IH as (i & c0 & Hi & -> & Hc0 & Hbefore).
        exists (S i), c0. split; [done|]. split; [done|]. split; [done|].
        intros [|j] c' Hj Hc'; [by injection Hc' as <-|].
        apply (Hbefore j); [lia|done].
      * intros c' [->|Hin]%elem_of_cons; [done|by apply IH].
Qed.

Lemma first_playable_from_spec g rs :
  (∀ cell, first_playable_from g rs = Ok cell →
     ∃ (i : nat) r, rs !! i = Some r
       ∧ first_playable_in_row g r (range (size g)) = Ok (Some cell)
       ∧ ∀ (j : nat) r', (j < i)%nat → rs !! j = Some r' →
           first_playable_in_row g r' (range (size g)) = Ok None)
  ∧ (first_playable_from g rs = Raise RuntimeError →
     ∀ r, r ∈ rs → first_playable_in_row g r (range (size g)) = Ok None).
Proof.
  induction rs as [|r rs [IHok IHraise]]; cbn [first_playable_from].
  - split; [done|]. by intros _ r ?%elem_of_nil.
  - destruct (first_playable_in_row g r (range (size g))) as [[cell0|]|x] eqn:Hrow;
      bind_step.
    + split; [|done]. intros cell Hcell. apply Ok_inj in Hcell. subst cell0.
      exists 0%nat, r. split; [done|]. split; [done|]. intros j r' Hj. lia.
    + split.
      * intros cell Hcell. destruct (IHok _ Hcell) as (i & r0 & Hi & Hr0 & Hbefore).
        exists (S i), r0. split; [done|]. split; [done|].
        intros [|j] r' Hj Hr'; [by injection Hr' as <-|].
        apply (Hbefore j); [lia|done].
      * intros Hraise r' [->|Hin]%elem_of_cons; [done|by apply IHraise].
    + split; [done|]. intros [= ->]. clear IHok IHraise.
      exfalso. revert Hrow. generalize (range (size g)). intros cs.
      induction cs as [|c cs IH]; cbn [first_playable_in_row]; [done|].
      destruct (mask_at g r c) as [[|]|y] eqn:Hm; bind_step; [done|done|].
      intros [= ->]. unfold mask_at in Hm.
      destruct (list_get (playable_mask g) r) as [row|y] eqn:Hrow; revert Hm; bind_step.
      * unfold list_get. by destruct (row !! Z.to_nat c).
      * intros [= ->]. unfold list_get in Hrow. by destruct (playable_mask g !! Z.to_nat r).
Qed.

(** X11. On any geometry, a cell that [first_playable_cell] returns is
    inside the grid and playable, and every cell of the grid before it
    in row-major order is not playable; and when [first_playable_cell]
    raises RuntimeError, no cell of the grid is playable. *)
Theorem first_playable_cell_spec g :
  (∀ r c, first_playable_cell g = Ok (r, c) →
     0 <= r < size g ∧ 0 <= c < size g
     ∧ is_playable g (r, c) = Ok true
     ∧ ∀ r' c', 0 <= r' < size g → 0 <= c' < size g →
         r' < r ∨ (r' = r ∧ c' < c) → is_playable g (r', c') = Ok false)
  ∧ (first_playable_cell g = Raise RuntimeError →
     ∀ r c, 0 <= r < size g → 0 <= c < size g → is_playable g (r, c) = Ok false).
Proof.
  unfold first_playable_cell.
  destruct (first_playable_from_spec g (range (size g))) as [Hok Hraise]. split.
  - intros r c Hcell. destruct (Hok _ Hcell) as (i & r0 & Hi & Hrow & Hbefore).
    apply first_playable_in_row_spec in Hrow as (k & c0 & Hk & [= -> ->] & Hmask & Hleft).
    apply range_lookup in Hi as [-> Hi]. apply range_lookup in Hk as [-> Hk].
    split; [lia|]. split; [lia|]. split; [by rewrite is_playable_inside by lia|].
    intros r' c' Hr' Hc' Horder. rewrite is_playable_inside by lia.
    destruct Horder as [Hlt|[-> Hlt]].
    + pose proof (Hbefore (Z.to_nat r') r' ltac:(lia)) as Hrow'.
      rewrite range_lookup_lt in Hrow' by lia. rewrite Z2Nat.id in Hrow' by lia.
      specialize (Hrow' eq_refl). apply first_playable_in_row_spec in Hrow'.
      apply Hrow'. apply list_elem_of_lookup. exists (Z.to_nat c').
      rewrite range_lookup_lt by lia. f_equal. lia.
    + apply (Hleft (Z.to_nat c')); [lia|].
      rewrite range_lookup_lt by lia. f_equal. lia.
  - intros Hr r c Hr' Hc'. rewrite is_playable_inside by lia.
    assert (r ∈ range (size g)) as Hin.
    { apply list_elem_of_lookup. exists (Z.to_nat r).
      rewrite range_lookup_lt by lia. f_equal. lia. }
    pose proof (Hraise Hr r Hin) as Hrow. apply first_playable_in_row_spec in Hrow.
    apply Hrow. apply list_elem_of_lookup. exists (Z.to_nat c).
    rewrite range_lookup_lt by lia. f_equal. lia.
Qed.

(** *** How events compose *)

Lemma tab_step s e t (forward : bool) :
  type e = (if forward then "TAB" else "SHIFT_TAB") →
  ∃ s', reduce s e build_grid_spec t = Ok s'
        ∧ active_slot s' = (if forward then next_slot else prev_slot) (active_slot s)
        ∧ first_cell_of build_grid_spec (active_slot s') (active_cell s').
Proof.
  intros Hty.
  assert (dispatch s e build_grid_spec t = _on_tab s build_grid_spec forward) as Hd.
  { destruct forward; [by apply dispatch_tab|by apply dispatch_shift_tab]. }
  unfold _on_tab in Hd.
  destruct (active_slot s) eqn:Hslot, forward;
    (eexists; split; [apply reduce_of_dispatch; rewrite Hd; reflexivity|]);
    state_simpl; (split; [reflexivity|]); eexists; (split; reflexivity).
Qed.

Lemma next_prev_slot sid :
  prev_slot (next_slot sid) = sid ∧ next_slot (prev_slot sid) = sid
  ∧ next_slot (next_slot (next_slot (next_slot (next_slot sid)))) = sid.
Proof. by destruct sid. Qed.

(** X12. On the fixed geometry, from any state, SHIFT_TAB undoes TAB
    and TAB undoes SHIFT_TAB as far as the active slot goes, and five
    TABs in a row come back to the slot they started from; each time the
    active cell is the first cell of that slot. *)
Theorem tab_round_trips s t p q :
  (∃ s', reduce_events s [mkGridEvent "TAB" p; mkGridEvent "SHIFT_TAB" q]
           build_grid_spec t = Ok s'
         ∧ active_slot s' = active_slot s
         ∧ first_cell_of build_grid_spec (active_slot s) (active_cell s'))
  ∧ (∃ s', reduce_events s [mkGridEvent "SHIFT_TAB" q; mkGridEvent "TAB" p]
             build_grid_spec t = Ok s'
           ∧ active_slot s' = active_slot s
           ∧ first_cell_of build_grid_spec (active_slot s) (active_cell s'))
  ∧ (∃ s', reduce_events s (replicate 5 (mkGridEvent "TAB" p)) build_grid_spec t = Ok s'
           ∧ active_slot s' = active_slot s
           ∧ first_cell_of build_grid_spec (active_slot s) (active_cell s')).
Proof.
  destruct (next_prev_slot (active_slot s)) as (Hpn & Hnp & Hcycle).
  split; [|split]; cbn [reduce_events replicate].
  - destruct (tab_step s (mkGridEvent "TAB" p) t true eq_refl) as (s1 & -> & Hs1 & _).
    bind_step.
    destruct (tab_step s1 (mkGridEvent "SHIFT_TAB" q) t false eq_refl) as (s2 & -> & Hs2 & Hc).
    bind_step. exists s2. rewrite Hs2, Hs1, Hpn in *. done.
  - destruct (tab_step s (mkGridEvent "SHIFT_TAB" q) t false eq_refl) as (s1 & -> & Hs1 & _).
    bind_step.
    destruct (tab_step s1 (mkGridEvent "TAB" p) t true eq_refl) as (s2 & -> & Hs2 & Hc).
    bind_step. exists s2. rewrite Hs2, Hs1, Hnp in *. done.
  - destruct (tab_step s (mkGridEvent "TAB" p) t true eq_refl) as (s1 & -> & Hs1 & _).
    bind_step.
    destruct (tab_step s1 (mkGridEvent "TAB" p) t true eq_refl) as (s2 & -> & Hs2 & _).
    bind_step.
    destruct (tab_step s2 (mkGridEvent "TAB" p) t true eq_refl) as (s3 & -> & Hs3 & _).
    bind_step.
    destruct (tab_step s3 (mkGridEvent "TAB" p) t true eq_refl) as (s4 & -> & Hs4 & _).
    bind_step.
    destruct (tab_step s4 (mkGridEvent "TAB" p) t true eq_refl) as (s5 & -> & Hs5 & Hc).
    bind_step. exists s5. rewrite Hs5, Hs4, Hs3, Hs2, Hs1, Hcycle in *. done.
Qed.

Lemma bind_unit {A} (m : result A) : (m ≫= (fun a => Ok a)) = m.
Proof. by destruct m. Qed.

(** X13. On the fixed geometry, typing a letter and then pressing
    BACKSPACE gives back the letters and the focus one started with,
    provided the active cell is not given and is empty, and the next
    cell of the active slot, if there is one, is not given and is empty
    too. *)
Theorem type_then_backspace s t p q cells (i : nat) :
  single_letter (get_str p "char") →
  dict_get (slots build_grid_spec) (active_slot s) = Ok cells →
  cells !! i = Some (active_cell s) →
  active_cell s ∉ given_cells s →
  grid_letters s !! active_cell s = Some "" →
  (∀ next, cells !! S i = Some next →
     (next ∉ given_cells s) ∧ default "" (grid_letters s !! next) = "") →
  ∃ s', reduce_events s [mkGridEvent "TYPE_CHAR" p; mkGridEvent "BACKSPACE" q]
          build_grid_spec t = Ok s'
        ∧ grid_letters s' = grid_letters s
        ∧ active_cell s' = active_cell s
        ∧ active_slot s' = active_slot s
        ∧ orientation s' = orientation s.
Proof.
  intros Hletter Hcells Hi Hgiven Hempty Hnext.
  pose proof (slot_NoDup_5 _ _ Hcells) as Hnd.
  destruct (single_letter_upper _ Hletter) as (a & Hch & Ha).
  cbn [reduce_events].
  rewrite (reduce_of_dispatch s _ _ _
             (set_active_cell (default (active_cell s) (cells !! S i))
                (clear_checks
                   (set_last_action "type"
                      (set_grid_letters (<[active_cell s := String a EmptyString]>
                                           (grid_letters s)) s))))).
  2:{ rewrite dispatch_type_char by done. unfold _on_type_char. cbn [payload].
      rewrite (type_char_accepts _ Hletter), Hch.
      rewrite bool_decide_eq_false_2 by done.
      by rewrite (advance_next _ _ _ _ _ Hcells Hnd Hi). }
  bind_step. rewrite bind_unit.
  destruct (cells !! S i) as [next|] eqn:Hn; cbn [default id].
  - destruct (Hnext next eq_refl) as [Hng Hne].
    assert (next ≠ active_cell s) as Hdiff.
    { intros ->. pose proof (NoDup_lookup _ _ _ _ Hnd Hn Hi). lia. }
    eexists. split.
    + apply reduce_of_dispatch. rewrite dispatch_backspace by done.
      unfold _on_backspace. state_simpl.
      rewrite bool_decide_eq_false_2 by done.
      rewrite lookup_insert_ne by done. rewrite Hne.
      rewrite (bool_decide_eq_true_2 ("" = "")) by done. cbn [negb].
      destruct (advance_prev _ _ _ _ _ _ Hcells Hnd Hn Hi) as [-> _]. bind_step.
      rewrite bool_decide_eq_false_2 by done.
      rewrite bool_decide_eq_false_2 by done. reflexivity.
    + state_simpl. by rewrite insert_insert_eq, insert_id by done.
  - eexists. split.
    + apply reduce_of_dispatch. rewrite dispatch_backspace by done.
      unfold _on_backspace. state_simpl.
      rewrite bool_decide_eq_false_2 by done.
      rewrite lookup_insert_eq. cbn [default id].
      rewrite bool_decide_eq_false_2 by done. cbn [negb]. reflexivity.
    + state_simpl. by rewrite insert_insert_eq, insert_id by done.
Qed.

Lemma type_then_backspace_witness :
  ∃ s', reduce_events example_state
          [mkGridEvent "TYPE_CHAR" {["char" := VStr "r"]}; mkGridEvent "BACKSPACE" ∅]
          build_grid_spec example_truth = Ok s'
        ∧ grid_letters s' = grid_letters example_state
        ∧ active_cell s' = active_cell example_state
        ∧ active_slot s' = active_slot example_state
        ∧ orientation s' = orientation example_state.
Proof.
  apply (type_then_backspace example_state example_truth {["char" := VStr "r"]} ∅
           [(0, 1); (1, 1); (2, 1); (3, 1); (4, 1)] 0%nat).
  - exists "r"%char. split; [reflexivity|]. right. vm_compute. split; discriminate.
  - reflexivity.
  - reflexivity.
  - vm_compute. intros Hin. discriminate Hin.
  - vm_compute. reflexivity.
  - intros next Hnext. injection Hnext as <-. split.
    + vm_compute. intros Hin. discriminate Hin.
    + vm_compute. reflexivity.
Defined.

(** *** Cell identifiers *)

Lemma parse_rendered_id cell : parse_cell_id (cell_id cell) = Some cell.
Proof.
  destruct cell as [r c]. unfold parse_cell_id, cell_id. cbn [fst snd].
  assert (∀ z : Z, string_forall (fun a => a ≠ ","%char) (pretty z)) as Hcomma.
  { intros z. eapply string_forall_impl; [|apply pretty_Z_chars].
    intros a Ha. by apply numeral_char_plain. }
  change ("," +:+ pretty c) with (String "," (pretty c)).
  rewrite split_app, split_plain by apply Hcomma.
  rewrite !int_of_str_pretty. reflexivity.
Qed.

Lemma cell_id_inj cell cell' : cell_id cell = cell_id cell' → cell = cell'.
Proof.
  intros Heq. assert (Some cell = Some cell') as [= ->]; [|done].
  by rewrite <- !parse_rendered_id, Heq.
Qed.

(** X14. The identifier the adapter writes for a cell is read back by
    the reducer as that cell: [parse_cell_id (cell_id cell)] is [cell]
    for every pair of integers, negative ones included; hence two cells
    never share an identifier. *)
Theorem cell_id_round_trip cell :
  parse_cell_id (cell_id cell) = Some cell
  ∧ ∀ cell', cell_id cell = cell_id cell' → cell = cell'.
Proof. split; [apply parse_rendered_id|apply cell_id_inj]. Qed.

(** X15. On the fixed geometry, a CLICK_CELL that carries the
    identifier the adapter wrote for a cell focuses that very cell when
    it is playable, with an active slot that contains it; when the cell
    is black or outside the grid, the click is a no-op tagged
    "click:black_or_oob". *)
Theorem click_rendered_cell s t p cell :
  p !! "cell_id" = Some (VStr (cell_id cell)) →
  (playable build_grid_spec cell →
     ∃ s', reduce s (mkGridEvent "CLICK_CELL" p) build_grid_spec t = Ok s'
           ∧ active_cell s' = cell
           ∧ in_slot build_grid_spec (active_slot s') cell
           ∧ last_action s' = "click")
  ∧ (¬ playable build_grid_spec cell →
     reduce s (mkGridEvent "CLICK_CELL" p) build_grid_spec t
     = Ok (stamp "click:black_or_oob" (mkGridEvent "CLICK_CELL" p) s)).
Proof.
  intros Hp.
  assert (parse_cell_id (get_str p "cell_id") = Some cell) as Hparse.
  { unfold get_str. rewrite Hp. apply parse_rendered_id. }
  split.
  - intros Hplay. eexists. split.
    + apply reduce_of_dispatch. rewrite dispatch_click by done. cbn [payload].
      rewrite (click_playable _ _ _ Hparse Hplay). reflexivity.
    + state_simpl. split; [done|]. split; [by apply resolve_in_slot_5|done].
  - intros Hblack. apply reduce_of_dispatch. rewrite dispatch_click by done.
    unfold _on_click_cell. cbn [payload]. rewrite Hparse, is_playable_5. bind_step.
    unfold playable in Hblack. rewrite is_playable_5 in Hblack.
    destruct (playable5 cell); [done|reflexivity].
Qed.

Lemma click_rendered_cell_witness :
  ∃ s', reduce example_state (mkGridEvent "CLICK_CELL" {["cell_id" := VStr (cell_id (3, 4))]})
          build_grid_spec example_truth = Ok s'
        ∧ active_cell s' = (3, 4)
        ∧ in_slot build_grid_spec (active_slot s') (3, 4)
        ∧ last_action s' = "click".
Proof.
  destruct (click_rendered_cell example_state example_truth
              {["cell_id" := VStr (cell_id (3, 4))]} (3, 4)) as [Hclick _].
  - apply lookup_singleton_eq.
  - apply Hclick. vm_compute. reflexivity.
Defined.

(** *** The event block of the application *)

Lemma py_eqb_refl v : py_eqb v v = true.
Proof. destruct v; cbn; by rewrite ?bool_decide_eq_true_2. Qed.

(** X16. Delivering the same component event twice has the effect of
    delivering it once: whatever the session, the event, the geometry
    and the truth map, the session left by the first delivery is left
    unchanged by the second, which raises nothing. *)
Theorem event_redelivery_is_dropped session event g t :
  on_component_event (on_component_event session event g t).1 event g t
  = ((on_component_event session event g t).1, None).
Proof.
  unfold on_component_event. destruct event as [event|]; [|done].
  destruct (negb (py_eqb _ (VStr "crosswordgridevent.v1"))) eqn:Hschema; cbn [fst];
    [done|].
  assert (truth_value (default VNone (ce_event_id event))
          && differs (ce_event_id event) (ce_event_id event) = false) as Hdup.
  { unfold differs. rewrite py_eqb_refl. apply andb_false_r. }
  destruct (truth_value _ && differs _ (last_event_id session)) eqn:Hfresh;
    cbn [fst]; [|by rewrite Hfresh].
  cbn [last_event_id game_state].
  destruct (ce_payload event) as [payload|]; cbn [fst last_event_id];
    [|by rewrite Hdup].
  destruct (_ && differs (_ !! "state_id") _); cbn [fst].
  - cbn [last_event_id]. by rewrite Hdup.
  - destruct (reduce _ _ g t); cbn [fst last_event_id]; by rewrite Hdup.
Qed.

(** X17. An accepted event whose payload names a state identifier
    other than the current one is fenced off: the game state is left as
    it is, whatever the event's type, and only the event identifier is
    recorded, so the event is not applied later either. *)
Theorem stale_event_is_fenced session event g t ev_id payload other :
  ce_schema_version event = Some (VStr "crosswordgridevent.v1") →
  ce_event_id event = Some ev_id →
  truth_value ev_id = true →
  differs (Some ev_id) (last_event_id session) = true →
  ce_payload event = PayloadDict payload →
  payload !! "state_id" = Some (VStr other) →
  other ≠ state_id (game_state session) →
  on_component_event session (Some event) g t
  = (mkSession (Some ev_id) (game_state session), None).
Proof.
  intros Hschema Hid Htrue Hfresh Hpayload Hstate Hother.
  unfold on_component_event. rewrite Hschema, Hid. cbn [default id].
  rewrite py_eqb_refl. cbn [negb]. rewrite Htrue, Hfresh. cbn [andb].
  rewrite Hpayload.
  cbn [game_state last_event_id]. rewrite Hstate. cbn [default id py_eqb negb andb].
  unfold differs. cbn [default id py_eqb].
  by rewrite bool_decide_eq_false_2.
Qed.

Lemma stale_event_is_fenced_witness :
  on_component_event (mkSession None example_state)
    (Some (mkComponentEvent (Some (VStr "crosswordgridevent.v1")) (Some (VStr "e1"))
             (Some (VStr "TYPE_CHAR"))
             (PayloadDict {["char" := VStr "a"; "state_id" := VStr "old"]})))
    build_grid_spec example_truth
  = (mkSession (Some (VStr "e1")) example_state, None).
Proof.
  apply (stale_event_is_fenced (mkSession None example_state) _ build_grid_spec
           example_truth (VStr "e1") {["char" := VStr "a"; "state_id" := VStr "old"]} "old").
  - reflexivity.
  - reflexivity.
  - reflexivity.
  - reflexivity.
  - reflexivity.
  - reflexivity.
  - discriminate.
Defined.

(** X18. On the fixed geometry one exception only escapes the event
    block: the AttributeError of reading the payload of an accepted
    event (right schema version, an event identifier that is truthy and
    new) when that payload is a truthy value that is not an object; the
    event identifier is recorded all the same. In every case the game
    state the block leaves has the state identifier, the puzzle
    identifier and the given cells of the one it found: the fence of
    stale events keeps comparing with the same identifier. *)
Theorem event_block_keeps_lineage session event t :
  ∃ session' raised,
    on_component_event session event build_grid_spec t = (session', raised)
    ∧ state_id (game_state session') = state_id (game_state session)
    ∧ puzzle_id (game_state session') = puzzle_id (game_state session)
    ∧ given_cells (game_state session') = given_cells (game_state session)
    ∧ (raised = None ∨ raised = Some AttributeError)
    ∧ (raised = Some AttributeError
       ↔ ∃ ev, event = Some ev ∧ accepted session ev ∧ ce_payload ev = PayloadOther)
    ∧ (raised = Some AttributeError →
       ∃ ev, event = Some ev ∧ session' = mkSession (ce_event_id ev) (game_state session)).
Proof.
  assert (∀ s' : Session,
            state_id (game_state s') = state_id (game_state session) →
            puzzle_id (game_state s') = puzzle_id (game_state session) →
            given_cells (game_state s') = given_cells (game_state session) →
            (∀ ev, event = Some ev → accepted session ev → ce_payload ev ≠ PayloadOther) →
            ∃ session' raised,
              (s', None) = (session', raised)
              ∧ state_id (game_state session') = state_id (game_state session)
              ∧ puzzle_id (game_state session') = puzzle_id (game_state session)
              ∧ given_cells (game_state session') = given_cells (game_state session)
              ∧ (raised = None ∨ raised = Some AttributeError)
              ∧ (raised = Some AttributeError
                 ↔ ∃ ev, event = Some ev ∧ accepted session ev ∧ ce_payload ev = PayloadOther)
              ∧ (raised = Some AttributeError →
                 ∃ ev, event = Some ev
                       ∧ session' = mkSession (ce_event_id ev) (game_state session)))
    as Hquiet.
  { intros s' Hs Hp Hg Hno. exists s', None. repeat (split; [done|]).
    split; [by left|]. split; [|done]. split; [done|].
    intros (ev & Hev & Hacc & Hother). by destruct (Hno ev Hev Hacc). }
  unfold on_component_event. destruct event as [event|]; [|by apply Hquiet].
  destruct (py_eqb _ (VStr "crosswordgridevent.v1")) eqn:Hschema; cbn [negb]; cycle 1.
  { apply Hquiet; try done. intros ev [= <-] (Hs & _). congruence. }
  destruct (truth_value _) eqn:Htrue; cbn [andb]; cycle 1.
  { apply Hquiet; try done. intros ev [= <-] (_ & Ht & _). congruence. }
  destruct (differs _ (last_event_id session)) eqn:Hfresh; cycle 1.
  { apply Hquiet; try done. intros ev [= <-] (_ & _ & Hd). congruence. }
  cbn [last_event_id game_state].
  destruct (ce_payload event) as [payload|] eqn:Hpayload.
  - destruct (_ && differs (_ !! "state_id") _).
    { apply Hquiet; try done. intros ev [= <-] _. congruence. }
    match goal with |- context [reduce ?s ?e _ _] =>
      destruct (reduce_total_5 s e t) as (out & Hout & Hred) end.
    rewrite Hred. destruct (dispatch_frame _ _ _ _ _ Hout) as (Hp & Hs & Hg & _).
    apply Hquiet; cbn [game_state]; state_simpl; try done.
    intros ev [= <-] _. congruence.
  - eexists _, _. split; [reflexivity|]. cbn [game_state].
    repeat (split; [done|]). split; [by right|]. split.
    + split; [|done]. intros _. exists event. done.
    + intros _. exists event. done.
Qed.

(** *** The properties sent to the grid component *)

Lemma cells_row_ok s g r cs acc :
  (∀ c, c ∈ cs → ∃ v, cell_view s g r c = Ok v) →
  ∃ vs, cells_row s g r cs acc = Ok (acc ++ vs)
        ∧ Forall2 (fun c v => cell_view s g r c = Ok v) cs vs.
Proof.
  revert acc. induction cs as [|c cs IH]; intros acc Hall; cbn [cells_row].
  - exists []. by rewrite app_nil_r.
  - destruct (Hall c) as [v Hv]; [left|]. rewrite Hv. bind_step.
    destruct (IH (acc ++ [v])) as (vs & Hvs & Hfa).
    { intros c' Hc'. apply Hall. by right. }
    exists (v :: vs). rewrite Hvs, <- app_assoc. split; [done|by constructor].
Qed.

Lemma cells_rows_ok s g rs acc :
  (∀ r c, r ∈ rs → c ∈ range (size g) → ∃ v, cell_view s g r c = Ok v) →
  ∃ vss, cells_rows s g rs acc = Ok (acc ++ mjoin vss)
         ∧ Forall2 (fun r vs => Forall2 (fun c v => cell_view s g r c = Ok v)
                                  (range (size g)) vs) rs vss.
Proof.
  revert acc. induction rs as [|r rs IH]; intros acc Hall; cbn [cells_rows].
  - exists []. by rewrite app_nil_r.
  - destruct (cells_row_ok s g r (range (size g)) acc) as (vs & Hvs & Hfa).
    { intros c Hc. apply Hall; [left|done]. }
    rewrite Hvs. bind_step.
    destruct (IH (acc ++ vs)) as (vss & Hvss & Hfas).
    { intros r' c Hr' Hc. apply Hall; [by right|done]. }
    exists (vs :: vss). rewrite Hvss, <- app_assoc. split; [done|by constructor].
Qed.

Lemma cell_view_5 s r c :
  0 <= r < 5 → 0 <= c < 5 →
  ∃ cells v,
    dict_get (slots build_grid_spec) (active_slot s) = Ok cells
    ∧ (∀ cell, cell ∈ cells → playable5 cell = true)
    ∧ cell_view s build_grid_spec r c = Ok v
    ∧ v = (let p := playable5 (r, c) in
           mkCellView (cell_id (r, c)) r c (negb p) p
             (if p then default "" (grid_letters s !! (r, c)) else "")
             (if p then bool_decide ((r, c) ∈ given_cells s) else false)
             (mkHighlight
                (if p then bool_decide ((r, c) = active_cell s) else false)
                (if p then bool_decide ((r, c) ∈ cells) else false)
                (if p then default none (check_marks s !! (r, c)) else none))).
Proof.
  intros Hr Hc. destruct (slots_5 (active_slot s)) as (cells & Hcells & _ & _ & Hplay).
  exists cells. eexists. split; [done|]. split; [done|].
  unfold cell_view. rewrite <- (is_playable_inside build_grid_spec r c) by done.
  rewrite is_playable_5. bind_step. rewrite Hcells.
  split; [|reflexivity]. cbv zeta. by destruct (playable5 (r, c)).
Qed.

Lemma range_elem n x : x ∈ range n → 0 <= x < n.
Proof.
  intros (i & Hi)%list_elem_of_lookup. apply range_lookup in Hi. lia.
Qed.

Lemma props_cells_5 s :
  ∃ props cells,
    make_component_props s build_grid_spec = Ok props
    ∧ dict_get (slots build_grid_spec) (active_slot s) = Ok cells
    ∧ (∀ cell, cell ∈ cells → playable5 cell = true)
    ∧ length (gv_cells (cp_grid props)) = 25%nat
    ∧ ∀ r c, 0 <= r < 5 → 0 <= c < 5 →
        ∃ v, gv_cells (cp_grid props) !! Z.to_nat (5 * r + c) = Some v
             ∧ cell_view s build_grid_spec r c = Ok v.
Proof.
  destruct (slots_5 (active_slot s)) as (cells & Hcells & _ & _ & Hplay).
  destruct (cells_rows_ok s build_grid_spec (range (size build_grid_spec)) [])
    as (vss & Hvss & Hfa).
  { intros r c Hr%range_elem Hc%range_elem.
    destruct (cell_view_5 s r c Hr Hc) as (? & v & _ & _ & Hv & _). eauto. }
  unfold make_component_props. rewrite Hvss. bind_step.
  eexists _, cells. split; [reflexivity|]. split; [done|]. split; [done|].
  cbn [cp_grid gv_cells app].
  change (size build_grid_spec) with 5 in Hfa.
  assert (Forall (fun l => length l = 5%nat) vss) as Hlen.
  { apply Forall_forall. intros vs (j & Hj)%list_elem_of_lookup.
    destruct (Forall2_lookup_r _ _ _ _ _ Hfa Hj) as (r & _ & Hrow).
    by rewrite <- (Forall2_length _ _ _ Hrow). }
  split.
  - rewrite length_join, (sum_list_fmap_same 5) by done.
    by rewrite <- (Forall2_length _ _ _ Hfa).
  - intros r c Hr Hc.
    destruct (Forall2_lookup_l _ _ _ (Z.to_nat r) r Hfa) as (vs & Hvs & Hrow).
    { rewrite range_lookup_lt by lia. f_equal. lia. }
    destruct (Forall2_lookup_l _ _ _ (Z.to_nat c) c Hrow) as (v & Hv & Hview).
    { rewrite range_lookup_lt by lia. f_equal. lia. }
    exists v. split; [|done].
    replace (Z.to_nat (5 * r + c)) with (Z.to_nat r * 5 + Z.to_nat c)%nat by lia.
    apply join_lookup_Some_same_length'; [done|lia|]. eauto.
Qed.

(** X19. On the fixed geometry [make_component_props] never raises,
    whatever the state: it lists 25 cell views in row-major order, the
    view at index [5 r + c] carrying the identifier and the coordinates
    of the cell [(r, c)]; a view is black exactly when its cell is not
    playable, and a black view shows no letter, no given flag and no
    highlight, whatever the state holds for that cell. *)
Theorem props_cells_row_major s :
  ∃ props,
    make_component_props s build_grid_spec = Ok props
    ∧ length (gv_cells (cp_grid props)) = 25%nat
    ∧ ∀ r c, 0 <= r < 5 → 0 <= c < 5 →
        ∃ v, gv_cells (cp_grid props) !! Z.to_nat (5 * r + c) = Some v
             ∧ cv_id v = cell_id (r, c) ∧ cv_r v = r ∧ cv_c v = c
             ∧ (cv_is_playable v = true ↔ playable build_grid_spec (r, c))
             ∧ cv_is_black v = negb (cv_is_playable v)
             ∧ (cv_is_black v = true → blank v).
Proof.
  destruct (props_cells_5 s) as (props & cells & Hprops & Hcells & Hplay & Hlen & Hat).
  exists props. split; [done|]. split; [done|]. intros r c Hr Hc.
  destruct (Hat r c Hr Hc) as (v & Hv & Hview). exists v. split; [done|].
  destruct (cell_view_5 s r c Hr Hc) as (cells' & v' & _ & _ & Hview' & ->).
  rewrite Hview in Hview'. apply Ok_inj in Hview'. subst v. cbv zeta.
  cbn [cv_id cv_r cv_c cv_is_playable cv_is_black cv_letter cv_is_given cv_highlight].
  unfold playable. rewrite is_playable_5.
  split; [done|]. split; [done|]. split; [done|]. split; [|split; [done|]].
  - split; [by intros ->|by intros ->%Ok_inj].
  - unfold blank.
    cbn [cv_id cv_r cv_c cv_is_playable cv_is_black cv_letter cv_is_given cv_highlight].
    by destruct (playable5 (r, c)).
Qed.

(** X20. For a state that satisfies the invariants of the data model,
    on the fixed geometry, every cell view shows exactly the state: the
    letter, the given flag, the check mark, whether the cell is the
    active cell and whether it lies in the active slot; and the active
    cell is inside the grid, so one view is lit as the active cell. *)
Theorem props_show_state s :
  state_inv build_grid_spec s →
  ∃ props,
    make_component_props s build_grid_spec = Ok props
    ∧ (∀ r c, 0 <= r < 5 → 0 <= c < 5 →
         ∃ v, gv_cells (cp_grid props) !! Z.to_nat (5 * r + c) = Some v
              ∧ shows build_grid_spec s (r, c) v)
    ∧ 0 <= (active_cell s).1 < 5 ∧ 0 <= (active_cell s).2 < 5.
Proof.
  intros Hinv.
  assert (playable build_grid_spec (active_cell s)) as Hactive
    by apply (in_slot_playable_5 _ _ (inv_active _ _ Hinv)).
  destruct (props_cells_5 s) as (props & cells & Hprops & Hcells & Hplay & Hlen & Hat).
  exists props. split; [done|]. split.
  - intros r c Hr Hc.
    destruct (Hat r c Hr Hc) as (v & Hv & Hview). exists v. split; [done|].
    destruct (cell_view_5 s r c Hr Hc) as (cells' & v' & Hcells' & _ & Hview' & ->).
    rewrite Hview in Hview'. apply Ok_inj in Hview'. subst v.
    rewrite Hcells in Hcells'. apply Ok_inj in Hcells'. subst cells'. cbv zeta.
    unfold shows.
    cbn [cv_id cv_r cv_c cv_is_playable cv_is_black cv_letter cv_is_given cv_highlight
         hl_active_cell hl_active_slot hl_check_state fst snd].
    assert (playable build_grid_spec (r, c) ↔ playable5 (r, c) = true) as Hp.
    { unfold playable. rewrite is_playable_5. split; [by intros ->%Ok_inj|by intros ->]. }
    assert (in_slot build_grid_spec (active_slot s) (r, c) ↔ (r, c) ∈ cells) as Hslot.
    { unfold in_slot. rewrite Hcells. split; [by intros (? & [= <-] & ?)|eauto]. }
    split; [done|]. split; [done|]. split; [done|]. split; [by rewrite Hp|].
    split; [done|]. rewrite Hslot.
    destruct (playable5 (r, c)) eqn:Hrc.
    + rewrite !bool_decide_eq_true. done.
    + assert (¬ playable build_grid_spec (r, c)) as Hblack by (rewrite Hp; congruence).
      split; [|split; [|split; [|split]]].
      * destruct (grid_letters s !! (r, c)) eqn:Hl; [|done].
        destruct Hblack. apply (inv_letters _ _ Hinv). by rewrite Hl.
      * split; [done|]. intros Hg. destruct Hblack. by apply (inv_given _ _ Hinv).
      * split; [done|]. intros Heq. destruct Hblack. by rewrite Heq.
      * split; [done|]. intros Hin. apply Hplay in Hin. congruence.
      * destruct (check_marks s !! (r, c)) eqn:Hm; [|done].
        destruct Hblack. apply (inv_marks _ _ Hinv). by rewrite Hm.
  - unfold playable in Hactive. rewrite is_playable_5 in Hactive.
    apply Ok_inj in Hactive. destruct (active_cell s) as [r c]. unfold playable5 in Hactive.
    apply andb_true_iff in Hactive as [Hin%bool_decide_eq_true _]. cbn [fst snd]. lia.
Qed.

Lemma props_show_state_witness :
  ∃ props,
    make_component_props example_state build_grid_spec = Ok props
    ∧ (∀ r c, 0 <= r < 5 → 0 <= c < 5 →
         ∃ v, gv_cells (cp_grid props) !! Z.to_nat (5 * r + c) = Some v
              ∧ shows build_grid_spec example_state (r, c) v)
    ∧ 0 <= (active_cell example_state).1 < 5 ∧ 0 <= (active_cell example_state).2 < 5.
Proof. exact (props_show_state example_state example_state_inv). Defined.

Lemma rendered_ids_parse (cells : list Cell) :
  parse_cell_id <$> (cell_id <$> cells) = Some <$> cells.
Proof.
  rewrite <- list_fmap_compose. apply list_fmap_ext. intros _ cell _.
  apply parse_rendered_id.
Qed.

Lemma rendered_index_lookup (m : gmap Cell (list SlotId)) cell :
  map_fold (fun cell slots acc => <[cell_id cell := slots]> acc) (∅ : gmap string (list SlotId)) m
    !! cell_id cell = m !! cell.
Proof.
  revert cell.
  apply (map_fold_weak_ind
           (fun (acc : gmap string (list SlotId)) (m : gmap Cell (list SlotId)) =>
              ∀ cell, acc !! cell_id cell = m !! cell)).
  - intros cell. by rewrite !lookup_empty.
  - intros k x m' acc Hfresh IH cell. destruct (decide (cell = k)) as [->|Hne].
    + by rewrite !lookup_insert_eq.
    + rewrite !lookup_insert_ne; [done|congruence|].
      intros Heq%cell_id_inj. congruence.
Qed.

(** X21. On any geometry, the geometry and the focus that
    [make_component_props] sends can be read back: each slot is sent
    under its name with identifiers that [parse_cell_id] turns into the
    slot's cells, in order; the index sent under the identifier of a
    cell is the cell's entry of [cell_to_slots]; and the identifier of
    the focus parses to the active cell. *)
Theorem props_geometry_round_trip s g props :
  make_component_props s g = Ok props →
  Forall2 (fun item payload =>
             payload.1 = item.1 ∧ parse_cell_id <$> payload.2 = Some <$> item.2)
    (slots g) (gv_slots (cp_grid props))
  ∧ (∀ cell, gv_cell_to_slots (cp_grid props) !! cell_id cell = cell_to_slots g !! cell)
  ∧ parse_cell_id (fv_active_cell_id (cp_focus props)) = Some (active_cell s).
Proof.
  unfold make_component_props. intros Hprops.
  apply bind_Ok in Hprops as (cells & _ & Hprops). apply Ok_inj in Hprops. subst props.
  cbn [cp_grid cp_focus gv_slots gv_cell_to_slots fv_active_cell_id].
  split; [|split].
  - apply Forall2_fmap_r, Forall_Forall2_diag, Forall_forall. intros [sid cs] _.
    cbn [fst snd]. split; [done|apply rendered_ids_parse].
  - apply rendered_index_lookup.
  - apply parse_rendered_id.
Qed.

Lemma props_geometry_round_trip_witness :
  ∃ props,
    make_component_props example_state build_grid_spec = Ok props
    ∧ Forall2 (fun item payload =>
                 payload.1 = item.1 ∧ parse_cell_id <$> payload.2 = Some <$> item.2)
        (slots build_grid_spec) (gv_slots (cp_grid props))
    ∧ (∀ cell, gv_cell_to_slots (cp_grid props) !! cell_id cell
               = cell_to_slots build_grid_spec !! cell)
    ∧ parse_cell_id (fv_active_cell_id (cp_focus props)) = Some (active_cell example_state).
Proof.
  destruct (props_cells_5 example_state) as (props & _ & Hprops & _).
  exists props. split; [done|].
  exact (props_geometry_round_trip example_state build_grid_spec props Hprops).
Defined.

(** X22. On any geometry, an accepted component event whose payload is
    an object that carries no state identifier, or the one the
    properties made from the current state carry in their sync block, is
    never fenced off: the reducer is run on the current game state with
    the event's type and payload, its result is stored, and the event
    identifier is recorded even when the reducer raises. *)
Theorem current_event_is_applied session event g t ev_id payload props :
  make_component_props (game_state session) g = Ok props →
  ce_schema_version event = Some (VStr "crosswordgridevent.v1") →
  ce_event_id event = Some ev_id →
  truth_value ev_id = true →
  differs (Some ev_id) (last_event_id session) = true →
  ce_payload event = PayloadDict payload →
  payload !! "state_id" = None
  ∨ payload !! "state_id" = Some (VStr (sv_state_id (cp_sync props))) →
  on_component_event session (Some event) g t
  = match reduce (game_state session)
            (mkGridEvent (match ce_type event with Some v => str_of v | None => "" end)
               payload) g t with
    | Ok s' => (mkSession (Some ev_id) s', None)
    | Raise e => (mkSession (Some ev_id) (game_state session), Some e)
    end.
Proof.
  intros Hprops Hschema Hid Htrue Hfresh Hpayload Hstate.
  assert (sv_state_id (cp_sync props) = state_id (game_state session)) as Hsync.
  { unfold make_component_props in Hprops.
    apply bind_Ok in Hprops as (cells & _ & Hprops). apply Ok_inj in Hprops.
    by subst props. }
  unfold on_component_event. rewrite Hschema, Hid. cbn [default id].
  rewrite py_eqb_refl. cbn [negb]. rewrite Htrue, Hfresh. cbn [andb].
  rewrite Hpayload. cbn [game_state last_event_id].
  destruct Hstate as [-> | ->].
  - cbn [default id py_eqb negb andb]. done.
  - rewrite Hsync. unfold differs. rewrite py_eqb_refl. cbn [negb].
    rewrite andb_false_r. done.
Qed.

Lemma current_event_is_applied_witness :
  ∃ props,
    make_component_props example_state build_grid_spec = Ok props
    ∧ on_component_event (mkSession None example_state)
        (Some (mkComponentEvent (Some (VStr "crosswordgridevent.v1")) (Some (VStr "e1"))
                 (Some (VStr "TAB"))
                 (PayloadDict {["state_id" := VStr (sv_state_id (cp_sync props))]})))
        build_grid_spec example_truth
      = match reduce example_state
                (mkGridEvent "TAB" {["state_id" := VStr (sv_state_id (cp_sync props))]})
                build_grid_spec example_truth with
        | Ok s' => (mkSession (Some (VStr "e1")) s', None)
        | Raise e => (mkSession (Some (VStr "e1")) example_state, Some e)
        end.
Proof.
  destruct (props_cells_5 example_state) as (props & _ & Hprops & _).
  exists props. split; [done|].
  refine (current_event_is_applied (mkSession None example_state)
            (mkComponentEvent (Some (VStr "crosswordgridevent.v1")) (Some (VStr "e1"))
               (Some (VStr "TAB"))
               (PayloadDict {["state_id" := VStr (sv_state_id (cp_sync props))]}))
            build_grid_spec example_truth (VStr "e1")
            {["state_id" := VStr (sv_state_id (cp_sync props))]} props Hprops _ _ _ _ _ _).
  - reflexivity.
  - reflexivity.
  - reflexivity.
  - reflexivity.
  - reflexivity.
  - right. apply lookup_singleton_eq.
Defined.

(** *** Loading a puzzle file *)

Lemma example_raw_loads :
  load_puzzle example_raw "puzzles/demo.json" build_grid_spec = Ok example_loaded
  ∧ as_puzzle example_loaded = Some example_puzzle.
Proof. split; vm_compute; reflexivity. Qed.

Lemma dict_set_fresh {K V} `{EqDecision K} (d : list (K * V)) k v :
  k ∉ d.*1 → dict_set d k v = d ++ [(k, v)].
Proof.
  induction d as [|[k' v'] d IH]; cbn [dict_set fmap list_fmap fst app]; [done|].
  intros Hfresh. apply not_elem_of_cons in Hfresh as [Hne Hfresh].
  rewrite decide_False by done. by rewrite IH.
Qed.

Lemma validate_letters_only_capital s :
  _validate_letters_only s false = Ok tt → string_forall capital s.
Proof.
  induction s as [|a s IH]; cbn [_validate_letters_only string_forall]; [done|].
  rewrite !str_leb_single. cbn [andb].
  destruct (_ && _) eqn:Hle; [|done].
  apply andb_true_iff in Hle as [?%Z.leb_le ?%Z.leb_le].
  intros Hs. split; [|by apply IH]. unfold capital.
  change (code "A") with 65 in *. change (code "Z") with 90 in *. lia.
Qed.

Lemma load_entry_spec g er sid acc es :
  sid ∉ acc.*1 →
  load_entry g er sid acc = Ok es →
  ∃ e raw, es = acc ++ [(sid, e)] ∧ well_formed_entry g sid e
           ∧ er sid = Some (EntryDict raw)
           ∧ clue e = strip (field_str (raw_clue raw))
           ∧ answer e = _norm_letters (field_str (raw_answer raw))
           ∧ initial e = strip (field_str (raw_initial raw)).
Proof.
  intros Hfresh. unfold load_entry. destruct (er sid) as [[raw|]|]; [|done..].
  cbv zeta. case_bool_decide as Hclue; [done|]. case_bool_decide as Hans; [done|].
  intros Hes. apply bind_Ok in Hes as ([] & Hval & Hes).
  apply bind_Ok in Hes as (n & Hn & Hes).
  destruct (Z.eqb_spec (len (_norm_letters (field_str (raw_answer raw)))) n) as [Hlen|];
    [|done].
  cbn [negb] in Hes. apply Ok_inj in Hes. subst es n.
  rewrite dict_set_fresh by done.
  eexists _, raw. split; [reflexivity|]. split; [|done].
  split; [done|]. split; [done|]. split; [|done].
  by apply validate_letters_only_capital.
Qed.

Lemma load_entries_spec g er sids acc es :
  NoDup sids → (∀ sid, sid ∈ sids → sid ∉ acc.*1) →
  load_entries g er sids acc = Ok es →
  ∃ new, es = acc ++ new ∧ new.*1 = sids
         ∧ ∀ sid e, (sid, e) ∈ new →
             well_formed_entry g sid e
             ∧ ∃ raw, er sid = Some (EntryDict raw)
                      ∧ clue e = strip (field_str (raw_clue raw))
                      ∧ answer e = _norm_letters (field_str (raw_answer raw))
                      ∧ initial e = strip (field_str (raw_initial raw)).
Proof.
  revert acc. induction sids as [|sid sids IH]; intros acc Hnd Hfresh; cbn [load_entries].
  - intros Hes. apply Ok_inj in Hes. subst es. exists []. rewrite app_nil_r.
    split; [done|]. split; [done|]. by intros ? ? ?%elem_of_nil.
  - intros Hes. apply bind_Ok in Hes as (acc' & Hacc' & Hes).
    apply NoDup_cons in Hnd as [Hsid Hnd].
    destruct (load_entry_spec _ _ _ _ _ (Hfresh sid ltac:(left)) Hacc')
      as (e & raw & -> & Hwf & Hraw).
    destruct (IH (acc ++ [(sid, e)]) Hnd) as (new & -> & Hkeys & Hnew); [|done|].
    { intros sid' Hin. rewrite fmap_app, not_elem_of_app. split.
      - apply Hfresh. by right.
      - cbn. intros ->%list_elem_of_singleton. done. }
    exists ((sid, e) :: new). rewrite <- app_assoc. split; [done|].
    split; [by rewrite fmap_cons, Hkeys|].
    intros sid' e' [[= -> ->]|Hin]%elem_of_cons; [eauto|by apply Hnew].
Qed.

Lemma cross_cells_spec cells ans truth truth' :
  cross_cells cells ans truth = Ok truth' →
  project_answer cells ans truth = Ok truth'
  ∧ truth ⊆ truth'
  ∧ ∀ (i : nat) cell, cells !! i = Some cell →
      ∃ a, String.get i ans = Some a ∧ truth' !! cell = Some (String a EmptyString).
Proof.
  revert ans truth. induction cells as [|cell cells IH]; intros ans truth;
    cbn [cross_cells project_answer].
  - intros Ht. apply Ok_inj in Ht. subst truth'. split; [done|]. split; [done|].
    by intros i cell' ?.
  - destruct ans as [|a ans]; [done|]. cbv zeta. intros Ht.
    assert (cross_cells cells ans (<[cell := String a EmptyString]> truth) = Ok truth'
            ∧ truth ⊆ <[cell := String a EmptyString]> truth) as [Hrec Hsub].
    { destruct (truth !! cell) as [old|] eqn:Hold.
      - case_bool_decide as Heq; [|done]. cbn [negb] in Ht. subst old.
        split; [done|]. by rewrite insert_id.
      - split; [done|]. by apply insert_subseteq. }
    destruct (IH _ _ Hrec) as (Hproj & Hsub' & Hat).
    split; [done|]. split; [by etrans|].
    intros [|i] cell' Hcell'; cbn in Hcell'.
    + injection Hcell' as <-. exists a. split; [done|].
      eapply lookup_weaken; [|done]. by rewrite lookup_insert_eq.
    + by apply Hat.
Qed.

Lemma cross_entries_spec g items truth truth' :
  cross_entries g items truth = Ok truth' →
  project_entries g items truth = Ok truth'
  ∧ truth ⊆ truth'
  ∧ agrees g truth' items.
Proof.
  revert truth. induction items as [|[sid e] items IH]; intros truth;
    cbn [cross_entries project_entries].
  - intros Ht. apply Ok_inj in Ht. subst truth'. split; [done|]. split; [done|].
    by intros ? ? ? ? ? ?%elem_of_nil.
  - intros Ht. apply bind_Ok in Ht as (cells & Hcells & Ht).
    apply bind_Ok in Ht as (mid & Hmid & Ht).
    destruct (cross_cells_spec _ _ _ _ Hmid) as (Hproj & Hsub & Hat).
    destruct (IH _ Ht) as (Hproj' & Hsub' & Hagree).
    rewrite Hcells. bind_step. rewrite Hproj. bind_step.
    split; [done|]. split; [by etrans|].
    intros sid' e' cells' i cell [[= -> ->]|Hin]%elem_of_cons Hcells' Hcell.
    + rewrite Hcells in Hcells'. apply Ok_inj in Hcells'. subst cells'.
      destruct (Hat i cell Hcell) as (a & Ha & Hlook). exists a. split; [done|].
      by eapply lookup_weaken.
    + by eapply Hagree.
Qed.

Lemma covered_row_spec g truth r cs :
  covered_row g truth r cs = Ok tt →
  ∀ c, c ∈ cs → mask_at g r c = Ok true → is_Some (truth !! (r, c)).
Proof.
  induction cs as [|c cs IH]; cbn [covered_row]; [by intros _ ? ?%elem_of_nil|].
  intros Hrow. apply bind_Ok in Hrow as (p & Hp & Hrow).
  intros c' [->|Hin]%elem_of_cons Hmask.
  - rewrite Hmask in Hp. apply Ok_inj in Hp. subst p. cbn [andb] in Hrow.
    case_bool_decide; [done|]. done.
  - destruct (p && _); [done|]. by apply IH.
Qed.

Lemma covered_rows_spec g truth rs :
  covered_rows g truth rs = Ok tt →
  ∀ r c, r ∈ rs → c ∈ range (size g) → mask_at g r c = Ok true →
         is_Some (truth !! (r, c)).
Proof.
  induction rs as [|r rs IH]; cbn [covered_rows]; [by intros _ ? ? ?%elem_of_nil|].
  intros Hrows. apply bind_Ok in Hrows as ([] & Hrow & Hrows).
  intros r' c [->|Hin]%elem_of_cons Hc Hmask.
  - by eapply covered_row_spec.
  - by apply IH.
Qed.

Lemma range_elem_of n x : 0 <= x < n → x ∈ range n.
Proof.
  intros Hx. apply list_elem_of_lookup. exists (Z.to_nat x).
  rewrite range_lookup_lt by lia. f_equal. lia.
Qed.

Lemma playable_inside g r c :
  playable g (r, c) →
  0 <= r < size g ∧ 0 <= c < size g ∧ mask_at g r c = Ok true.
Proof.
  unfold playable, is_playable, out_of_bounds.
  destruct (Z.ltb_spec r 0), (Z.ltb_spec c 0), (Z.geb_spec r (size g)),
    (Z.geb_spec c (size g)); cbn [orb]; try done; intros Hmask; repeat split; (lia || done).
Qed.

Lemma NoDup_ALLOWED_SLOTS : NoDup ALLOWED_SLOTS.
Proof. apply (bool_decide_unpack _). vm_compute. exact I. Qed.

(** What a run of [load_puzzle] that returns has gone through. *)
Lemma load_puzzle_Ok raw path g l :
  load_puzzle raw path g = Ok l ↔
  ∃ r entries_raw es t,
    raw = FileObject r ∧ raw_entries r = EntriesDict entries_raw
    ∧ strip (field_str (raw_schema_version r)) = "puzzlefile.v1"
    ∧ filter (fun sid => entries_raw sid = None) ALLOWED_SLOTS = []
    ∧ load_entries g entries_raw ALLOWED_SLOTS [] = Ok es
    ∧ cross_entries g es ∅ = Ok t
    ∧ covered_rows g t (range (size g)) = Ok tt
    ∧ l = mkLoadedPuzzle "puzzlefile.v1" (raw_meta r) es (basename path).
Proof.
  unfold load_puzzle. split.
  - destruct raw as [r|]; [|done]. cbv zeta.
    case_bool_decide as Hschema; [|done]. cbn [negb].
    destruct (raw_entries r) as [entries_raw|holds|] eqn:Hentries; [| |done].
    + case_bool_decide as Hmissing; [|done]. cbn [negb].
      intros Hl. apply bind_Ok in Hl as (es & Hes & Hl).
      apply bind_Ok in Hl as (t & Ht & Hl). apply bind_Ok in Hl as ([] & Hcov & Hl).
      apply Ok_inj in Hl. rewrite Hschema in Hl. exists r, entries_raw, es, t. done.
    + by case_bool_decide.
  - intros (r & entries_raw & es & t & -> & Hentries & Hschema & Hmissing & Hes & Ht
            & Hcov & ->).
    cbv zeta. rewrite Hentries, Hschema, Hmissing, Hes.
    rewrite !bool_decide_eq_true_2 by done. cbn [negb]. bind_step.
    rewrite Ht. bind_step. rewrite Hcov. bind_step. done.
Qed.

(** X23. On any geometry, a puzzle that [load_puzzle] returns has the
    schema version "puzzlefile.v1" and one entry per slot, in the order
    h1, h2, v1, v2, hw, each with a clue and an answer that are not
    empty, an answer made of capital letters only and as long as its
    slot. The engine's [build_truth_map] succeeds on it, as on every
    puzzle with these entries, and its truth map has at every cell of
    every slot the letter of that slot's answer, so crossing answers
    agree, and a letter for every playable cell. *)
Theorem load_puzzle_accepts_consistent raw path g l :
  load_puzzle raw path g = Ok l →
  loaded_schema_version l = "puzzlefile.v1"
  ∧ (loaded_entries l).*1 = ALLOWED_SLOTS
  ∧ (∀ sid e, (sid, e) ∈ loaded_entries l → well_formed_entry g sid e)
  ∧ ∃ t, (∀ p, entries p = loaded_entries l → build_truth_map p g = Ok t)
         ∧ agrees g (truth t) (loaded_entries l)
         ∧ ∀ cell, playable g cell → is_Some (truth t !! cell).
Proof.
  intros (r & entries_raw & es & t & _ & _ & _ & _ & Hes & Ht & Hcov & ->)%load_puzzle_Ok.
  cbn [loaded_schema_version loaded_entries].
  destruct (load_entries_spec g entries_raw ALLOWED_SLOTS [] es NoDup_ALLOWED_SLOTS)
    as (new & -> & Hkeys & Hnew); [by intros ? _ ?%elem_of_nil|done|].
  cbn [app] in *.
  destruct (cross_entries_spec _ _ _ _ Ht) as (Hproj & _ & Hagree).
  split; [done|]. split; [done|]. split; [intros sid e Hin; by apply Hnew|].
  exists (mkTruthMap t). split; [|split; [done|]].
  - intros p Hp. unfold build_truth_map. rewrite Hp, Hproj. done.
  - intros [r' c] (Hr & Hc & Hmask)%playable_inside.
    cbn [truth]. eapply covered_rows_spec; [done| | |done]; by apply range_elem_of.
Qed.

Lemma load_puzzle_accepts_consistent_witness :
  loaded_schema_version example_loaded = "puzzlefile.v1"
  ∧ (loaded_entries example_loaded).*1 = ALLOWED_SLOTS
  ∧ (∀ sid e, (sid, e) ∈ loaded_entries example_loaded →
       well_formed_entry build_grid_spec sid e)
  ∧ ∃ t, (∀ p, entries p = loaded_entries example_loaded →
            build_truth_map p build_grid_spec = Ok t)
         ∧ agrees build_grid_spec (truth t) (loaded_entries example_loaded)
         ∧ ∀ cell, playable build_grid_spec cell → is_Some (truth t !! cell).
Proof.
  apply (load_puzzle_accepts_consistent example_raw "puzzles/demo.json").
  vm_compute. reflexivity.
Defined.

Lemma validate_letters_only_errors s b e :
  _validate_letters_only s b = Raise e → e = ValueError.
Proof.
  induction s as [|a s IH]; cbn [_validate_letters_only]; [done|].
  destruct (_ && _); [done|]. destruct (b && _); [done|]. by intros [= <-].
Qed.

Lemma slot_lengths_5 sid n :
  dict_get (slot_lengths build_grid_spec) sid = Ok n →
  ∃ cells, dict_get (slots build_grid_spec) sid = Ok cells ∧ n = Z.of_nat (length cells).
Proof. destruct sid; intros [= <-]; eexists; (split; [reflexivity|reflexivity]). Qed.

Lemma slot_lengths_total_5 sid : ∃ n, dict_get (slot_lengths build_grid_spec) sid = Ok n.
Proof. destruct sid; eexists; reflexivity. Qed.

Lemma load_entries_errors er sids acc e :
  (∀ sid, sid ∈ sids → er sid ≠ None) →
  load_entries build_grid_spec er sids acc = Raise e →
  e = ValueError ∨ (e = AttributeError ∧ ∃ sid, er sid = Some EntryOther).
Proof.
  revert acc. induction sids as [|sid sids IH]; intros acc Hpresent; cbn [load_entries];
    [done|].
  destruct (load_entry build_grid_spec er sid acc) as [acc'|e'] eqn:Hentry; bind_step.
  - apply IH. intros sid' Hin. apply Hpresent. by right.
  - intros [= <-]. unfold load_entry in Hentry.
    destruct (er sid) as [[raw|]|] eqn:Hraw;
      [| |by destruct (Hpresent sid ltac:(left))].
    + left. cbv zeta in Hentry. case_bool_decide; [by injection Hentry|].
      case_bool_decide; [by injection Hentry|].
      destruct (_validate_letters_only _ false) as [[]|e''] eqn:Hval;
        cbn [mbind result_bind bind] in Hentry.
      * destruct (slot_lengths_total_5 sid) as [n Hn]. rewrite Hn in Hentry.
        cbn [mbind result_bind bind] in Hentry.
        destruct (negb _); [by injection Hentry|done].
      * injection Hentry as <-. by eapply validate_letters_only_errors.
    + right. injection Hentry as <-. eauto.
Qed.

Lemma cross_cells_errors cells ans truth e :
  (length cells ≤ String.length ans)%nat →
  cross_cells cells ans truth = Raise e → e = ValueError.
Proof.
  revert ans truth. induction cells as [|cell cells IH]; intros ans truth;
    cbn [cross_cells]; [done|].
  destruct ans as [|a ans]; cbn [length String.length]; [lia|]. intros Hlen. cbv zeta.
  destruct (truth !! cell) as [old|].
  - destruct (negb _); [by intros [= <-]|]. apply IH. lia.
  - apply IH. lia.
Qed.

Lemma cross_entries_errors items truth e :
  (∀ sid entry, (sid, entry) ∈ items → well_formed_entry build_grid_spec sid entry) →
  cross_entries build_grid_spec items truth = Raise e → e = ValueError.
Proof.
  revert truth. induction items as [|[sid entry] items IH]; intros truth Hwf;
    cbn [cross_entries]; [done|].
  destruct (Hwf sid entry ltac:(left)) as (_ & _ & _ & Hlen).
  apply slot_lengths_5 in Hlen as (cells & Hcells & Hlen). rewrite Hcells. bind_step.
  destruct (cross_cells cells (answer entry) truth) as [truth'|e'] eqn:Hcross; bind_step.
  - apply IH. intros sid' entry' Hin. apply Hwf. by right.
  - intros [= <-]. eapply cross_cells_errors; [|done]. unfold len in Hlen. lia.
Qed.

Lemma covered_row_errors g truth r cs e :
  (∀ c, c ∈ cs → ∃ p, mask_at g r c = Ok p) →
  covered_row g truth r cs = Raise e → e = ValueError.
Proof.
  induction cs as [|c cs IH]; cbn [covered_row]; [done|]. intros Hmask.
  destruct (Hmask c ltac:(left)) as [p ->]. bind_step.
  destruct (p && _); [by intros [= <-]|]. apply IH. intros c' Hin. apply Hmask. by right.
Qed.

Lemma covered_rows_errors g truth rs e :
  (∀ r c, r ∈ rs → c ∈ range (size g) → ∃ p, mask_at g r c = Ok p) →
  covered_rows g truth rs = Raise e → e = ValueError.
Proof.
  induction rs as [|r rs IH]; cbn [covered_rows]; [done|]. intros Hmask.
  destruct (covered_row g truth r (range (size g))) as [[]|e'] eqn:Hrow; bind_step.
  - apply IH. intros r' c Hin. apply Hmask. by right.
  - intros [= <-]. eapply covered_row_errors; [|done]. intros c Hc. apply Hmask; [left|done].
Qed.

Lemma mask_at_total_5 r c :
  r ∈ range (size build_grid_spec) → c ∈ range (size build_grid_spec) →
  ∃ p, mask_at build_grid_spec r c = Ok p.
Proof.
  intros Hr%range_elem Hc%range_elem. exists (playable5 (r, c)).
  by rewrite <- is_playable_inside, is_playable_5.
Qed.

Lemma filter_nil_none {A} (P : A → Prop) `{∀ x, Decision (P x)} (l : list A) x :
  filter P l = [] → x ∈ l → ¬ P x.
Proof.
  intros Hnil Hin HP. assert (x ∈ filter P l) as Hx by (by apply list_elem_of_filter).
  rewrite Hnil in Hx. by apply elem_of_nil in Hx.
Qed.

(** X24. On the fixed geometry, [load_puzzle] either returns a puzzle
    or raises its validation error, as long as the file has the shape of
    a puzzle file: an object at the top, an object (or nothing) under
    "entries", and objects (or falsy values) for the entries. Of any
    other file it raises the validation error or an error of shape: the
    AttributeError of a top level or an entry that is not an object, the
    TypeError of entries that are not an object. No key or index error
    escapes the checks, whatever the content of the file. *)
Theorem load_puzzle_raises_validation_only raw path :
  ((∃ l, load_puzzle raw path build_grid_spec = Ok l)
   ∨ load_puzzle raw path build_grid_spec = Raise ValueError
   ∨ (load_puzzle raw path build_grid_spec = Raise AttributeError
      ∧ (raw = FileOther
         ∨ ∃ r entries_raw sid, raw = FileObject r
             ∧ raw_entries r = EntriesDict entries_raw
             ∧ entries_raw sid = Some EntryOther))
   ∨ (load_puzzle raw path build_grid_spec = Raise TypeError
      ∧ ∃ r, raw = FileObject r ∧ ∀ entries_raw, raw_entries r ≠ EntriesDict entries_raw))
  ∧ (well_shaped raw →
     (∃ l, load_puzzle raw path build_grid_spec = Ok l)
     ∨ load_puzzle raw path build_grid_spec = Raise ValueError).
Proof.
  assert ((∃ l, load_puzzle raw path build_grid_spec = Ok l)
   ∨ load_puzzle raw path build_grid_spec = Raise ValueError
   ∨ (load_puzzle raw path build_grid_spec = Raise AttributeError
      ∧ (raw = FileOther
         ∨ ∃ r entries_raw sid, raw = FileObject r
             ∧ raw_entries r = EntriesDict entries_raw
             ∧ entries_raw sid = Some EntryOther))
   ∨ (load_puzzle raw path build_grid_spec = Raise TypeError
      ∧ ∃ r, raw = FileObject r ∧ ∀ entries_raw, raw_entries r ≠ EntriesDict entries_raw))
    as Hcases.
  { unfold load_puzzle. destruct raw as [r|]; [|right; right; left; by eauto].
    cbv zeta. case_bool_decide as Hschema; [|by right; left]. cbn [negb].
    destruct (raw_entries r) as [entries_raw|holds|] eqn:Hentries.
    - case_bool_decide as Hmissing; [|by right; left]. cbn [negb].
      destruct (load_entries _ _ _ _) as [es|e'] eqn:Hes; bind_step.
      + destruct (load_entries_spec build_grid_spec entries_raw ALLOWED_SLOTS [] es
                    NoDup_ALLOWED_SLOTS) as (new & -> & Hkeys & Hnew);
          [by intros ? _ ?%elem_of_nil|done|]. cbn [app].
        destruct (cross_entries _ _ _) as [t|e'] eqn:Ht; bind_step.
        * destruct (covered_rows _ _ _) as [[]|e'] eqn:Hcov; bind_step; [by eauto|].
          right. left. f_equal. eapply covered_rows_errors; [|done].
          apply mask_at_total_5.
        * right. left. f_equal. eapply cross_entries_errors; [|done].
          intros sid entry Hin. by apply Hnew.
      + destruct (load_entries_errors entries_raw ALLOWED_SLOTS [] e') as [->|[-> [sid Hsid]]];
          [|done|by right; left|].
        * intros sid Hin. by apply (filter_nil_none _ _ sid Hmissing).
        * right. right. left. split; [done|]. right. by exists r, entries_raw, sid.
    - case_bool_decide; cbn [negb]; [|by right; left].
      right. right. right. split; [done|]. exists r. split; [done|].
      intros entries_raw. by rewrite Hentries.
    - right. right. right. split; [done|]. exists r. split; [done|].
      intros entries_raw. by rewrite Hentries. }
  split; [done|].
  intros (r & entries_raw & -> & Hentries & Hshape).
  destruct Hcases as [?|[?|[[_ [?|(r' & f & sid & [= <-] & Hf & Hsid)]]|(_ & r' & [= <-] & Hno)]]];
    [by left|by right|done| |].
  - rewrite Hentries in Hf. injection Hf as <-. by destruct (Hshape sid).
  - by destruct (Hno entries_raw).
Qed.

Lemma validate_letters_only_ok s :
  string_forall capital s → _validate_letters_only s false = Ok tt.
Proof.
  induction s as [|a s IH]; cbn [_validate_letters_only string_forall]; [done|].
  intros [Ha Hs]. rewrite !str_leb_single. unfold capital in Ha.
  change (code "A") with 65. change (code "Z") with 90.
  destruct (Z.leb_spec 65 (code a)), (Z.leb_spec (code a) 90); try lia.
  cbn [andb]. by apply IH.
Qed.

Lemma load_entries_ok entries_raw g sids acc :
  (∀ sid, ∃ e, entries_raw sid = Some (EntryDict e)
               ∧ strip (field_str (raw_clue e)) ≠ ""
               ∧ normal_answer entries_raw sid ≠ ""
               ∧ string_forall capital (normal_answer entries_raw sid)
               ∧ dict_get (slot_lengths g) sid = Ok (len (normal_answer entries_raw sid))) →
  ∃ es, load_entries g entries_raw sids acc = Ok es.
Proof.
  intros Hall. revert acc. induction sids as [|sid sids IH]; intros acc;
    cbn [load_entries]; [eauto|].
  destruct (Hall sid) as (e & He & Hclue & Hans & Hcap & Hlen).
  unfold normal_answer in Hans, Hcap, Hlen. rewrite He in Hans, Hcap, Hlen.
  unfold load_entry. rewrite He. cbv zeta.
  rewrite !bool_decide_eq_false_2 by done.
  rewrite validate_letters_only_ok by done. bind_step. rewrite Hlen. bind_step.
  rewrite Z.eqb_refl. cbn [negb]. apply IH.
Qed.

(** The cross-consistency loop succeeds when the letters the slots
    assign to a cell, [P], never differ, and keeps a truth map whose
    letters are all assigned by [P]. *)
Lemma cross_cells_ok (P : Cell → ascii → Prop) cells ans truth :
  (∀ cell a a', P cell a → P cell a' → a = a') →
  (length cells ≤ String.length ans)%nat →
  (∀ (i : nat) cell a, cells !! i = Some cell → String.get i ans = Some a → P cell a) →
  (∀ cell old, truth !! cell = Some old → ∃ a, old = String a EmptyString ∧ P cell a) →
  ∃ truth', cross_cells cells ans truth = Ok truth'
            ∧ ∀ cell old, truth' !! cell = Some old →
                          ∃ a, old = String a EmptyString ∧ P cell a.
Proof.
  intros Hfun. revert ans truth. induction cells as [|cell cells IH]; intros ans truth;
    cbn [cross_cells]; [eauto|].
  destruct ans as [|a ans]; cbn [length String.length]; [lia|].
  intros Hlen Hcells Htruth. cbv zeta.
  assert (P cell a) as Hcell by (by apply (Hcells 0%nat)).
  assert (∃ truth', cross_cells cells ans (<[cell := String a EmptyString]> truth)
                    = Ok truth'
                    ∧ ∀ cell old, truth' !! cell = Some old →
                                  ∃ a, old = String a EmptyString ∧ P cell a) as Hrec.
  { apply IH; [lia| |].
    - intros i cell' a' Hi Ha'. by apply (Hcells (S i)).
    - intros cell' old. destruct (decide (cell' = cell)) as [->|Hne].
      + rewrite lookup_insert_eq. intros [= <-]. eauto.
      + rewrite lookup_insert_ne by done. apply Htruth. }
  destruct (truth !! cell) as [old|] eqn:Hold; [|done].
  destruct (Htruth _ _ Hold) as (a0 & -> & Ha0).
  rewrite (Hfun _ _ _ Ha0 Hcell). by rewrite bool_decide_eq_true_2.
Qed.

Lemma cross_entries_ok (P : Cell → ascii → Prop) g items truth :
  (∀ cell a a', P cell a → P cell a' → a = a') →
  (∀ sid e, (sid, e) ∈ items →
     ∃ cells, dict_get (slots g) sid = Ok cells
              ∧ (length cells ≤ String.length (answer e))%nat
              ∧ ∀ (i : nat) cell a, cells !! i = Some cell →
                  String.get i (answer e) = Some a → P cell a) →
  (∀ cell old, truth !! cell = Some old → ∃ a, old = String a EmptyString ∧ P cell a) →
  ∃ truth', cross_entries g items truth = Ok truth'.
Proof.
  intros Hfun. revert truth. induction items as [|[sid e] items IH]; intros truth Hitems Htruth;
    cbn [cross_entries]; [eauto|].
  destruct (Hitems sid e ltac:(left)) as (cells & Hcells & Hlen & HP).
  rewrite Hcells. bind_step.
  destruct (cross_cells_ok P cells (answer e) truth Hfun Hlen HP Htruth)
    as (truth' & -> & Htruth').
  bind_step. apply IH; [|done]. intros sid' e' Hin. apply Hitems. by right.
Qed.

Lemma covered_row_ok g truth r cs :
  (∀ c, c ∈ cs → ∃ p, mask_at g r c = Ok p ∧ (p = true → is_Some (truth !! (r, c)))) →
  covered_row g truth r cs = Ok tt.
Proof.
  induction cs as [|c cs IH]; cbn [covered_row]; [done|]. intros Hcs.
  destruct (Hcs c ltac:(left)) as (p & -> & Hp). bind_step.
  destruct p; cbn [andb].
  - rewrite bool_decide_eq_true_2 by auto. cbn [negb]. apply IH.
    intros c' Hin. apply Hcs. by right.
  - apply IH. intros c' Hin. apply Hcs. by right.
Qed.

Lemma covered_rows_ok g truth rs :
  (∀ r c, r ∈ rs → c ∈ range (size g) →
     ∃ p, mask_at g r c = Ok p ∧ (p = true → is_Some (truth !! (r, c)))) →
  covered_rows g truth rs = Ok tt.
Proof.
  induction rs as [|r rs IH]; cbn [covered_rows]; [done|]. intros Hrs.
  rewrite covered_row_ok; [bind_step|].
  - apply IH. intros r' c Hin. apply Hrs. by right.
  - intros c Hc. apply Hrs; [left|done].
Qed.

Lemma playable_in_slot_5 cell :
  playable build_grid_spec cell → ∃ sid, in_slot build_grid_spec sid cell.
Proof.
  intros Hin%playable_5. unfold in_slot. apply list_elem_of_In in Hin. cbn in Hin.
  assert (∀ sid cells c, dict_get (slots build_grid_spec) sid = Ok cells →
            bool_decide (c ∈ cells) = true →
            ∃ sid cells, dict_get (slots build_grid_spec) sid = Ok cells ∧ c ∈ cells)
    as Hex.
  { intros sid cells c Hcells Hc%bool_decide_eq_true. eauto. }
  repeat (destruct Hin as [<-|Hin];
          [first [ by apply (Hex h1 _ _ eq_refl)
                 | by apply (Hex h2 _ _ eq_refl)
                 | by apply (Hex v1 _ _ eq_refl)
                 | by apply (Hex v2 _ _ eq_refl) ]|]).
  destruct Hin.
Qed.

Lemma slot_in_ALLOWED_SLOTS sid : sid ∈ ALLOWED_SLOTS.
Proof. destruct sid; apply (bool_decide_unpack _); vm_compute; exact I. Qed.

(** X25. On the fixed geometry, [load_puzzle] returns a puzzle exactly
    when the file is an object with an object under "entries", the
    schema version is "puzzlefile.v1", each of the five slots has an
    entry that is an object with a clue that is not blank and a
    normalised answer that is not empty, consists of capital letters and
    has the length of its slot, and the answers put the same letter on
    every cell that two slots share. *)
Theorem load_puzzle_accepts_iff raw path :
  (∃ p, load_puzzle raw path build_grid_spec = Ok p) ↔ acceptable raw build_grid_spec.
Proof.
  unfold acceptable. split.
  - intros [l (r & entries_raw & es & t & -> & Hentries & Hschema & Hmissing & Hes & Ht
                 & _)%load_puzzle_Ok].
    exists r, entries_raw. split; [done|]. split; [done|].
    destruct (load_entries_spec build_grid_spec entries_raw ALLOWED_SLOTS [] es
                NoDup_ALLOWED_SLOTS) as (new & -> & Hkeys & Hnew);
      [by intros ? _ ?%elem_of_nil|done|]. cbn [app] in Ht.
    destruct (cross_entries_spec _ _ _ _ Ht) as (_ & _ & Hagree).
    assert (∀ sid, ∃ e, (sid, e) ∈ new ∧ answer e = normal_answer entries_raw sid
                        ∧ well_formed_entry build_grid_spec sid e
                        ∧ ∃ r, entries_raw sid = Some (EntryDict r)
                               ∧ clue e = strip (field_str (raw_clue r))) as Hentry.
    { intros sid. pose proof (slot_in_ALLOWED_SLOTS sid) as Hin. rewrite <- Hkeys in Hin.
      apply list_elem_of_fmap in Hin as ([sid' e] & Hsid & Hin). cbn [fst] in Hsid.
      subst sid'. destruct (Hnew sid e Hin) as (Hwf & r' & Hr & Hclue & Hans & _).
      exists e. split; [done|]. split; [|eauto]. unfold normal_answer. by rewrite Hr. }
    split; [done|]. split.
    + intros sid.
      destruct (Hentry sid) as (e & _ & Hans & (Hclue & Hne & Hcap & Hlen) & r' & Hr & Hc).
      exists r'. rewrite <- Hans, <- Hc. done.
    + intros sid sid' cells cells' i j cell Hcells Hcells' Hi Hj.
      destruct (Hentry sid) as (e & Hin & <- & _).
      destruct (Hentry sid') as (e' & Hin' & <- & _).
      destruct (Hagree _ _ _ _ _ Hin Hcells Hi) as (a & -> & Ha).
      destruct (Hagree _ _ _ _ _ Hin' Hcells' Hj) as (a' & -> & Ha').
      rewrite Ha in Ha'. by injection Ha' as ->.
  - intros (r & entries_raw & -> & Hraw & Hschema & Hentries & Hcross).
    assert (filter (fun sid => entries_raw sid = None) ALLOWED_SLOTS = []) as Hmissing.
    { destruct (filter _ ALLOWED_SLOTS) as [|sid rest] eqn:Hfilter; [done|].
      assert (sid ∈ filter (fun sid => entries_raw sid = None) ALLOWED_SLOTS) as Hin
        by (rewrite Hfilter; left).
      apply list_elem_of_filter in Hin as [Hnone _].
      destruct (Hentries sid) as (e & He & _). congruence. }
    destruct (load_entries_ok entries_raw build_grid_spec ALLOWED_SLOTS [] Hentries)
      as [es Hes].
    destruct (load_entries_spec build_grid_spec entries_raw ALLOWED_SLOTS [] es
                NoDup_ALLOWED_SLOTS) as (new & Hnew_eq & Hkeys & Hnew);
      [by intros ? _ ?%elem_of_nil|done|]. cbn [app] in Hnew_eq. subst es.
    assert (∀ sid e, (sid, e) ∈ new → answer e = normal_answer entries_raw sid) as Hanswer.
    { intros sid e Hin. destruct (Hnew sid e Hin) as (_ & r' & Hr & _ & Hans & _).
      unfold normal_answer. by rewrite Hr. }
    set (P := fun (cell : Cell) (a : ascii) =>
                ∃ sid cells (i : nat), dict_get (slots build_grid_spec) sid = Ok cells
                  ∧ cells !! i = Some cell
                  ∧ String.get i (normal_answer entries_raw sid) = Some a).
    destruct (cross_entries_ok P build_grid_spec new ∅) as [t Ht].
    { intros cell a a' (sid & cells & i & Hcells & Hi & Ha)
        (sid' & cells' & j & Hcells' & Hj & Ha').
      rewrite (Hcross _ _ _ _ _ _ _ Hcells Hcells' Hi Hj) in Ha. congruence. }
    { intros sid e Hin. destruct (Hnew sid e Hin) as ((_ & _ & _ & Hlen) & _).
      apply slot_lengths_5 in Hlen as (cells & Hcells & Hlen). exists cells.
      split; [done|]. split; [unfold len in Hlen; lia|].
      intros i cell a Hi Ha. exists sid, cells, i. by rewrite <- (Hanswer sid e Hin). }
    { intros cell old. by rewrite lookup_empty. }
    destruct (cross_entries_spec _ _ _ _ Ht) as (_ & _ & Hagree).
    eexists. apply load_puzzle_Ok. exists r, entries_raw, new, t.
    repeat (split; [done|]). split; [|done].
    apply covered_rows_ok.
    intros r' c Hr%range_elem Hc%range_elem. exists (playable5 (r', c)).
    rewrite <- is_playable_inside, is_playable_5 by done. split; [done|].
    intros Hplay.
    destruct (playable_in_slot_5 (r', c)) as (sid & cells & Hcells & Hin).
    { unfold playable. by rewrite is_playable_5, Hplay. }
    apply list_elem_of_lookup in Hin as [i Hi].
    pose proof (slot_in_ALLOWED_SLOTS sid) as Hsid. rewrite <- Hkeys in Hsid.
    apply list_elem_of_fmap in Hsid as ([sid' e] & Hsid & Hentry). cbn [fst] in Hsid.
    subst sid'. destruct (Hagree _ _ _ _ _ Hentry Hcells Hi) as (a & _ & ->). eauto.
Qed.

(** X26. On the fixed geometry, a puzzle that [load_puzzle] returns with
    a meta that is an object always starts a game: [build_truth_map] and
    [init_state] both succeed on it, the initial state satisfies the
    invariants of the data model, and the truth map knows exactly the
    playable cells, which are exactly the cells the state holds a letter
    slot for. [load_puzzle] does not look at the meta: what it returns
    has an object for meta exactly when the file has an object, nothing
    or a falsy value under "meta"; [init_state], which reads the meta
    with [get], is defined on such puzzles only. *)
Theorem loaded_puzzle_starts raw path l fresh :
  load_puzzle raw path build_grid_spec = Ok l →
  (∀ p, as_puzzle l = Some p →
     ∃ t s,
       build_truth_map p build_grid_spec = Ok t
       ∧ init_state p build_grid_spec fresh = Ok s
       ∧ state_inv build_grid_spec s
       ∧ (∀ cell, is_Some (truth t !! cell) ↔ playable build_grid_spec cell)
       ∧ (∀ cell, is_Some (truth t !! cell) ↔ is_Some (grid_letters s !! cell)))
  ∧ (is_Some (as_puzzle l) ↔ ∃ r m, raw = FileObject r ∧ raw_meta r = MetaDict m)
  ∧ (∀ r meta, raw = FileObject r →
       ∃ l', load_puzzle (FileObject (mkRawPuzzle (raw_schema_version r) meta (raw_entries r)))
               path build_grid_spec = Ok l'
             ∧ loaded_meta l' = meta ∧ loaded_entries l' = loaded_entries l).
Proof.
  intros Hl.
  pose proof Hl as (r & entries_raw & es & t & -> & Hentries & Hschema & Hmissing & Hes & Ht
                    & Hcov & ->)%load_puzzle_Ok.
  destruct (cross_entries_spec _ _ _ _ Ht) as (Hproj & _ & _).
  split; [|split].
  - intros p Hp. unfold as_puzzle in Hp. cbn [loaded_meta] in Hp.
    destruct (raw_meta r) as [m|]; [|done]. apply (inj Some) in Hp. subst p.
    cbn [loaded_schema_version loaded_entries loaded_filename].
    set (p := mkPuzzle _ m es _).
    assert (build_truth_map p build_grid_spec = Ok (mkTruthMap t)) as Htruth.
    { unfold build_truth_map. subst p. cbn [entries]. by rewrite Hproj. }
    destruct (init_state_5_shape p fresh) as (letters & given & Hseed & Hs).
    eexists (mkTruthMap t), _. split; [done|]. split; [exact Hs|].
    pose proof (init_state_inv _ _ _ Hs) as Hinv.
    assert (∀ cell, is_Some (t !! cell) ↔ playable build_grid_spec cell) as Hdom.
    { intros cell. split; [apply (build_truth_map_within p _ Htruth)|].
      destruct cell as [r' c]. intros (Hr & Hc & Hmask)%playable_inside.
      eapply covered_rows_spec; [done| | |done]; by apply range_elem_of. }
    split; [done|]. split; [done|].
    intros cell. cbn [truth]. rewrite Hdom. symmetry. apply (inv_letters _ _ Hinv).
  - unfold as_puzzle. cbn [loaded_meta]. split.
    + intros Hsome. destruct (raw_meta r) as [m|] eqn:Hm; [by eauto|by destruct Hsome].
    + intros (r' & m & [= <-] & ->). by eexists.
  - intros r' meta [= <-].
    exists (mkLoadedPuzzle "puzzlefile.v1" meta es (basename path)). split; [|done].
    apply load_puzzle_Ok. exists (mkRawPuzzle (raw_schema_version r) meta (raw_entries r)),
      entries_raw, es, t. done.
Qed.

Lemma loaded_puzzle_starts_witness :
  (∀ p, as_puzzle example_loaded = Some p →
     ∃ t s,
       build_truth_map p build_grid_spec = Ok t
       ∧ init_state p build_grid_spec "0" = Ok s
       ∧ state_inv build_grid_spec s
       ∧ (∀ cell, is_Some (truth t !! cell) ↔ playable build_grid_spec cell)
       ∧ (∀ cell, is_Some (truth t !! cell) ↔ is_Some (grid_letters s !! cell)))
  ∧ (is_Some (as_puzzle example_loaded)
     ↔ ∃ r m, example_raw = FileObject r ∧ raw_meta r = MetaDict m)
  ∧ (∀ r meta, example_raw = FileObject r →
       ∃ l', load_puzzle (FileObject (mkRawPuzzle (raw_schema_version r) meta (raw_entries r)))
               "puzzles/demo.json" build_grid_spec = Ok l'
             ∧ loaded_meta l' = meta
             ∧ loaded_entries l' = loaded_entries example_loaded).
Proof.
  apply (loaded_puzzle_starts example_raw "puzzles/demo.json" example_loaded "0").
  vm_compute. reflexivity.
Defined.
